(** * Versant scoring engine: a shallow embedding of [src/lib/scoring.ts]

    The development follows the TypeScript module function by function.

    Conventions of the embedding.
    - A JavaScript string is a [string]: one [ascii] per UTF-16 code unit, so
      the strings covered are those whose code units are below 256 (Latin-1).
      [toLowerCase], [trim], [\s], [\w] and [\b] are the ECMAScript ones
      restricted to that range.
    - A JavaScript [number] is a [Z] where the source only ever holds an
      integer in it (counts, lengths, point totals) and a [number] elsewhere:
      a rational, [Infinity], [-Infinity] or [NaN].  The sums and the
      quotients of [calculateSectionScore] and [calculateOverallScore] are
      rounded to the nearest double ([binary64]), as the engine rounds them.
      The other ratios (those of the text and audio analyses and the
      averages of the test page) are exact: what is stated of them is a
      bound, or a comparison with a threshold, that rounding to the nearest
      double does not change on a text or a recording of realistic size.
    - [for] loops with a computed stride take fuel; running out of it is
      [Diverge]. *)

From Stdlib Require Import ZArith QArith Qround Qabs Qminmax Qpower Qreduction.
From Stdlib Require Import List Bool Ascii String Arith Lia Lqa.
Import ListNotations.

Open Scope string_scope.
Open Scope Z_scope.

(** ** JavaScript string primitives *)

Definition code (c : ascii) : N := N_of_ascii c.

Definition between (lo hi : N) (c : ascii) : bool :=
  ((lo <=? code c) && (code c <=? hi))%N.

Definition isUpperAZ (c : ascii) : bool := between 65 90 c.
Definition isLowerAZ (c : ascii) : bool := between 97 122 c.
Definition isDigit (c : ascii) : bool := between 48 57 c.

(** [\w] is [[A-Za-z0-9_]]. *)
Definition isWordChar (c : ascii) : bool :=
  isUpperAZ c || isLowerAZ c || isDigit c || (code c =? 95)%N.

(** [\s], and what [trim] strips: TAB, LF, VT, FF, CR, SPACE and NBSP. *)
Definition isWhiteSpace (c : ascii) : bool :=
  between 9 13 c || (code c =? 32)%N || (code c =? 160)%N.

(** [[.!?]] *)
Definition isSentenceEnd (c : ascii) : bool :=
  (code c =? 46)%N || (code c =? 33)%N || (code c =? 63)%N.

(** [toLowerCase] on one code unit: A-Z, and the Latin-1 capitals
    U+00C0..U+00DE except the multiplication sign U+00D7. *)
Definition toLowerChar (c : ascii) : ascii :=
  if isUpperAZ c || (between 192 222 c && negb (code c =? 215)%N)
  then ascii_of_N (code c + 32)
  else c.

Fixpoint toLowerCase (s : string) : string :=
  match s with
  | EmptyString => EmptyString
  | String c s' => String (toLowerChar c) (toLowerCase s')
  end.

Definition isEmpty (s : string) : bool :=
  match s with EmptyString => true | _ => false end.

Fixpoint trimStart (s : string) : string :=
  match s with
  | String c s' => if isWhiteSpace c then trimStart s' else s
  | EmptyString => EmptyString
  end.

Fixpoint trimEnd (s : string) : string :=
  match s with
  | EmptyString => EmptyString
  | String c s' =>
      let t := trimEnd s' in
      if isWhiteSpace c && isEmpty t then EmptyString else String c t
  end.

Definition trim (s : string) : string := trimEnd (trimStart s).

Fixpoint startsWith (s sub : string) : bool :=
  match sub, s with
  | EmptyString, _ => true
  | String _ _, EmptyString => false
  | String b sub', String a s' => Ascii.eqb a b && startsWith s' sub'
  end.

(** [s.includes(sub)] *)
Fixpoint includes (s sub : string) : bool :=
  startsWith s sub ||
  match s with
  | EmptyString => false
  | String _ s' => includes s' sub
  end.

(** [arr.includes(x)] on an array of strings. *)
Definition Array_includes (arr : list string) (x : string) : bool :=
  existsb (String.eqb x) arr.

(** [new Set(arr)]: the distinct elements, in insertion order. *)
Definition Set_add (set : list string) (x : string) : list string :=
  if Array_includes set x then set else (set ++ [x])%list.

Definition Set_of (arr : list string) : list string := fold_left Set_add arr [].

Definition len (s : string) : Z := Z.of_nat (String.length s).
Definition count {A : Type} (l : list A) : Z := Z.of_nat (List.length l).

(** [arr.join(sep)] *)
Fixpoint join (sep : string) (arr : list string) : string :=
  match arr with
  | [] => EmptyString
  | [x] => x
  | x :: arr' => x ++ sep ++ join sep arr'
  end.

(** [s.split(sep)] for a separator that is a non-empty string: [piece] is
    the text since the last separator and [skip] counts the code units of
    that separator still to be passed. *)
Fixpoint String_split_from (sep : string) (skip : nat) (piece s : string) : list string :=
  match s with
  | EmptyString => [piece]
  | String c s' =>
      match skip with
      | S n => String_split_from sep n piece s'
      | O =>
          if startsWith s sep
          then piece :: String_split_from sep (pred (String.length sep)) EmptyString s'
          else String_split_from sep 0 (piece ++ String c EmptyString) s'
      end
  end.

Definition String_split (sep s : string) : list string :=
  String_split_from sep 0 EmptyString s.

(** ** Regular expressions

    The fragment of ECMAScript regular expressions the module uses:
    literals, character classes, [class+], concatenation, alternation,
    [\b], [^] and [$].  Matching is the backtracking matcher of the
    language definition, written with continuations: alternatives are tried
    left to right and [+] is greedy. *)

Inductive regex : Type :=
| Eps
| Chr (c : ascii)
| Cls (p : ascii -> bool)
| Plus (p : ascii -> bool)
| Cat (r1 r2 : regex)
| Alt (r1 r2 : regex)
| WordB
| Bol
| Eol.

Fixpoint lit (s : string) : regex :=
  match s with
  | EmptyString => Eps
  | String c s' => Cat (Chr c) (lit s')
  end.

(** [a|b|c] *)
Fixpoint alts (rs : list regex) : regex :=
  match rs with
  | [] => Eps
  | [r] => r
  | r :: rs' => Alt r (alts rs')
  end.

(** [\b(...)\b] *)
Definition wordBounded (r : regex) : regex := Cat WordB (Cat r WordB).

Definition kont : Type := option ascii -> string -> option string.

Definition isWordOpt (c : option ascii) : bool :=
  match c with Some x => isWordChar x | None => false end.

Definition next (s : string) : option ascii :=
  match s with String c _ => Some c | EmptyString => None end.

(** With the [i] flag two code units match when their canonical forms agree;
    for the ASCII patterns of this module that is equality up to the case of
    A-Z. *)
Definition foldCase (c : ascii) : ascii :=
  if isUpperAZ c then ascii_of_N (code c + 32) else c.

Definition chrMatches (ci : bool) (c x : ascii) : bool :=
  if ci then Ascii.eqb (foldCase c) (foldCase x) else Ascii.eqb c x.

Fixpoint starClass (p : ascii -> bool) (prev : option ascii) (s : string)
         (k : kont) : option string :=
  match s with
  | String c s' =>
      if p c then
        match starClass p (Some c) s' k with
        | Some r => Some r
        | None => k prev s
        end
      else k prev s
  | EmptyString => k prev s
  end.

Fixpoint rmatch (ci : bool) (r : regex) (prev : option ascii) (s : string)
         (k : kont) : option string :=
  match r with
  | Eps => k prev s
  | Chr c =>
      match s with
      | String x s' => if chrMatches ci c x then k (Some x) s' else None
      | EmptyString => None
      end
  | Cls p =>
      match s with
      | String x s' => if p x then k (Some x) s' else None
      | EmptyString => None
      end
  | Plus p =>
      match s with
      | String x s' => if p x then starClass p (Some x) s' k else None
      | EmptyString => None
      end
  | Cat r1 r2 => rmatch ci r1 prev s (fun prev' s' => rmatch ci r2 prev' s' k)
  | Alt r1 r2 =>
      match rmatch ci r1 prev s k with
      | Some rest => Some rest
      | None => rmatch ci r2 prev s k
      end
  | WordB => if xorb (isWordOpt prev) (isWordOpt (next s)) then k prev s else None
  | Bol => match prev with None => k prev s | Some _ => None end
  | Eol => match s with EmptyString => k prev s | String _ _ => None end
  end.

(** A match starting exactly here; the result is what is left of the input. *)
Definition matchAt (ci : bool) (r : regex) (prev : option ascii) (s : string)
  : option string :=
  rmatch ci r prev s (fun _ rest => Some rest).

Definition matched (s rest : string) : string :=
  substring 0 (String.length s - String.length rest) s.

(** [re.test(s)] for a regular expression without the [g] flag. *)
Fixpoint testFrom (ci : bool) (r : regex) (prev : option ascii) (s : string) : bool :=
  match matchAt ci r prev s with
  | Some _ => true
  | None =>
      match s with
      | String c s' => testFrom ci r (Some c) s'
      | EmptyString => false
      end
  end.

Definition test (ci : bool) (r : regex) (s : string) : bool := testFrom ci r None s.

(** [s.match(re)] with the [g] flag: every match, left to right, none
    overlapping; an empty match moves on by one code unit. [skip] counts the
    code units of the last match still to be passed. *)
Fixpoint matchAllFrom (ci : bool) (r : regex) (skip : nat) (prev : option ascii)
         (s : string) : list string :=
  match s with
  | EmptyString =>
      match skip with
      | O => match matchAt ci r prev s with Some _ => [EmptyString] | None => [] end
      | S _ => []
      end
  | String c s' =>
      match skip with
      | S n => matchAllFrom ci r n (Some c) s'
      | O =>
          match matchAt ci r prev s with
          | Some rest =>
              matched s rest
                :: matchAllFrom ci r (pred (String.length s - String.length rest)) (Some c) s'
          | None => matchAllFrom ci r 0 (Some c) s'
          end
      end
  end.

(** [null] when nothing matches. *)
Definition String_match (ci : bool) (r : regex) (s : string) : option (list string) :=
  match matchAllFrom ci r 0 None s with
  | [] => None
  | ms => Some ms
  end.

(** [s.split(re)]: [piece] is the text since the last separator. *)
Fixpoint splitFrom (ci : bool) (r : regex) (skip : nat) (piece : string)
         (prev : option ascii) (s : string) : list string :=
  match s with
  | EmptyString => [piece]
  | String c s' =>
      match skip with
      | S n => splitFrom ci r n piece (Some c) s'
      | O =>
          match matchAt ci r prev s with
          | None => splitFrom ci r 0 (piece ++ String c EmptyString) (Some c) s'
          | Some rest =>
              match (String.length s - String.length rest)%nat with
              | O =>
                  if isEmpty piece
                  then splitFrom ci r 0 (String c EmptyString) (Some c) s'
                  else piece :: splitFrom ci r 0 (String c EmptyString) (Some c) s'
              | S n => piece :: splitFrom ci r n EmptyString (Some c) s'
              end
          end
      end
  end.

Definition split (ci : bool) (r : regex) (s : string) : list string :=
  match s with
  | EmptyString =>
      match matchAt ci r None s with Some _ => [] | None => [s] end
  | String _ _ => splitFrom ci r 0 EmptyString None s
  end.

(** The regular expressions of the module. *)
Definition re_sentence_break : regex := Plus isSentenceEnd.        (* /[.!?]+/ *)
Definition re_whitespace : regex := Plus isWhiteSpace.             (* /\s+/ *)
Definition re_leading_capital : regex := Cat Bol (Cls isUpperAZ).  (* /^[A-Z]/ *)
Definition re_final_punct : regex := Cat (Cls isSentenceEnd) Eol.  (* /[.!?]$/ *)
Definition re_lower_word : regex := wordBounded (Plus isLowerAZ).  (* /\b[a-z]+\b/g *)

(** ** JavaScript numbers

    Finite values are exact rationals; the three non-finite values are kept
    so that a division is total, as it is in JavaScript.  Signed zeros are
    not told apart. *)

Inductive number : Type :=
| Fin (q : Q)
| PosInf
| NegInf
| NaN.

Definition ofZ (z : Z) : number := Fin (inject_Z z).
Coercion ofZ : Z >-> number.
Coercion Fin : Q >-> number.

Definition Qpositive (q : Q) : bool := negb (Qle_bool q 0).
Definition Qnegative (q : Q) : bool := negb (Qle_bool 0 q).

Definition add (a b : number) : number :=
  match a, b with
  | NaN, _ | _, NaN => NaN
  | Fin x, Fin y => Fin (x + y)
  | PosInf, NegInf | NegInf, PosInf => NaN
  | PosInf, _ | _, PosInf => PosInf
  | NegInf, _ | _, NegInf => NegInf
  end.

Definition signed (positive : bool) : number := if positive then PosInf else NegInf.

Definition mul (a b : number) : number :=
  match a, b with
  | NaN, _ | _, NaN => NaN
  | Fin x, Fin y => Fin (x * y)
  | Fin x, PosInf | PosInf, Fin x =>
      if Qeq_bool x 0 then NaN else signed (Qpositive x)
  | Fin x, NegInf | NegInf, Fin x =>
      if Qeq_bool x 0 then NaN else signed (Qnegative x)
  | PosInf, PosInf | NegInf, NegInf => PosInf
  | PosInf, NegInf | NegInf, PosInf => NegInf
  end.

(** [a / b] *)
Definition divide (a b : number) : number :=
  match a, b with
  | NaN, _ | _, NaN => NaN
  | Fin x, Fin y =>
      if Qeq_bool y 0
      then (if Qeq_bool x 0 then NaN else signed (Qpositive x))
      else Fin (x / y)
  | Fin _, _ => Fin 0
  | PosInf, Fin y => signed (Qle_bool 0 y)
  | NegInf, Fin y => signed (Qnegative y)
  | _, _ => NaN
  end.

(** [a < b]; every comparison with [NaN] is false. *)
Definition lt (a b : number) : bool :=
  match a, b with
  | NaN, _ | _, NaN => false
  | Fin x, Fin y => negb (Qle_bool y x)
  | NegInf, NegInf | PosInf, _ | _, NegInf => false
  | _, _ => true
  end.

Definition le (a b : number) : bool :=
  match a, b with
  | NaN, _ | _, NaN => false
  | Fin x, Fin y => Qle_bool x y
  | NegInf, _ | _, PosInf => true
  | _, _ => false
  end.

Definition gt (a b : number) : bool := lt b a.
Definition ge (a b : number) : bool := le b a.

Definition Math_min (a b : number) : number :=
  match a, b with
  | NaN, _ | _, NaN => NaN
  | _, _ => if le a b then a else b
  end.

Definition Math_max (a b : number) : number :=
  match a, b with
  | NaN, _ | _, NaN => NaN
  | _, _ => if le a b then b else a
  end.

(** [Math.round]: halves go up. *)
Definition Math_round (a : number) : number :=
  match a with
  | Fin q => Fin (inject_Z (Qfloor (q + (1 # 2))))
  | _ => a
  end.

(** What [if (x)], [x || y] and [x ? y : z] make of a number. *)
Definition truthy (a : number) : bool :=
  match a with
  | Fin q => negb (Qeq_bool q 0)
  | NaN => false
  | _ => true
  end.

Declare Scope num_scope.
Delimit Scope num_scope with num.
Bind Scope num_scope with number.
Infix "+" := add : num_scope.
Infix "*" := mul : num_scope.
Infix "/" := divide : num_scope.
Infix "<?" := lt : num_scope.
Infix "<=?" := le : num_scope.
Infix ">?" := gt : num_scope.
Infix ">=?" := ge : num_scope.

(** *** Doubles

    A JavaScript number is an IEEE 754 binary64 value, and every arithmetic
    operation returns the double nearest to the exact result, a tie going to
    the even significand.  [binary64 q] is that double for the exact result
    [q]: a multiple of [2^p], where [p] is 52 below the binary exponent of
    [q] and at least [-1074], or an infinity from [2^1024] on. *)

Definition pow2 (k : Z) : Q := 2 ^ k.

(** For [0 < q], the [e] with [2^e <= q < 2^(e+1)]. *)
Definition exponent (q : Q) : Z :=
  let k := Z.log2 (Qnum q) - Z.log2 (Zpos (Qden q)) in
  if Qle_bool (pow2 k) q then k else k - 1.

Definition roundHalfEven (x : Q) : Z :=
  let f := Qfloor x in
  match (x - inject_Z f ?= 1 # 2)%Q with
  | Lt => f
  | Gt => f + 1
  | Eq => if Z.even f then f else f + 1
  end.

(** The nearest double to [0 <= q], were the exponent unbounded above. *)
Definition magnitude64 (q : Q) : Q :=
  let p := Z.max (exponent q) (-1022) - 52 in
  Qred (inject_Z (roundHalfEven (q / pow2 p)) * pow2 p).

Definition binary64 (q : Q) : number :=
  if Qle_bool 0 q
  then (let r := magnitude64 q in if Qle_bool (pow2 1024) r then PosInf else Fin r)
  else (let r := magnitude64 (- q) in if Qle_bool (pow2 1024) r then NegInf else Fin (- r)).

Definition rounded (a : number) : number :=
  match a with
  | Fin q => binary64 q
  | _ => a
  end.

(** [a + b] and [a / b] as the engine computes them. *)
Definition added (a b : number) : number := rounded (a + b).
Definition divided (a b : number) : number := rounded (a / b).

(** ** Outcomes of effectful code

    [Throw] is a JavaScript exception (a rejected promise, for an [async]
    function); [Diverge] is a loop that has used up its fuel. *)

Inductive outcome (A : Type) : Type :=
| Return (a : A)
| Throw
| Diverge.

Arguments Return {A} a.
Arguments Throw {A}.
Arguments Diverge {A}.

Definition bind {A B : Type} (m : outcome A) (f : A -> outcome B) : outcome B :=
  match m with
  | Return a => f a
  | Throw => Throw
  | Diverge => Diverge
  end.

Notation "x <- m ;; k" := (bind m (fun x => k))
  (at level 61, m at next level, right associativity).

(** [try { body } catch { handler }] *)
Definition try_catch {A : Type} (body handler : outcome A) : outcome A :=
  match body with
  | Throw => handler
  | _ => body
  end.

(** ** Data model *)

Record ScoringParameters : Type := {
  fluency : number;
  pronunciation : number;
  grammar : number;
  vocabulary : number;
  comprehension : number
}.

Record SectionScore : Type := {
  section : string;
  score : number;
  parameters : ScoringParameters;
  feedback : string
}.

(** ** Section and overall scores *)

(** [scoring.ts], lines 26-36: the four additions, from left to right, and
    the division, each rounded to a double. *)
Definition calculateSectionScore (parameters : ScoringParameters) : number :=
  Math_round
    (divided
       (added (added (added (added (fluency parameters) (pronunciation parameters))
                            (grammar parameters))
                     (vocabulary parameters))
              (comprehension parameters))
       5).

(** [scoring.ts], lines 38-42. *)
Definition calculateOverallScore (sectionScores : list SectionScore) : number :=
  if count sectionScores =? 0 then 0
  else
    let total := fold_left (fun sum section => added sum (score section)) sectionScores (ofZ 0) in
    Math_round (divided total (count sectionScores)).

(** The array [scores] of [generateFeedback], and the names it keeps as
    strengths and as weaknesses. *)
Definition scores (parameters : ScoringParameters) : list (string * number) :=
  [ ("Fluency", fluency parameters);
    ("Pronunciation", pronunciation parameters);
    ("Grammar", grammar parameters);
    ("Vocabulary", vocabulary parameters);
    ("Comprehension", comprehension parameters) ].

Definition strengths (parameters : ScoringParameters) : list string :=
  map fst (filter (fun s => (snd s >=? 80)%num) (scores parameters)).

Definition weaknesses (parameters : ScoringParameters) : list string :=
  map fst (filter (fun s => (snd s <? 60)%num) (scores parameters)).

(** [scoring.ts], lines 44-71. *)
Definition generateFeedback (parameters : ScoringParameters) : string :=
  let strengths := strengths parameters in
  let weaknesses := weaknesses parameters in
  let feedback := EmptyString in
  let feedback :=
    if count strengths >? 0
    then feedback ++ "Strengths: " ++ join ", " strengths ++ ". "
    else feedback in
  let feedback :=
    if count weaknesses >? 0
    then feedback ++ "Areas to improve: " ++ join ", " weaknesses ++ ". "
    else feedback in
  if String.eqb feedback EmptyString
  then "Good overall performance. Keep practicing to improve further."
  else feedback.

(** [scoring.ts], lines 270-276. *)
Definition getScoreFeedback (score : number) : string :=
  if (score >=? 85)%num then "Excellent performance! You are very well-prepared for the placement test."
  else if (score >=? 75)%num then "Very good! Your communication skills are strong. Keep practicing to reach excellence."
  else if (score >=? 65)%num then "Good effort! You have solid fundamentals. Focus on improving weak areas."
  else if (score >=? 55)%num then "Fair performance. Dedicate more time to practice and improvement."
  else "Keep practicing! Focus on all areas of communication skills.".

(** [scoring.ts], lines 278-284. *)
Definition getScoreLevel (score : number) : string :=
  if (score >=? 85)%num then "Excellent"
  else if (score >=? 75)%num then "Very Good"
  else if (score >=? 65)%num then "Good"
  else if (score >=? 55)%num then "Fair"
  else "Needs Improvement".

(** ** Text analysis *)

Definition dq : string := String "034"%char EmptyString.

Module Grammar.
Record t : Type := { score : Z; errors : list string; suggestions : list string }.
Definition deduct (n : Z) (r : t) : t :=
  {| score := score r - n; errors := errors r; suggestions := suggestions r |}.
Definition award (n : Z) (r : t) : t :=
  {| score := score r + n; errors := errors r; suggestions := suggestions r |}.
Definition pushError (e : string) (r : t) : t :=
  {| score := score r; errors := (errors r ++ [e])%list; suggestions := suggestions r |}.
Definition pushSuggestion (e : string) (r : t) : t :=
  {| score := score r; errors := errors r; suggestions := (suggestions r ++ [e])%list |}.
End Grammar.

Record ErrorPattern : Type := { pattern : regex; error : string; penalty : Z }.

(** Every pattern of the catalogue is [/\b...\b/i]. *)
Definition commonErrors : list ErrorPattern :=
  [ {| pattern := wordBounded (lit "i am going to went"); error := "Incorrect verb tense"; penalty := 10 |};
    {| pattern := wordBounded (lit "he don't"); error := "Subject-verb disagreement"; penalty := 8 |};
    {| pattern := wordBounded (lit "she don't"); error := "Subject-verb disagreement"; penalty := 8 |};
    {| pattern := wordBounded (lit "it don't"); error := "Subject-verb disagreement"; penalty := 8 |};
    {| pattern := wordBounded (lit "much people");
       error := "Use " ++ dq ++ "many people" ++ dq ++ " not " ++ dq ++ "much people" ++ dq; penalty := 6 |};
    {| pattern := wordBounded (lit "less people");
       error := "Use " ++ dq ++ "fewer people" ++ dq ++ " not " ++ dq ++ "less people" ++ dq; penalty := 6 |};
    {| pattern := wordBounded (lit "more better");
       error := "Use " ++ dq ++ "better" ++ dq ++ " not " ++ dq ++ "more better" ++ dq; penalty := 6 |};
    {| pattern := wordBounded (lit "most best");
       error := "Use " ++ dq ++ "best" ++ dq ++ " not " ++ dq ++ "most best" ++ dq; penalty := 6 |};
    {| pattern := wordBounded (lit "can able to");
       error := "Use either " ++ dq ++ "can" ++ dq ++ " or " ++ dq ++ "able to" ++ dq; penalty := 5 |};
    {| pattern := wordBounded (lit "would of");
       error := "Use " ++ dq ++ "would have" ++ dq ++ " not " ++ dq ++ "would of" ++ dq; penalty := 8 |};
    {| pattern := wordBounded (lit "could of");
       error := "Use " ++ dq ++ "could have" ++ dq ++ " not " ++ dq ++ "could of" ++ dq; penalty := 8 |};
    {| pattern := wordBounded (lit "should of");
       error := "Use " ++ dq ++ "should have" ++ dq ++ " not " ++ dq ++ "should of" ++ dq; penalty := 8 |} ].

(** [text.split(/[.!?]+/).filter(s => s.trim().length > 0)] *)
Definition sentencesOf (text : string) : list string :=
  filter (fun s => len (trim s) >? 0) (split false re_sentence_break text).

Definition conjunctions : list string :=
  ["and"; "but"; "because"; "although"; "however"; "therefore"; "moreover"; "furthermore"].

(** The body of the [forEach] over [commonErrors]. *)
Definition checkPattern (text : string) (r : Grammar.t) (e : ErrorPattern) : Grammar.t :=
  if test true (pattern e) text
  then Grammar.deduct (penalty e) (Grammar.pushError (error e) r)
  else r.

(** The quotient [words.length / Math.max(sentences.length, 1)] of
    [analyzeGrammarFree]. *)
Definition avgWordsPerSentence (words sentences : list string) : number :=
  (count words / Z.max (count sentences) 1)%num.

(** [scoring.ts], lines 289-351. *)
Definition analyzeGrammarFree (text : string) : Grammar.t :=
  let r := {| Grammar.score := 85; Grammar.errors := []; Grammar.suggestions := [] |} in
  let sentences := sentencesOf text in
  let words := filter (fun w => len w >? 0) (split false re_whitespace (toLowerCase text)) in
  let r :=
    if negb (test false re_leading_capital (trim text))
    then Grammar.deduct 5
           (Grammar.pushSuggestion "Start sentences with capital letters"
              (Grammar.pushError "Missing capital letter at start" r))
    else r in
  let r :=
    if negb (test false re_final_punct (trim text))
    then Grammar.deduct 5
           (Grammar.pushSuggestion "End sentences with proper punctuation"
              (Grammar.pushError "Missing ending punctuation" r))
    else r in
  let r := fold_left (checkPattern text) commonErrors r in
  let avgWordsPerSentence := avgWordsPerSentence words sentences in
  let r :=
    if (avgWordsPerSentence <? 5)%num
    then Grammar.deduct 5 (Grammar.pushSuggestion "Try using longer, more complex sentences" r)
    else if (avgWordsPerSentence >? 25)%num
    then Grammar.deduct 3 (Grammar.pushSuggestion "Break down very long sentences for clarity" r)
    else r in
  let hasConjunctions := existsb (fun conj => includes (toLowerCase text) conj) conjunctions in
  let r := if hasConjunctions then Grammar.award 5 r else r in
  {| Grammar.score := Z.max 0 (Z.min 100 (Grammar.score r));
     Grammar.errors := Grammar.errors r;
     Grammar.suggestions := Grammar.suggestions r |}.

Definition academicWords : list string :=
  ["analyze"; "concept"; "theory"; "research"; "study"; "examine"; "investigate";
   "demonstrate"; "illustrate"; "significant"; "substantial"; "comprehensive";
   "methodology"; "hypothesis"; "conclusion"; "evidence"; "criteria"; "assessment"].

Definition isAcademicWord (word : string) : bool := Array_includes academicWords word.

Definition professionalWords : list string :=
  ["experience"; "responsibility"; "management"; "leadership"; "collaboration";
   "communication"; "development"; "implementation"; "strategy"; "objective";
   "achievement"; "performance"; "efficiency"; "productivity"; "innovation";
   "solution"; "challenge"; "opportunity"; "professional"; "expertise"].

Definition isProfessionalWord (word : string) : bool := Array_includes professionalWords word.

(** *** The object [wordCount] of [findWordRepetitions]

    [wordCount] is a plain object literal, so reading a key it does not own
    falls through to [Object.prototype].  A property holds a number, one of
    the prototype's functions, or the string that [function + 1] makes. *)

Inductive value : Type :=
| VNumber (n : Z)
| VFunction
| VString.

(** The function-valued properties of [Object.prototype].  Its one accessor,
    [__proto__], is left out: the words counted are runs of the letters a-z. *)
Definition Object_prototype : list string :=
  ["constructor"; "hasOwnProperty"; "isPrototypeOf"; "propertyIsEnumerable";
   "toLocaleString"; "toString"; "valueOf";
   "__defineGetter__"; "__defineSetter__"; "__lookupGetter__"; "__lookupSetter__"].

Definition object : Type := list (string * value).

Fixpoint getOwn (o : object) (key : string) : option value :=
  match o with
  | [] => None
  | (k, v) :: o' => if String.eqb k key then Some v else getOwn o' key
  end.

(** [o[key]]; [None] is [undefined]. *)
Definition get (o : object) (key : string) : option value :=
  match getOwn o key with
  | Some v => Some v
  | None => if Array_includes Object_prototype key then Some VFunction else None
  end.

(** [o[key] = v]: an existing key keeps its place, a new one goes last. *)
Fixpoint set (o : object) (key : string) (v : value) : object :=
  match o with
  | [] => [(key, v)]
  | (k, w) :: o' => if String.eqb k key then (k, v) :: o' else (k, w) :: set o' key v
  end.

Definition Object_keys (o : object) : list string := map fst o.

(** [(x || 0) + 1] *)
Definition orZeroPlusOne (x : option value) : value :=
  match x with
  | None => VNumber 1
  | Some (VNumber n) => VNumber (n + 1)
  | Some VFunction | Some VString => VString
  end.

(** [x > 2]: a string that is not a numeral converts to [NaN]. *)
Definition greaterThanTwo (x : option value) : bool :=
  match x with
  | Some (VNumber n) => n >? 2
  | _ => false
  end.

(** [scoring.ts], lines 561-570. *)
Definition findWordRepetitions (words : list string) : list string :=
  let wordCount :=
    fold_left
      (fun wordCount word =>
         if len word >? 3 then set wordCount word (orZeroPlusOne (get wordCount word))
         else wordCount)
      words [] in
  filter (fun word => greaterThanTwo (get wordCount word)) (Object_keys wordCount).

Module Vocabulary.
Record metrics : Type := {
  totalWords : Z;
  uniqueWordCount : Z;
  lexicalDiversity : number;
  avgWordLength : number;
  advancedWords : Z
}.
Record t : Type := { score : Z; metrics_of : metrics; suggestions : list string }.
End Vocabulary.

Definition orEmpty (m : option (list string)) : list string :=
  match m with Some l => l | None => [] end.

Definition isAdvancedWord (word : string) : bool :=
  (len word >=? 7) || isAcademicWord word || isProfessionalWord word.

Definition pushIf (b : bool) (x : string) (l : list string) : list string :=
  if b then (l ++ [x])%list else l.

(** The three quotients of [analyzeVocabularyFree], each over
    [Math.max(totalWords, 1)]. *)
Definition lexicalDiversity (uniqueWordCount totalWords : Z) : number :=
  (uniqueWordCount / Z.max totalWords 1)%num.

Definition avgWordLength (words : list string) (totalWords : Z) : number :=
  (fold_left (fun sum word => (sum + len word)%Z) words 0%Z / Z.max totalWords 1)%num.

Definition advancedRatio (advancedWords : list string) (totalWords : Z) : number :=
  (count advancedWords / Z.max totalWords 1)%num.

(** [scoring.ts], lines 354-415. *)
Definition analyzeVocabularyFree (text : string) : Vocabulary.t :=
  let words := orEmpty (String_match false re_lower_word (toLowerCase text)) in
  let uniqueWords := Set_of words in
  let totalWords := count words in
  let uniqueWordCount := count uniqueWords in
  let lexicalDiversity := lexicalDiversity uniqueWordCount totalWords in
  let avgWordLength := avgWordLength words totalWords in
  let advancedWords := filter isAdvancedWord words in
  let score := 60 in
  let score :=
    if (lexicalDiversity >? 0.8%Q)%num then score + 25
    else if (lexicalDiversity >? 0.6%Q)%num then score + 20
    else if (lexicalDiversity >? 0.4%Q)%num then score + 15
    else if (lexicalDiversity >? 0.2%Q)%num then score + 10
    else score in
  let score :=
    if (avgWordLength >? 6)%num then score + 15
    else if (avgWordLength >? 5)%num then score + 10
    else if (avgWordLength >? 4)%num then score + 5
    else score in
  let advancedRatio := advancedRatio advancedWords totalWords in
  let score :=
    if (advancedRatio >? 0.3%Q)%num then score + 15
    else if (advancedRatio >? 0.2%Q)%num then score + 10
    else if (advancedRatio >? 0.1%Q)%num then score + 5
    else score in
  let repetitions := findWordRepetitions words in
  let score := if count repetitions >? 0 then score - count repetitions * 3 else score in
  let suggestions :=
    pushIf (count advancedWords =? 0) "Consider using more sophisticated vocabulary"
      (pushIf (avgWordLength <? 4.5%Q)%num "Include some longer, more descriptive words"
         (pushIf (lexicalDiversity <? 0.5%Q)%num "Try using more varied vocabulary"
            (pushIf (count repetitions >? 0) "Avoid repeating the same words too often" []))) in
  {| Vocabulary.score := Z.max 0 (Z.min 100 score);
     Vocabulary.metrics_of :=
       {| Vocabulary.totalWords := totalWords;
          Vocabulary.uniqueWordCount := uniqueWordCount;
          Vocabulary.lexicalDiversity := lexicalDiversity;
          Vocabulary.avgWordLength := avgWordLength;
          Vocabulary.advancedWords := count advancedWords |};
     Vocabulary.suggestions := suggestions |}.

Definition synonymGroups : list (list string) :=
  [ ["good"; "great"; "excellent"; "wonderful"; "amazing"];
    ["work"; "job"; "career"; "profession"; "employment"];
    ["learn"; "study"; "education"; "knowledge"; "training"];
    ["help"; "assist"; "support"; "aid"];
    ["important"; "significant"; "crucial"; "essential"; "vital"];
    ["company"; "organization"; "business"; "firm"; "corporation"];
    ["skill"; "ability"; "capability"; "competence"; "expertise"];
    ["goal"; "objective"; "target"; "aim"; "purpose"] ].

(** [scoring.ts], lines 586-601. *)
Definition areSynonyms (word1 word2 : string) : bool :=
  existsb (fun group => Array_includes group word1 && Array_includes group word2) synonymGroups.

(** The test [countMatchingConcepts] applies to one expected word. *)
Definition conceptMatches (userWords : list string) (expectedWord : string) : bool :=
  existsb
    (fun userWord =>
       includes userWord expectedWord || includes expectedWord userWord
       || areSynonyms userWord expectedWord)
    userWords.

(** [scoring.ts], lines 572-584. *)
Definition countMatchingConcepts (userWords expectedWords : list string) : Z :=
  fold_left
    (fun matches expectedWord =>
       if conceptMatches userWords expectedWord then matches + 1 else matches)
    expectedWords 0.

(** [if (s)] on an optional string: [undefined] and the empty string are falsy. *)
Definition given (s : option string) : option string :=
  match s with
  | Some x => if isEmpty x then None else Some x
  | None => None
  end.

(** [scoring.ts], lines 603-642. *)
Definition analyzeCompletenessForSection (text section : string) (question : option string) : Z :=
  let words := split false re_whitespace (toLowerCase text) in
  let completeness := 60 in
  let completeness :=
    if String.eqb section "A" then
      if count words >=? 8 then completeness + 30
      else if count words >=? 5 then completeness + 20
      else if count words >=? 3 then completeness + 10
      else completeness
    else if String.eqb section "B" then
      let completeness :=
        if count words >=? 25 then completeness + 30
        else if count words >=? 15 then completeness + 20
        else if count words >=? 10 then completeness + 10
        else completeness in
      let completeness :=
        if test false (alts [lit "situation"; lit "problem"; lit "challenge"; lit "experience"]) text
        then completeness + 5 else completeness in
      if test false (alts [lit "solution"; lit "action"; lit "did"; lit "decided"; lit "resolved"]) text
      then completeness + 5 else completeness
    else if String.eqb section "G" then
      let completeness :=
        if count words >=? 50 then completeness + 30
        else if count words >=? 35 then completeness + 20
        else if count words >=? 20 then completeness + 10
        else completeness in
      let sentences := sentencesOf text in
      if count sentences >=? 4 then completeness + 10 else completeness
    else
      if count words >=? 15 then completeness + 25
      else if count words >=? 10 then completeness + 15
      else if count words >=? 5 then completeness + 10
      else completeness in
  Z.min 100 completeness.

(** [scoring.ts], lines 644-649. *)
Definition extractKeyPointsFree (sentences : list string) : list string :=
  firstn 3 (map trim (filter (fun sentence => len (trim sentence) >? 15) sentences)).

Module Content.
Record t : Type := {
  relevance : number;
  completeness : Z;
  coherence : Z;
  keyPoints : list string
}.
End Content.

Definition transitionWords : list string :=
  ["first"; "second"; "then"; "next"; "finally"; "however"; "therefore"; "because"; "although"].

(** [scoring.ts], lines 418-468. *)
Definition analyzeContentFree (text : string) (expectedAnswer question section : option string)
  : Content.t :=
  let words := split false re_whitespace (toLowerCase text) in
  let sentences := sentencesOf text in
  let relevance : number := 70 in
  let completeness := 60 in
  let coherence := 70 in
  let relevance :=
    match given expectedAnswer with
    | Some expectedAnswer =>
        let expectedWords := split false re_whitespace (toLowerCase expectedAnswer) in
        let matchingConcepts := countMatchingConcepts words expectedWords in
        Math_min 100 (50 + (matchingConcepts / count expectedWords) * 50)%num
    | None => relevance
    end in
  let completeness :=
    match given section with
    | Some section => analyzeCompletenessForSection text section question
    | None =>
        let completeness :=
          if count words >? 20 then completeness + 25
          else if count words >? 15 then completeness + 20
          else if count words >? 10 then completeness + 15
          else if count words >? 5 then completeness + 10
          else completeness in
        if count sentences >? 2 then completeness + 15 else completeness
    end in
  let hasTransitions := existsb (fun word => includes (toLowerCase text) word) transitionWords in
  let coherence := if hasTransitions then coherence + 15 else coherence in
  let hasExamples :=
    test false (alts [lit "for example"; lit "such as"; lit "like"; lit "including"]) (toLowerCase text) in
  let coherence := if hasExamples then coherence + 10 else coherence in
  let keyPoints := extractKeyPointsFree sentences in
  {| Content.relevance := Math_min 100 relevance;
     Content.completeness := Z.min 100 completeness;
     Content.coherence := Z.min 100 coherence;
     Content.keyPoints := keyPoints |}.

Module Sentiment.
Record t : Type := { sentiment : string; confidence : number; tone : string }.
End Sentiment.

Definition positiveWords : list string :=
  ["good"; "great"; "excellent"; "amazing"; "wonderful"; "fantastic"; "love"; "like"; "enjoy";
   "happy"; "excited"; "passionate"; "confident"; "successful"; "achieve"; "accomplish";
   "opportunity"; "growth"; "development"; "improvement"; "positive"; "optimistic"].

Definition negativeWords : list string :=
  ["bad"; "terrible"; "awful"; "hate"; "dislike"; "horrible"; "worst"; "difficult"; "problem";
   "challenge"; "struggle"; "fail"; "failure"; "disappointed"; "frustrated"; "worried";
   "concerned"; "negative"; "pessimistic"; "unfortunate"; "regret"].

(** [scoring.ts], lines 471-503. *)
Definition analyzeSentimentFree (text : string) : Sentiment.t :=
  let words := split false re_whitespace (toLowerCase text) in
  let positiveCount := count (filter (Array_includes positiveWords) words) in
  let negativeCount := count (filter (Array_includes negativeWords) words) in
  if positiveCount >? negativeCount then
    {| Sentiment.sentiment := "positive";
       Sentiment.confidence :=
         Math_min 0.9%Q (0.5%Q + (positiveCount - negativeCount)%Z / count words * 2)%num;
       Sentiment.tone := if positiveCount >? negativeCount * 2 then "enthusiastic" else "positive" |}
  else if negativeCount >? positiveCount then
    {| Sentiment.sentiment := "negative";
       Sentiment.confidence :=
         Math_min 0.9%Q (0.5%Q + (negativeCount - positiveCount)%Z / count words * 2)%num;
       Sentiment.tone := if negativeCount >? positiveCount * 2 then "pessimistic" else "cautious" |}
  else
    {| Sentiment.sentiment := "neutral"; Sentiment.confidence := 0.5%Q; Sentiment.tone := "neutral" |}.

Module TextAnalysis.
Record t : Type := {
  grammar : Grammar.t;
  vocabulary : Vocabulary.t;
  content : Content.t;
  sentiment : Sentiment.t
}.
End TextAnalysis.

(** An [async] function whose body cannot throw: its promise is fulfilled. *)
Definition intelligentTextAnalysis (text : string) (expectedAnswer question section : option string)
  : outcome TextAnalysis.t :=
  let grammar := analyzeGrammarFree text in
  let vocabulary := analyzeVocabularyFree text in
  let content := analyzeContentFree text expectedAnswer question section in
  let sentiment := analyzeSentimentFree text in
  Return {| TextAnalysis.grammar := grammar;
            TextAnalysis.vocabulary := vocabulary;
            TextAnalysis.content := content;
            TextAnalysis.sentiment := sentiment |}.

Definition enhancedGrammarScore (text : string) : Z :=
  Grammar.score (analyzeGrammarFree text).

Definition enhancedVocabularyScore (text : string) : Z :=
  Vocabulary.score (analyzeVocabularyFree text).

Definition enhancedComprehensionScore (text : string) (expectedAnswer : option string) : number :=
  Content.relevance (analyzeContentFree text expectedAnswer None None).

(** [scoring.ts], lines 773-792. *)
Definition estimatePronunciationFromText (text : string) : Z :=
  let words := split false re_whitespace text in
  let score := 75 in
  let score :=
    if count words >? 15 then score + 10
    else if count words >? 10 then score + 5
    else score in
  let complexWords := filter (fun word => len word >? 6) words in
  let score := if count complexWords >? 0 then score + 5 else score in
  let professionalWords :=
    filter (fun word => isProfessionalWord (toLowerCase word) || isAcademicWord (toLowerCase word))
           words in
  let score := if count professionalWords >? 0 then score + 5 else score in
  Z.min 100 score.

(** [/\b(um|uh|like|you know|basically|actually|sort of|kind of)\b/gi] *)
Definition re_fillers : regex :=
  wordBounded
    (alts [lit "um"; lit "uh"; lit "like"; lit "you know"; lit "basically"; lit "actually";
           lit "sort of"; lit "kind of"]).

(** [/\b(and|but|because|although|however|therefore|moreover|furthermore|while|since)\b/gi] *)
Definition re_conjunctions : regex :=
  wordBounded
    (alts [lit "and"; lit "but"; lit "because"; lit "although"; lit "however"; lit "therefore";
           lit "moreover"; lit "furthermore"; lit "while"; lit "since"]).

(** [scoring.ts], lines 794-825. *)
Definition estimateFluencyFromText (text : string) : Z :=
  let words := split false re_whitespace text in
  let sentences := sentencesOf text in
  let score := 70 in
  let score :=
    if count words >? 20 then score + 15
    else if count words >? 15 then score + 10
    else if count words >? 10 then score + 5
    else score in
  let score :=
    match String_match true re_fillers text with
    | Some fillerMatches => score - count fillerMatches * 3
    | None => score
    end in
  let avgWordsPerSentence := (count words / Z.max (count sentences) 1)%num in
  let score :=
    if (avgWordsPerSentence >? 12)%num then score + 10
    else if (avgWordsPerSentence >? 8)%num then score + 5
    else score in
  let score :=
    match String_match true re_conjunctions text with
    | Some conjunctionMatches =>
        if count conjunctionMatches >? 0
        then score + Z.min 10 (count conjunctionMatches * 2)
        else score
    | None => score
    end in
  Z.min 100 (Z.max 40 score).

(** [scoring.ts], lines 716-738. *)
Definition calculateFluencyFromRate (speakingRate pauseRatio : number) : Z :=
  let fluency :=
    if (speakingRate >=? 140)%num && (speakingRate <=? 180)%num then 90
    else if (speakingRate >=? 120)%num && (speakingRate <=? 200)%num then 80
    else if (speakingRate >=? 100)%num && (speakingRate <=? 220)%num then 70
    else 60 in
  let fluency :=
    if (pauseRatio >? 0.1%Q)%num && (pauseRatio <? 0.3%Q)%num then fluency + 5
    else if (pauseRatio >? 0.4%Q)%num then fluency - 10
    else fluency in
  Z.min 100 fluency.

(** ** Audio analysis *)

(** Modelled from the Web Audio API: an [AudioBuffer] as far as the module
    reads it, namely the samples of channel 0 (finite 32-bit floats, so
    rationals) and the sample rate ([decodeAudioData] resamples to the rate
    of the [AudioContext], 8000 samples a second at least); [duration] is
    [length / sampleRate]. *)
Record AudioBuffer : Type := { channelData : list Q; sampleRate : Q }.

Definition duration (audioBuffer : AudioBuffer) : number :=
  (count (channelData audioBuffer) / Fin (sampleRate audioBuffer))%num.

(** A [Blob] is what [decodeAudioData] makes of it: [None] when decoding is
    rejected. *)
Definition Blob : Type := option AudioBuffer.

Definition blobToAudioBuffer (blob : Blob) : outcome AudioBuffer :=
  match blob with
  | Some audioBuffer => Return audioBuffer
  | None => Throw
  end.

(** [samples.slice(i, j)] for [0 <= i <= j]. *)
Definition slice (samples : list Q) (i j : Z) : list Q :=
  firstn (Z.to_nat (j - i)) (skipn (Z.to_nat i) samples).

(** The square of [calculateRMS(samples)], which is that value's square
    root.  The two uses in [estimateWordCount] compare the root with a
    positive constant; they are modelled as comparisons of the square with
    the constant's square. *)
Definition calculateRMS_squared (samples : list Q) : number :=
  (Fin (fold_left (fun acc sample => acc + sample * sample)%Q samples 0%Q) / count samples)%num.

Fixpoint estimateWordCount_loop (fuel : nat) (channelData : list Q) (windowSize : Z)
         (i wordBoundaries : Z) : outcome Z :=
  match fuel with
  | O => Diverge
  | S fuel =>
      if i <? count channelData - windowSize then
        let currentEnergy := calculateRMS_squared (slice channelData i (i + windowSize)) in
        let nextEnergy :=
          calculateRMS_squared (slice channelData (i + windowSize) (i + windowSize * 2)) in
        let wordBoundaries :=
          if (currentEnergy >? 0.0004%Q)%num && (nextEnergy <? 0.0001%Q)%num
          then wordBoundaries + 1 else wordBoundaries in
        estimateWordCount_loop fuel channelData windowSize (i + windowSize) wordBoundaries
      else Return wordBoundaries
  end.

(** [scoring.ts], lines 651-667. *)
Definition estimateWordCount (fuel : nat) (channelData : list Q) (sampleRate : Q) : outcome Z :=
  let windowSize := Qfloor (sampleRate * 0.1) in
  wordBoundaries <- estimateWordCount_loop fuel channelData windowSize 0 0 ;;
  Return (Z.max 1 wordBoundaries).

(** An array holds at most [2^32 - 1] elements: [push] on a full one throws
    a RangeError (an engine that cannot grow the array throws earlier). *)
Definition maxArrayLength : Z := 4294967295.

Definition push {A : Type} (array : list A) (x : A) : outcome (list A) :=
  if count array <? maxArrayLength then Return (array ++ [x])%list else Throw.

Fixpoint calculateVolumeVariation_loop (fuel : nat) (channelData : list Q) (windowSize : Z)
         (i : Z) (volumes : list number) : outcome (list number) :=
  match fuel with
  | O => Diverge
  | S fuel =>
      if i <? count channelData then
        let window := slice channelData i (i + windowSize) in
        volumes <- push volumes (calculateRMS_squared window) ;;
        calculateVolumeVariation_loop fuel channelData windowSize (i + windowSize) volumes
      else Return volumes
  end.

(** The loop of [calculateVolumeVariation]; on fewer than 20 samples its
    stride is 0 and it pushes until the array is full.  What the function
    returns is the standard deviation of the square roots of these values;
    no scorer reads it and it is left out. *)
Definition calculateVolumeVariation (fuel : nat) (channelData : list Q) : outcome (list number) :=
  let windowSize := count channelData / 20 in
  calculateVolumeVariation_loop fuel channelData windowSize 0 [].

Fixpoint performBasicFFTAnalysis_loop (rest : list Q) (i length : Z) (sampleRate : Q)
         (highFreqEnergy totalEnergy : Q) : Q * Q :=
  match rest with
  | [] => (highFreqEnergy, totalEnergy)
  | sample :: rest =>
      let energy := (sample * sample)%Q in
      let totalEnergy := (totalEnergy + energy)%Q in
      let freq := (i / length * (Fin sampleRate / 2))%num in
      let highFreqEnergy :=
        if (freq >? 2000)%num && (freq <? 8000)%num then (highFreqEnergy + energy)%Q
        else highFreqEnergy in
      performBasicFFTAnalysis_loop rest (i + 1) length sampleRate highFreqEnergy totalEnergy
  end.

(** [scoring.ts], lines 696-714. *)
Definition performBasicFFTAnalysis (signal : list Q) (sampleRate : Q) : number :=
  let '(highFreqEnergy, totalEnergy) :=
    performBasicFFTAnalysis_loop signal 0 (count signal) sampleRate 0%Q 0%Q in
  let clarityRatio : number :=
    if (Fin totalEnergy >? 0)%num then (Fin highFreqEnergy / Fin totalEnergy)%num else 0 in
  (60 + clarityRatio * 40)%num.

(** [scoring.ts], lines 689-694. *)
Definition estimateClarity (channelData : list Q) (sampleRate : Q) : number :=
  let fftSize := 2048 in
  let clarity := performBasicFFTAnalysis (slice channelData 0 fftSize) sampleRate in
  Math_min 100 (Math_max 50 clarity).

Record AudioMetrics : Type := {
  speakingRate : number;
  pauseRatio : number;
  volumes : list number;
  clarity : number;
  metrics_duration : number
}.

(** [scoring.ts], lines 512-539. *)
Definition extractAudioMetrics (fuel : nat) (audioBuffer : AudioBuffer) : outcome AudioMetrics :=
  let channelData := channelData audioBuffer in
  let sampleRate := sampleRate audioBuffer in
  let duration := duration audioBuffer in
  estimatedWords <- estimateWordCount fuel channelData sampleRate ;;
  let speakingRate := (estimatedWords / duration * 60)%num in
  let silenceThreshold := 0.01%Q in
  let silentSamples :=
    count (filter (fun sample => negb (Qle_bool silenceThreshold (Qabs sample))) channelData) in
  let pauseRatio := (silentSamples / count channelData)%num in
  volumes <- calculateVolumeVariation fuel channelData ;;
  let clarity := estimateClarity channelData sampleRate in
  Return {| speakingRate := speakingRate;
            pauseRatio := pauseRatio;
            volumes := volumes;
            clarity := clarity;
            metrics_duration := duration |}.

(** [null] when decoding or the analysis throws. *)
Definition freeAudioAnalysis (fuel : nat) (audioBlob : Blob) : outcome (option AudioMetrics) :=
  try_catch
    (audioBuffer <- blobToAudioBuffer audioBlob ;;
     metrics <- extractAudioMetrics fuel audioBuffer ;;
     Return (Some metrics))
    (Return None).

(** ** The combiner and the entry point *)

(** [x || y], where [x] may be [undefined]. *)
Definition orElse (x : option number) (y : number) : number :=
  match x with
  | Some v => if truthy v then v else y
  | None => y
  end.

(** [scoring.ts], lines 124-159. *)
Definition combineIntelligentResults
           (textResult : option TextAnalysis.t) (audioResult : option AudioMetrics)
           (userResponse : string) (expectedAnswer : option string) : ScoringParameters :=
  let grammar :=
    orElse (option_map (fun t => ofZ (Grammar.score (TextAnalysis.grammar t))) textResult)
           (enhancedGrammarScore userResponse) in
  let vocabulary :=
    orElse (option_map (fun t => ofZ (Vocabulary.score (TextAnalysis.vocabulary t))) textResult)
           (enhancedVocabularyScore userResponse) in
  let comprehension :=
    orElse (option_map (fun t => Content.relevance (TextAnalysis.content t)) textResult)
           (enhancedComprehensionScore userResponse expectedAnswer) in
  let pronunciation : number :=
    match audioResult with
    | Some a => if truthy (clarity a) then clarity a
                else estimatePronunciationFromText userResponse
    | None => estimatePronunciationFromText userResponse
    end in
  let fluency : number :=
    match audioResult with
    | Some a => if truthy (speakingRate a)
                then calculateFluencyFromRate (speakingRate a) (pauseRatio a)
                else estimateFluencyFromText userResponse
    | None => estimateFluencyFromText userResponse
    end in
  {| fluency := Math_round fluency;
     pronunciation := Math_round pronunciation;
     grammar := Math_round grammar;
     vocabulary := Math_round vocabulary;
     comprehension := Math_round comprehension |}.

(** What the promise of [assessResponse] is fulfilled with.  The [catch] arm
    hands back the object of [enhancedFallbackAssessment], three of whose
    fields are promises and not numbers (the source casts it with [as any]). *)
Inductive Assessment : Type :=
| Numbers (parameters : ScoringParameters)
| Promises (fluency pronunciation : number) (grammar vocabulary comprehension : outcome number).

(** [promise.then(f).catch(g)] *)
Definition then_catch {A B : Type} (promise : outcome A) (f : A -> B) (g : B) : outcome B :=
  try_catch (x <- promise ;; Return (f x)) (Return g).

(** [scoring.ts], lines 741-756. *)
Definition enhancedFallbackAssessment (userResponse : string)
           (expectedAnswer question section : option string) : Assessment :=
  let textAnalysis := intelligentTextAnalysis userResponse expectedAnswer question section in
  Promises
    (estimateFluencyFromText userResponse)
    (estimatePronunciationFromText userResponse)
    (then_catch textAnalysis
       (fun result => ofZ (Grammar.score (TextAnalysis.grammar result)))
       (ofZ (enhancedGrammarScore userResponse)))
    (then_catch textAnalysis
       (fun result => ofZ (Vocabulary.score (TextAnalysis.vocabulary result)))
       (ofZ (enhancedVocabularyScore userResponse)))
    (then_catch textAnalysis
       (fun result => Content.relevance (TextAnalysis.content result))
       (enhancedComprehensionScore userResponse expectedAnswer)).

(** One entry of [Promise.allSettled]. *)
Inductive settled (A : Type) : Type :=
| Fulfilled (value : A)
| Rejected.

Arguments Fulfilled {A} value.
Arguments Rejected {A}.

Definition settle {A : Type} (promise : outcome A) : outcome (settled A) :=
  match promise with
  | Return a => Return (Fulfilled a)
  | Throw => Return Rejected
  | Diverge => Diverge
  end.

(** [scoring.ts], lines 73-95. *)
Definition assessResponse (fuel : nat) (section userResponse : string) (audioBlob : option Blob)
           (expectedAnswer question : option string) : outcome Assessment :=
  try_catch
    (textAnalysis <-
       settle (intelligentTextAnalysis userResponse expectedAnswer question (Some section)) ;;
     audioAnalysis <-
       settle (match audioBlob with
               | Some audioBlob => freeAudioAnalysis fuel audioBlob
               | None => Return None
               end) ;;
     let textResult := match textAnalysis with Fulfilled value => Some value | Rejected => None end in
     let audioResult := match audioAnalysis with Fulfilled value => value | Rejected => None end in
     Return (Numbers (combineIntelligentResults textResult audioResult userResponse expectedAnswer)))
    (Return (enhancedFallbackAssessment userResponse expectedAnswer question (Some section))).

(** ** The simulated assessment

    [fallbackAssessment] and the five [fallback...Score] functions are left
    in the module, where nothing calls them.  [fallbackAssessment] repeats
    the synchronous [assessResponse] of the module's first version (the
    second text of [scoring.ts], lines 896-955), which the first version of
    the test page calls. *)

(** [/um|uh|like|you know|basically|actually|sort of|kind of/] *)
Definition re_filler_substrings : regex :=
  alts [lit "um"; lit "uh"; lit "like"; lit "you know"; lit "basically"; lit "actually";
        lit "sort of"; lit "kind of"].

(** [/and|but|because|however|therefore|moreover/] *)
Definition re_conjunction_substrings : regex :=
  alts [lit "and"; lit "but"; lit "because"; lit "however"; lit "therefore"; lit "moreover"].

(** The condition
    [expectedAnswer && userResponse.toLowerCase().includes(expectedAnswer.toLowerCase())]. *)
Definition includesExpected (userResponse : string) (expectedAnswer : option string) : bool :=
  match given expectedAnswer with
  | Some expectedAnswer => includes (toLowerCase userResponse) (toLowerCase expectedAnswer)
  | None => false
  end.

(** [scoring.ts], lines 161-207. *)
Definition fallbackAssessment (userResponse : string) (expectedAnswer : option string)
  : ScoringParameters :=
  let responseLength := count (String_split " " userResponse) in
  let hasFillerWords := test false re_filler_substrings (toLowerCase userResponse) in
  let hasPunctuation := test false (Cls isSentenceEnd) userResponse in
  let hasConjunctions := test false re_conjunction_substrings (toLowerCase userResponse) in
  let fluency := 65 in
  let fluency :=
    if responseLength >? 15 then fluency + 20
    else if responseLength >? 10 then fluency + 15
    else if responseLength >? 5 then fluency + 10
    else fluency in
  let fluency := if negb hasFillerWords then fluency + 10 else fluency in
  let fluency := if hasConjunctions then fluency + 5 else fluency in
  let fluency := Z.min 100 fluency in
  let pronunciation := 70 in
  let pronunciation := if responseLength >? 10 then pronunciation + 15 else pronunciation in
  let pronunciation := if hasPunctuation then pronunciation + 5 else pronunciation in
  let pronunciation := Z.min 100 pronunciation in
  let grammar := 65 in
  let grammar := if hasPunctuation then grammar + 15 else grammar in
  let grammar := if hasConjunctions then grammar + 10 else grammar in
  let grammar := if includesExpected userResponse expectedAnswer then grammar + 10 else grammar in
  let grammar := Z.min 100 grammar in
  let uniqueWords := count (Set_of (String_split " " (toLowerCase userResponse))) in
  let avgWordLength :=
    (fold_left (fun sum word => (sum + len word)%Z) (String_split " " userResponse) 0%Z
     / responseLength)%num in
  let vocabulary := 60 in
  let vocabulary :=
    if uniqueWords >? 10 then vocabulary + 20
    else if uniqueWords >? 5 then vocabulary + 15
    else vocabulary in
  let vocabulary := if (avgWordLength >? 5)%num then vocabulary + 10 else vocabulary in
  let vocabulary := Z.min 100 vocabulary in
  let comprehension := 65 in
  let comprehension :=
    if responseLength >? 12 then comprehension + 20
    else if responseLength >? 8 then comprehension + 15
    else comprehension in
  let comprehension :=
    if includesExpected userResponse expectedAnswer then comprehension + 15 else comprehension in
  let comprehension := if hasConjunctions then comprehension + 5 else comprehension in
  let comprehension := Z.min 100 comprehension in
  {| fluency := fluency;
     pronunciation := pronunciation;
     grammar := grammar;
     vocabulary := vocabulary;
     comprehension := comprehension |}.

(** [scoring.ts], lines 209-220. *)
Definition fallbackGrammarScore (text : string) : Z :=
  let sentences := sentencesOf text in
  let words := split false re_whitespace text in
  let score := 70 in
  let score := if count sentences >? 1 then score + 10 else score in
  let score := if count words >? 10 then score + 10 else score in
  let score := if test false re_leading_capital text then score + 5 else score in
  let score := if test false re_final_punct (trim text) then score + 5 else score in
  Z.min 100 score.

(** [scoring.ts], lines 222-233. *)
Definition fallbackVocabularyScore (text : string) : Z :=
  let words := split false re_whitespace (toLowerCase text) in
  let uniqueWords := count (Set_of words) in
  let avgWordLength :=
    (fold_left (fun sum word => (sum + len word)%Z) words 0%Z / count words)%num in
  let score := 60 in
  let score := if (uniqueWords / count words >? 0.7%Q)%num then score + 20 else score in
  let score := if (avgWordLength >? 5)%num then score + 15 else score in
  let score := if existsb (fun word => len word >? 7) words then score + 5 else score in
  Z.min 100 score.

(** [scoring.ts], lines 235-244. *)
Definition fallbackPronunciationScore (text : string) : Z :=
  let words := split false re_whitespace text in
  let score := 75 in
  let score := if count words >? 10 then score + 10 else score in
  let score := if existsb (fun word => len word >? 6) words then score + 5 else score in
  Z.min 100 score.

(** [scoring.ts], lines 246-256. *)
Definition fallbackFluencyScore (text : string) : Z :=
  let words := split false re_whitespace text in
  let hasFillers :=
    test false (alts [lit "um"; lit "uh"; lit "like"; lit "you know"]) (toLowerCase text) in
  let score := 70 in
  let score := if count words >? 15 then score + 15 else score in
  let score := if negb hasFillers then score + 10 else score in
  let score :=
    if test false (alts [lit "and"; lit "but"; lit "because"; lit "however"]) (toLowerCase text)
    then score + 5 else score in
  Z.min 100 score.

(** [scoring.ts], lines 258-268. *)
Definition fallbackComprehensionScore (text : string) : Z :=
  let words := split false re_whitespace text in
  let sentences := sentencesOf text in
  let score := 65 in
  let score := if count words >? 12 then score + 20 else score in
  let score := if count sentences >? 2 then score + 10 else score in
  let score :=
    if test false (alts [lit "because"; lit "therefore"; lit "however"]) (toLowerCase text)
    then score + 5 else score in
  Z.min 100 score.

(** ** The callers: the test page and the results page *)

(** A recorded answer, as the two versions of the test page keep it
    ([timestamp], which nothing reads, is left out). *)
Module TestResponse.
Record t : Type := {
  section : string;
  questionIndex : nat;
  audioBlob : Blob;
  userResponse : string
}.
End TestResponse.

Module Question.
Record t : Type := { text : string; expectedAnswer : option string }.
End Question.

Module QuestionSet.
Record t : Type := { name : string; questions : list Question.t }.
End QuestionSet.

Definition sections : list string := ["A"; "B"; "C"; "D"; "E"; "F"; "G"].

(** [responsesBySection[section]] after the responses have been pushed. *)
Definition responsesBySection (responses : list TestResponse.t) (section : string)
  : list TestResponse.t :=
  filter (fun response => String.eqb (TestResponse.section response) section) responses.

(** [responsesBySection[response.section].push(response)] throws for a
    section that is not one of the seven keys. *)
Definition knownSections (responses : list TestResponse.t) : bool :=
  forallb (fun response => Array_includes sections (TestResponse.section response)) responses.

(** The initial [avgParameters], its five [+=] and its five [/=]. *)
Definition zeroParameters : ScoringParameters :=
  {| fluency := 0; pronunciation := 0; grammar := 0; vocabulary := 0; comprehension := 0 |}.

Definition addParameters (avgParameters params : ScoringParameters) : ScoringParameters :=
  {| fluency := (fluency avgParameters + fluency params)%num;
     pronunciation := (pronunciation avgParameters + pronunciation params)%num;
     grammar := (grammar avgParameters + grammar params)%num;
     vocabulary := (vocabulary avgParameters + vocabulary params)%num;
     comprehension := (comprehension avgParameters + comprehension params)%num |}.

Definition divideParameters (avgParameters : ScoringParameters) (n : Z) : ScoringParameters :=
  {| fluency := (fluency avgParameters / n)%num;
     pronunciation := (pronunciation avgParameters / n)%num;
     grammar := (grammar avgParameters / n)%num;
     vocabulary := (vocabulary avgParameters / n)%num;
     comprehension := (comprehension avgParameters / n)%num |}.

(** The first version of the module and of the test page. *)
Module Legacy.

(** [scoring.ts], lines 896-955. *)
Definition assessResponse (section userResponse : string) (expectedAnswer : option string)
  : ScoringParameters :=
  let responseLength := count (String_split " " userResponse) in
  let hasFillerWords := test false re_filler_substrings (toLowerCase userResponse) in
  let hasPunctuation := test false (Cls isSentenceEnd) userResponse in
  let hasConjunctions := test false re_conjunction_substrings (toLowerCase userResponse) in
  let fluency := 65 in
  let fluency :=
    if responseLength >? 15 then fluency + 20
    else if responseLength >? 10 then fluency + 15
    else if responseLength >? 5 then fluency + 10
    else fluency in
  let fluency := if negb hasFillerWords then fluency + 10 else fluency in
  let fluency := if hasConjunctions then fluency + 5 else fluency in
  let fluency := Z.min 100 fluency in
  let pronunciation := 70 in
  let pronunciation := if responseLength >? 10 then pronunciation + 15 else pronunciation in
  let pronunciation := if hasPunctuation then pronunciation + 5 else pronunciation in
  let pronunciation := Z.min 100 pronunciation in
  let grammar := 65 in
  let grammar := if hasPunctuation then grammar + 15 else grammar in
  let grammar := if hasConjunctions then grammar + 10 else grammar in
  let grammar := if includesExpected userResponse expectedAnswer then grammar + 10 else grammar in
  let grammar := Z.min 100 grammar in
  let uniqueWords := count (Set_of (String_split " " (toLowerCase userResponse))) in
  let avgWordLength :=
    (fold_left (fun sum word => (sum + len word)%Z) (String_split " " userResponse) 0%Z
     / responseLength)%num in
  let vocabulary := 60 in
  let vocabulary :=
    if uniqueWords >? 10 then vocabulary + 20
    else if uniqueWords >? 5 then vocabulary + 15
    else vocabulary in
  let vocabulary := if (avgWordLength >? 5)%num then vocabulary + 10 else vocabulary in
  let vocabulary := Z.min 100 vocabulary in
  let comprehension := 65 in
  let comprehension :=
    if responseLength >? 12 then comprehension + 20
    else if responseLength >? 8 then comprehension + 15
    else comprehension in
  let comprehension :=
    if includesExpected userResponse expectedAnswer then comprehension + 15 else comprehension in
  let comprehension := if hasConjunctions then comprehension + 5 else comprehension in
  let comprehension := Z.min 100 comprehension in
  {| fluency := fluency;
     pronunciation := pronunciation;
     grammar := grammar;
     vocabulary := vocabulary;
     comprehension := comprehension |}.

(** The body of [sections.forEach] in [saveTestSession], for a section that
    has responses: [unnamed/part_005], lines 185-219. *)
Definition scoreSection (section : string) (sectionResponses : list TestResponse.t)
  : SectionScore :=
  let avgParameters :=
    fold_left
      (fun avgParameters response =>
         let params := assessResponse section (TestResponse.userResponse response) None in
         addParameters avgParameters params)
      sectionResponses zeroParameters in
  let avgParameters := divideParameters avgParameters (count sectionResponses) in
  let score := calculateSectionScore avgParameters in
  {| section := section;
     score := score;
     parameters := avgParameters;
     feedback := "Section " ++ section ++ " performance" |}.

Definition sectionScoresOf (responses : list TestResponse.t) : list SectionScore :=
  flat_map
    (fun section =>
       let sectionResponses := responsesBySection responses section in
       if count sectionResponses >? 0 then [scoreSection section sectionResponses] else [])
    sections.

(** [saveTestSession] up to the session it stores: its [totalScore] and its
    [sectionScores].  [unnamed/part_005], lines 166-238. *)
Definition saveTestSession (responses : list TestResponse.t)
  : outcome (number * list SectionScore) :=
  if knownSections responses then
    let sectionScores := sectionScoresOf responses in
    let overallScore := calculateOverallScore sectionScores in
    Return (overallScore, sectionScores)
  else Throw.

End Legacy.

(** What the sums of [saveTestSession] make of the value [assessResponse] is
    fulfilled with.  Adding a promise to a number makes a string, and the
    division by the number of responses turns that string into [NaN]; the
    three promise-valued fields are therefore taken as [NaN] from the start. *)
Definition parametersOf (assessment : Assessment) : ScoringParameters :=
  match assessment with
  | Numbers parameters => parameters
  | Promises fluency pronunciation _ _ _ =>
      {| fluency := fluency; pronunciation := pronunciation;
         grammar := NaN; vocabulary := NaN; comprehension := NaN |}
  end.

(** [question?.expectedAnswer] and [question?.text] for
    [sectionQuestionSet?.questions[response.questionIndex]]. *)
Definition questionOf (sectionQuestionSet : option QuestionSet.t) (response : TestResponse.t)
  : option Question.t :=
  match sectionQuestionSet with
  | Some set => nth_error (QuestionSet.questions set) (TestResponse.questionIndex response)
  | None => None
  end.

(** The loop over the responses of one section:
    [app/test/communication/page.tsx], lines 205-222. *)
Fixpoint assessSection (fuel : nat) (questionSets : string -> option QuestionSet.t)
         (section : string) (sectionResponses : list TestResponse.t)
         (avgParameters : ScoringParameters) : outcome ScoringParameters :=
  match sectionResponses with
  | [] => Return avgParameters
  | response :: sectionResponses =>
      let sectionQuestionSet := questionSets section in
      let question := questionOf sectionQuestionSet response in
      params <-
        assessResponse fuel section (TestResponse.userResponse response)
          (Some (TestResponse.audioBlob response))
          (match question with Some q => Question.expectedAnswer q | None => None end)
          (option_map Question.text question) ;;
      assessSection fuel questionSets section sectionResponses
        (addParameters avgParameters (parametersOf params))
  end.

(** The averaged parameters of a section and its score:
    [app/test/communication/page.tsx], lines 196-230. *)
Definition scoreSection (fuel : nat) (questionSets : string -> option QuestionSet.t)
           (section : string) (sectionResponses : list TestResponse.t)
  : outcome (number * ScoringParameters) :=
  avgParameters <- assessSection fuel questionSets section sectionResponses zeroParameters ;;
  let avgParameters := divideParameters avgParameters (count sectionResponses) in
  let score := calculateSectionScore avgParameters in
  Return (score, avgParameters).

(** The loop over the sections.  For a section that has responses, the
    record pushed on [sectionScores] is built from a template that reads
    [sectionQuestionSet], a [const] of the block of the inner loop: outside
    that block the name is not bound, and reading it is a [ReferenceError]. *)
Fixpoint scoreSections (fuel : nat) (questionSets : string -> option QuestionSet.t)
         (responses : list TestResponse.t) (sections : list string)
         (sectionScores : list SectionScore) : outcome (list SectionScore) :=
  match sections with
  | [] => Return sectionScores
  | section :: sections =>
      let sectionResponses := responsesBySection responses section in
      if count sectionResponses >? 0 then
        _ <- scoreSection fuel questionSets section sectionResponses ;;
        Throw
      else scoreSections fuel questionSets responses sections sectionScores
  end.

(** [saveTestSession] up to the session it stores: its [totalScore] and its
    [sectionScores].  [app/test/communication/page.tsx], lines 174-268. *)
Definition saveTestSession (fuel : nat) (questionSets : string -> option QuestionSet.t)
           (responses : list TestResponse.t) : outcome (number * list SectionScore) :=
  if knownSections responses then
    sectionScores <- scoreSections fuel questionSets responses sections [] ;;
    let overallScore := calculateOverallScore sectionScores in
    Return (overallScore, sectionScores)
  else Throw.

(** The results page: [unnamed/part_006], lines 35-49. *)
Definition getScoreColor (score : number) : string :=
  if (score >=? 85)%num then "text-green-600"
  else if (score >=? 75)%num then "text-blue-600"
  else if (score >=? 65)%num then "text-yellow-600"
  else if (score >=? 55)%num then "text-orange-600"
  else "text-red-600".

Definition getProgressColor (score : number) : string :=
  if (score >=? 85)%num then "bg-green-600"
  else if (score >=? 75)%num then "bg-blue-600"
  else if (score >=? 65)%num then "bg-yellow-600"
  else if (score >=? 55)%num then "bg-orange-600"
  else "bg-red-600".

(** * Vocabulary of the specification

    The notions the statements below are written in: what the specification
    calls a hint token, a matched token, a repeated word and so on, and the
    scores its tables give. *)

(** ** Numbers *)


(** [z] is [x] rounded to the nearest integer, halves going up. *)
Definition nearest (z : Z) (x : Q) : Prop :=
  (inject_Z z - (1 # 2) <= x /\ x < inject_Z z + (1 # 2))%Q.

(** ** Levels and feedback *)

(** The sentence [getScoreFeedback] attaches to each level. *)
Definition feedbackOfLevel (level : string) : string :=
  if String.eqb level "Excellent"
  then "Excellent performance! You are very well-prepared for the placement test."
  else if String.eqb level "Very Good"
  then "Very good! Your communication skills are strong. Keep practicing to reach excellence."
  else if String.eqb level "Good"
  then "Good effort! You have solid fundamentals. Focus on improving weak areas."
  else if String.eqb level "Fair"
  then "Fair performance. Dedicate more time to practice and improvement."
  else "Keep practicing! Focus on all areas of communication skills.".

(** ** Doubles *)

(** A double with a 53-bit significand and an exponent not above 0. *)
Definition representable (q : Q) : Prop :=
  exists z j, Z.abs z < 2 ^ 53 /\ -1074 <= j <= 0 /\ (q == inject_Z z * pow2 j)%Q.

(** [a <= b], neither being [NaN]. *)
Definition ordered (a b : number) : Prop := (a <=? b)%num = true.

(** ** Section and overall scores *)

Definition valueOf (a : number) : Q := match a with Fin q => q | _ => 0%Q end.

(** The arithmetic mean of the five dimension scores. *)
Definition meanOfParameters (parameters : ScoringParameters) : Q :=
  ((valueOf (fluency parameters) + valueOf (pronunciation parameters)
    + valueOf (grammar parameters) + valueOf (vocabulary parameters)
    + valueOf (comprehension parameters)) / 5)%Q.

(** What the test page hands to [calculateSectionScore] for a section of six
    answers whose dimension scores add up to 301, 369, 363, 561 and 341:
    [sum / responses.length] for each dimension. *)
Definition averagesOfSix : ScoringParameters :=
  {| fluency := divided 301 6; pronunciation := divided 369 6; grammar := divided 363 6;
     vocabulary := divided 561 6; comprehension := divided 341 6 |}.

Definition scoreValue (section : SectionScore) : Q :=
  match score section with Fin q => q | _ => 0%Q end.

Definition sumOfScores (sectionScores : list SectionScore) : Q :=
  fold_right (fun section sum => scoreValue section + sum)%Q 0%Q sectionScores.

Definition twoSections : list SectionScore :=
  [ {| section := "A"; score := 80; feedback := EmptyString;
       parameters := {| fluency := 80; pronunciation := 80; grammar := 80;
                        vocabulary := 80; comprehension := 80 |} |};
    {| section := "B"; score := 71; feedback := EmptyString;
       parameters := {| fluency := 71; pronunciation := 71; grammar := 71;
                        vocabulary := 71; comprehension := 71 |} |} ].

(** ** Fluency from the speaking rate *)

(** The fluency as the sentence of the specification reads, every range
    taken with its bounds: 140-180, 120-200, 100-220 for the rate and 0.1-0.3
    for the pause ratio. *)
Definition fluency_as_stated (rate pause : Q) : Z :=
  let base :=
    if Qle_bool 140 rate && Qle_bool rate 180 then 90
    else if Qle_bool 120 rate && Qle_bool rate 200 then 80
    else if Qle_bool 100 rate && Qle_bool rate 220 then 70
    else 60 in
  let adjusted :=
    if Qle_bool 0.1 pause && Qle_bool pause 0.3 then base + 5
    else if negb (Qle_bool pause 0.4) then base - 10
    else base in
  Z.min 100 adjusted.

(** ** Words and sentences *)

Fixpoint whitespaceOnly (s : string) : bool :=
  match s with
  | EmptyString => true
  | String c s' => isWhiteSpace c && whitespaceOnly s'
  end.

Definition nonEmpty (w : string) : bool := negb (isEmpty w).

(** The pieces of [s] between separators: its maximal runs of characters
    that are not separators, [current] being the run under way. *)
Fixpoint runsFrom (separator : ascii -> bool) (current s : string) : list string :=
  match s with
  | EmptyString => if isEmpty current then [] else [current]
  | String c s' =>
      if separator c
      then (if isEmpty current then runsFrom separator EmptyString s'
            else current :: runsFrom separator EmptyString s')
      else runsFrom separator (current ++ String c EmptyString) s'
  end.

Definition runs (separator : ascii -> bool) (s : string) : list string :=
  runsFrom separator EmptyString s.

(** The words of a text: its runs of characters other than white space, in
    lower case. *)
Definition wordsOf (text : string) : list string := runs isWhiteSpace (toLowerCase text).

(** The sentences of a text: its runs of characters other than [.], [!] and
    [?] that hold more than white space. *)
Definition sentencesIn (text : string) : list string :=
  filter (fun s => negb (whitespaceOnly s)) (runs isSentenceEnd text).

(** The first and the last character that is not white space. *)
Fixpoint firstNonBlank (s : string) : option ascii :=
  match s with
  | EmptyString => None
  | String c s' => if isWhiteSpace c then firstNonBlank s' else Some c
  end.

Fixpoint lastNonBlank (s : string) : option ascii :=
  match s with
  | EmptyString => None
  | String c s' =>
      match lastNonBlank s' with
      | Some d => Some d
      | None => if isWhiteSpace c then None else Some c
      end
  end.

Fixpoint lastChar (s : string) : option ascii :=
  match s with
  | EmptyString => None
  | String c s' => match lastChar s' with Some d => Some d | None => Some c end
  end.

Definition holds (p : ascii -> bool) (c : option ascii) : bool :=
  match c with Some x => p x | None => false end.

(** What is left of [s] after its leading characters of the class [p], and
    after its first [n] characters; [leading p n s] when the first [n]
    characters of [s] are of the class. *)
Fixpoint dropWhile (p : ascii -> bool) (s : string) : string :=
  match s with
  | String c s' => if p c then dropWhile p s' else s
  | EmptyString => EmptyString
  end.

Fixpoint dropN (n : nat) (s : string) : string :=
  match n, s with
  | S n', String _ s' => dropN n' s'
  | _, _ => s
  end.

Fixpoint leading (p : ascii -> bool) (n : nat) (s : string) : Prop :=
  match n, s with
  | S n', String c s' => p c = true /\ leading p n' s'
  | _, _ => True
  end.

(** ** White space at the ends of a string *)

Definition startsWithWhiteSpace (s : string) : bool :=
  match s with
  | String c _ => isWhiteSpace c
  | EmptyString => false
  end.

Fixpoint endsWithWhiteSpace (s : string) : bool :=
  match s with
  | EmptyString => false
  | String c EmptyString => isWhiteSpace c
  | String _ s' => endsWithWhiteSpace s'
  end.

Definition startsNonBlank (s : string) : bool :=
  match s with String c _ => negb (isWhiteSpace c) | EmptyString => false end.

(** A text that is not empty and has no white space at either end. *)
Definition trimmed (s : string) : bool :=
  negb (isEmpty s) && negb (startsWithWhiteSpace s) && negb (endsWithWhiteSpace s).

(** ** Relevance to the expected answer *)

Definition Substring (sub s : string) : Prop :=
  exists pre post : string, s = pre ++ sub ++ post.

Definition SameSynonymGroup (word1 word2 : string) : Prop :=
  exists group, In group synonymGroups /\ In word1 group /\ In word2 group.

(** A hint token is matched when some transcript word contains it, is
    contained in it, or shares a synonym group with it. *)
Definition HintTokenMatched (words : list string) (token : string) : Prop :=
  exists word, In word words /\
    (Substring token word \/ Substring word token \/ SameSynonymGroup word token).

Definition transcriptWords (text : string) : list string :=
  split false re_whitespace (toLowerCase text).

Definition hintTokens (hint : string) : list string :=
  split false re_whitespace (toLowerCase hint).

Definition matchedTokens (text hint : string) : list string :=
  filter (conceptMatches (transcriptWords text)) (hintTokens hint).

(** The relevance the specification gives for a hint. *)
Definition relevance_spec (text hint : string) : Q :=
  Qmin 100 (50 + inject_Z (count (matchedTokens text hint)) / inject_Z (count (hintTokens hint)) * 50).

(** The relevance as the sentence of the specification reads: the words of
    the transcript and the tokens of the hint are their words. *)
Definition relevance_as_stated (text hint : string) : Q :=
  Qmin 100
    (50 + inject_Z (count (filter (conceptMatches (wordsOf text)) (wordsOf hint)))
          / inject_Z (count (wordsOf hint)) * 50).


(** ** The grammar table *)

Definition hasLeadingCapital (text : string) : bool :=
  test false re_leading_capital (trim text).

Definition hasFinalPunctuation (text : string) : bool :=
  test false re_final_punct (trim text).

Definition matchedPatterns (text : string) : list ErrorPattern :=
  filter (fun e => test true (pattern e) text) commonErrors.

Definition hasConjunction (text : string) : bool :=
  existsb (fun conj => includes (toLowerCase text) conj) conjunctions.

(** The words and the sentences the average is taken over; an empty list of
    sentences counts as one sentence. *)
Definition numberOfWords (text : string) : Z :=
  count (filter (fun w => len w >? 0) (split false re_whitespace (toLowerCase text))).

Definition numberOfSentences (text : string) : Z := Z.max (count (sentencesOf text)) 1.

Definition sumOfPenalties (patterns : list ErrorPattern) : Z :=
  fold_right (fun e sum => penalty e + sum) 0 patterns.

(** The score the table of the specification gives, before clamping. *)
Definition grammarScore_spec (text : string) : Z :=
  85
  - (if hasLeadingCapital text then 0 else 5)
  - (if hasFinalPunctuation text then 0 else 5)
  - sumOfPenalties (matchedPatterns text)
  - (if numberOfWords text <? 5 * numberOfSentences text then 5
     else if numberOfWords text >? 25 * numberOfSentences text then 3 else 0)
  + (if hasConjunction text then 5 else 0).

(** The table of the specification, before clamping, on the words and the
    sentences of the text; [conjunction] tells whether the bonus is earned. *)
Definition grammarTable (conjunction : bool) (text : string) : Z :=
  85
  - (if holds isUpperAZ (firstNonBlank text) then 0 else 5)
  - (if holds isSentenceEnd (lastNonBlank text) then 0 else 5)
  - sumOfPenalties (matchedPatterns text)
  - (if count (wordsOf text) <? 5 * Z.max (count (sentencesIn text)) 1 then 5
     else if count (wordsOf text) >? 25 * Z.max (count (sentencesIn text)) 1 then 3
     else 0)
  + (if conjunction then 5 else 0).

(** A listed conjunction is a word of the text, [/\bconj\b/i]. *)
Definition conjunctionAsWord (text : string) : bool :=
  existsb (fun conj => test true (wordBounded (lit conj)) text) conjunctions.

(** A listed conjunction occurs in the lower-cased text, within a longer
    word or not. *)
Definition ConjunctionInside (text : string) : Prop :=
  exists conj, In conj conjunctions /\ Substring conj (toLowerCase text).

Definition heDont : ErrorPattern :=
  {| pattern := wordBounded (lit "he don't"); error := "Subject-verb disagreement"; penalty := 8 |}.

(** ** What [assessResponse] returns *)

(** An integer from 0 to 100. *)
Definition isScore (a : number) : Prop := exists z : Z, a = ofZ z /\ 0 <= z <= 100.

Definition valid (parameters : ScoringParameters) : Prop :=
  isScore (fluency parameters) /\ isScore (pronunciation parameters) /\
  isScore (grammar parameters) /\ isScore (vocabulary parameters) /\
  isScore (comprehension parameters).

(** A clarity the combiner takes up is a number from 50 to 100. *)
Definition usableClarity (c : number) : Prop :=
  truthy c = true -> exists q : Q, c = Fin q /\ (50 <= q <= 100)%Q.

(** The text analysis the combiner is handed: none, or scores in range. *)
Definition textResultInRange (textResult : option TextAnalysis.t) : Prop :=
  match textResult with
  | None => True
  | Some t =>
      0 <= Grammar.score (TextAnalysis.grammar t) <= 100
      /\ 0 <= Vocabulary.score (TextAnalysis.vocabulary t) <= 100
      /\ exists q, Content.relevance (TextAnalysis.content t) = Fin q /\ (0 <= q <= 100)%Q
  end.

Definition audioResultInRange (audioResult : option AudioMetrics) : Prop :=
  match audioResult with
  | None => True
  | Some a => usableClarity (clarity a)
  end.

(** ** Audio too short to analyse *)

(** Ten samples of silence at 48 kHz. *)
Definition tenSamples : AudioBuffer :=
  {| channelData := repeat 0%Q 10; sampleRate := 48000%Q |}.

(** Fuel that fills an array, and passes over [n] samples before. *)
Definition enoughFuel (n : Z) : nat := Z.to_nat (maxArrayLength + 1 + n).

(** ** Empty and blank transcripts *)


(** ** The vocabulary table *)

Definition vocabularyWords (text : string) : list string :=
  orEmpty (String_match false re_lower_word (toLowerCase text)).

Definition occurrences (word : string) (words : list string) : Z :=
  count (filter (String.eqb word) words).

(** The distinct words longer than 3 that occur more than twice. *)
Definition repeatedWords (words : list string) : list string :=
  filter (fun word => (len word >? 3) && (occurrences word words >? 2)) (Set_of words).

(** A ratio over the number of words, 0 when there are none. *)
Definition ratio (a total : Z) : Q :=
  if total =? 0 then 0%Q else (inject_Z a / inject_Z total)%Q.

Definition Qgtb (x y : Q) : bool := negb (Qle_bool x y).

Definition diversityBonus (lexicalDiversity : Q) : Z :=
  if Qgtb lexicalDiversity 0.8 then 25
  else if Qgtb lexicalDiversity 0.6 then 20
  else if Qgtb lexicalDiversity 0.4 then 15
  else if Qgtb lexicalDiversity 0.2 then 10
  else 0.

Definition lengthBonus (avgWordLength : Q) : Z :=
  if Qgtb avgWordLength 6 then 15
  else if Qgtb avgWordLength 5 then 10
  else if Qgtb avgWordLength 4 then 5
  else 0.

Definition advancedBonus (advancedRatio : Q) : Z :=
  if Qgtb advancedRatio 0.3 then 15
  else if Qgtb advancedRatio 0.2 then 10
  else if Qgtb advancedRatio 0.1 then 5
  else 0.

Definition sumOfLengths (words : list string) : Z :=
  fold_left (fun sum word => sum + len word) words 0.

(** The score the table of the specification gives, before clamping. *)
Definition vocabularyScore_spec (text : string) : Z :=
  let words := vocabularyWords text in
  let total := count words in
  60
  + diversityBonus (ratio (count (Set_of words)) total)
  + lengthBonus (ratio (sumOfLengths words) total)
  + advancedBonus (ratio (count (filter isAdvancedWord words)) total)
  - 3 * count (repeatedWords words).

(** ** Where the code and the table agree *)

Fixpoint lowerCaseLetters (s : string) : bool :=
  match s with
  | EmptyString => true
  | String c s' => isLowerAZ c && lowerCaseLetters s'
  end.

(** The object [wordCount] after the words [words], none of which is a key
    of [Object.prototype]: every distinct word with its number of
    occurrences, in the order of first occurrence. *)
Definition counted (words : list string) : object :=
  map (fun k => (k, VNumber (occurrences k words))) (Set_of words).

Definition countWord (wordCount : object) (word : string) : object :=
  set wordCount word (orZeroPlusOne (get wordCount word)).

(** ** Parameters within bounds *)

(** A finite number from [lo] to [hi]. *)
Definition within (lo hi : Q) (a : number) : Prop :=
  exists q : Q, a = Fin q /\ (lo <= q <= hi)%Q.

(** The ranges of the simulated assessment. *)
Definition simulated (parameters : ScoringParameters) : Prop :=
  within 65 100 (fluency parameters) /\ within 70 90 (pronunciation parameters) /\
  within 65 100 (grammar parameters) /\ within 60 90 (vocabulary parameters) /\
  within 65 100 (comprehension parameters).

(** One recorded answer, for the examples. *)
Definition oneResponse (section userResponse : string) (audioBlob : Blob) : TestResponse.t :=
  {| TestResponse.section := section; TestResponse.questionIndex := 0%nat;
     TestResponse.audioBlob := audioBlob; TestResponse.userResponse := userResponse |}.

(** ** Recordings *)

(** Digital silence: every sample is zero. *)
Definition silent (audioBuffer : AudioBuffer) : Prop :=
  Forall (fun sample => (sample == 0)%Q) (channelData audioBuffer).

(** One second of silence, twenty samples a second. *)
Definition silentSecond : AudioBuffer :=
  {| channelData := repeat 0%Q 20; sampleRate := 20%Q |}.

(** Twenty samples of a square wave, ten samples a second. *)
Definition squareWave : AudioBuffer :=
  {| channelData :=
       [0.5; 0.5; -0.5; -0.5; 0.5; 0.5; -0.5; -0.5; 0.5; 0.5;
        0; 0; 0; 0; 0; 0; 0; 0; 0; 0]%Q;
     sampleRate := 10%Q |}.

(** * Properties *)

(** ** The string primitives on examples *)

Example split_whitespace_keeps_empty_ends :
  split false re_whitespace " a  b " = [EmptyString; "a"; "b"; EmptyString].
Proof. reflexivity. Qed.

Example split_empty_string : split false re_whitespace EmptyString = [EmptyString].
Proof. reflexivity. Qed.

Example split_sentences :
  split false re_sentence_break "Hi there. Ok?!" = ["Hi there"; " Ok"; EmptyString].
Proof. reflexivity. Qed.

Example match_lower_words :
  String_match false re_lower_word "i don't know abc123 x_y ok"
  = Some ["i"; "don"; "t"; "know"; "ok"].
Proof. reflexivity. Qed.

Example trim_both_ends : trim "  a b  " = "a b".
Proof. reflexivity. Qed.

Example he_dont_is_not_she_dont :
  map (fun e => test true (pattern e) "She don't mind.") commonErrors
  = [false; false; true; false; false; false; false; false; false; false; false; false].
Proof. reflexivity. Qed.

(** ** Numbers *)

Lemma Qfloor_half_nearest (x : Q) : nearest (Qfloor (x + (1 # 2))) x.
Proof.
  unfold nearest.
  pose proof (Qfloor_le (x + (1 # 2))) as Hlo.
  pose proof (Qlt_floor (x + (1 # 2))) as Hhi.
  rewrite inject_Z_plus in Hhi.
  change (inject_Z 1) with 1%Q in Hhi.
  split; lra.
Qed.

Lemma nearest_unique (z1 z2 : Z) (x : Q) : nearest z1 x -> nearest z2 x -> z1 = z2.
Proof.
  unfold nearest. intros [H1 H2] [H3 H4].
  assert (Ha : (inject_Z z1 < inject_Z z2 + 1)%Q) by lra.
  assert (Hb : (inject_Z z2 < inject_Z z1 + 1)%Q) by lra.
  change 1%Q with (inject_Z 1) in Ha, Hb.
  rewrite <- inject_Z_plus in Ha, Hb.
  rewrite <- Zlt_Qlt in Ha, Hb. lia.
Qed.

Lemma nearest_Qeq (z : Z) (x y : Q) : (x == y)%Q -> nearest z x -> nearest z y.
Proof. unfold nearest. intros E [H1 H2]. rewrite <- E. split; assumption. Qed.

Lemma nearest_integer (z : Z) : nearest z (inject_Z z).
Proof. unfold nearest. split; lra. Qed.

Lemma Math_round_Fin (q : Q) :
  exists z, Math_round (Fin q) = ofZ z /\ nearest z q.
Proof. exists (Qfloor (q + (1 # 2))). split; [reflexivity | apply Qfloor_half_nearest]. Qed.

Lemma Math_round_ofZ (z : Z) : Math_round (ofZ z) = ofZ z.
Proof.
  unfold Math_round, ofZ. do 2 f_equal.
  apply (nearest_unique _ _ (inject_Z z)); [apply Qfloor_half_nearest | apply nearest_integer].
Qed.

Lemma nearest_bounds (z lo hi : Z) (x : Q) :
  nearest z x -> (inject_Z lo <= x <= inject_Z hi)%Q -> lo <= z <= hi.
Proof.
  unfold nearest. intros [H1 H2] [H3 H4].
  assert (Ha : (inject_Z lo < inject_Z z + 1)%Q) by lra.
  assert (Hb : (inject_Z z < inject_Z hi + 1)%Q) by lra.
  change 1%Q with (inject_Z 1) in Ha, Hb.
  rewrite <- inject_Z_plus in Ha, Hb.
  rewrite <- Zlt_Qlt in Ha, Hb. lia.
Qed.

Lemma Qeq_bool_inject_Z (z : Z) : Qeq_bool (inject_Z z) 0 = (z =? 0).
Proof.
  destruct (Z.eqb_spec z 0) as [-> | Hz]; [reflexivity |].
  apply not_true_iff_false. intros E. apply Qeq_bool_eq in E.
  unfold Qeq in E. simpl in E. lia.
Qed.

Lemma divide_Fin (x : Q) (n : Z) : n <> 0 -> (Fin x / ofZ n)%num = Fin (x / inject_Z n).
Proof.
  intros Hn. unfold divide, ofZ. rewrite Qeq_bool_inject_Z.
  destruct (Z.eqb_spec n 0); [contradiction | reflexivity].
Qed.

Lemma le_Fin (x y : Q) : (Fin x <=? Fin y)%num = true <-> (x <= y)%Q.
Proof. apply Qle_bool_iff. Qed.

Lemma lt_Fin (x y : Q) : (Fin x <? Fin y)%num = true <-> (x < y)%Q.
Proof.
  unfold lt. rewrite negb_true_iff, <- not_true_iff_false, Qle_bool_iff.
  split; [apply Qnot_le_lt | apply Qlt_not_le].
Qed.

Lemma ge_Fin (x y : Q) : (Fin x >=? Fin y)%num = true <-> (y <= x)%Q.
Proof. apply le_Fin. Qed.

Lemma gt_Fin (x y : Q) : (Fin x >? Fin y)%num = true <-> (y < x)%Q.
Proof. apply lt_Fin. Qed.

Lemma ge_Fin_false (x y : Q) : (Fin x >=? Fin y)%num = false <-> (x < y)%Q.
Proof.
  unfold ge, le. rewrite <- not_true_iff_false, Qle_bool_iff.
  split; [apply Qnot_le_lt | apply Qlt_not_le].
Qed.

Ltac split_comparisons :=
  repeat match goal with
         | |- context [(?a >=? ?b)%num] => destruct (a >=? b)%num eqn:?
         | |- context [(?a <=? ?b)%num] => destruct (a <=? b)%num eqn:?
         | |- context [(?a >? ?b)%num] => destruct (a >? b)%num eqn:?
         | |- context [(?a <? ?b)%num] => destruct (a <? b)%num eqn:?
         end.

Ltac to_Q :=
  unfold ofZ in *;
  repeat match goal with
         | H : (Fin _ >=? Fin _)%num = true |- _ => apply ge_Fin in H
         | H : (Fin _ <=? Fin _)%num = true |- _ => apply le_Fin in H
         | H : (Fin _ >? Fin _)%num = true |- _ => apply gt_Fin in H
         | H : (Fin _ <? Fin _)%num = true |- _ => apply lt_Fin in H
         | H : (Fin _ >=? Fin _)%num = false |- _ =>
             apply not_true_iff_false in H; rewrite ge_Fin in H
         | H : (Fin _ <=? Fin _)%num = false |- _ =>
             apply not_true_iff_false in H; rewrite le_Fin in H
         | H : (Fin _ >? Fin _)%num = false |- _ =>
             apply not_true_iff_false in H; rewrite gt_Fin in H
         | H : (Fin _ <? Fin _)%num = false |- _ =>
             apply not_true_iff_false in H; rewrite lt_Fin in H
         end;
  unfold inject_Z in *.

(** ** Doubles *)

(** *** Powers of two *)

Lemma pow2_pos k : (0 < pow2 k)%Q.
Proof. apply Qpower_0_lt. reflexivity. Qed.

Lemma pow2_add a b : (pow2 (a + b) == pow2 a * pow2 b)%Q.
Proof. apply Qpower_plus. discriminate. Qed.

Lemma pow2_le a b : a <= b -> (pow2 a <= pow2 b)%Q.
Proof. intros H. apply Qpower_le_compat_l; [exact H | discriminate]. Qed.

Lemma pow2_lt_inv a b : (pow2 a < pow2 b)%Q -> a < b.
Proof. intros H. apply (Qpower_lt_compat_l_inv 2); [exact H | reflexivity]. Qed.

Lemma pow2_Z k : 0 <= k -> (pow2 k == inject_Z (2 ^ k))%Q.
Proof. intros H. unfold pow2. rewrite Zpower_Qpower by exact H. reflexivity. Qed.

Lemma pow2_log2 n : 0 < n -> (pow2 (Z.log2 n) <= inject_Z n /\ inject_Z n < pow2 (Z.log2 n + 1))%Q.
Proof.
  intros H. destruct (Z.log2_spec n H) as [Hlo Hhi].
  pose proof (Z.log2_nonneg n) as Hn.
  split.
  - rewrite pow2_Z by lia. rewrite <- Zle_Qle. exact Hlo.
  - rewrite pow2_Z by lia. rewrite <- Zlt_Qlt.
    replace (Z.log2 n + 1) with (Z.succ (Z.log2 n)) by lia. exact Hhi.
Qed.

(** *** The binary exponent *)

Lemma exponent_spec q :
  (0 < q)%Q -> (pow2 (exponent q) <= q /\ q < pow2 (exponent q + 1))%Q.
Proof.
  intros Hq. destruct q as [n d]. unfold exponent. cbn [Qnum Qden].
  assert (Hn : 0 < n) by (unfold Qlt in Hq; cbn in Hq; lia).
  destruct (pow2_log2 n Hn) as [Hn1 Hn2].
  destruct (pow2_log2 (Zpos d) eq_refl) as [Hd1 Hd2].
  set (ln := Z.log2 n) in *. set (ld := Z.log2 (Z.pos d)) in *.
  assert (Hmake : (n # d == inject_Z n / inject_Z (Zpos d))%Q) by apply Qmake_Qdiv.
  assert (Hd : (0 < inject_Z (Zpos d))%Q) by reflexivity.
  pose proof (pow2_pos (ln - ld)) as Hk. pose proof (pow2_pos (ln - ld - 1)) as Hk1.
  pose proof (pow2_pos (ln - ld + 1)) as Hk2.
  destruct (Qle_bool (pow2 (ln - ld)) (n # d)) eqn:E.
  - apply Qle_bool_iff in E. split; [exact E |].
    rewrite Hmake. apply Qlt_shift_div_r; [exact Hd |].
    apply Qlt_le_trans with (1 := Hn2).
    setoid_replace (pow2 (ln + 1)) with (pow2 (ln - ld + 1) * pow2 ld)%Q
      by (rewrite <- pow2_add; f_equiv; lia).
    apply Qmult_le_l; assumption.
  - assert (E' : (n # d < pow2 (ln - ld))%Q).
    { apply Qnot_le_lt. intros H. apply Qle_bool_iff in H. congruence. }
    split.
    + rewrite Hmake. apply Qle_shift_div_l; [exact Hd |].
      apply Qle_trans with (2 := Hn1).
      setoid_replace (pow2 ln) with (pow2 (ln - ld - 1) * pow2 (ld + 1))%Q
        by (rewrite <- pow2_add; f_equiv; lia).
      apply Qmult_le_l; [assumption | apply Qlt_le_weak; assumption].
    + replace (ln - ld - 1 + 1) with (ln - ld) by lia. exact E'.
Qed.

Lemma exponent_le x y : (0 < x)%Q -> (x <= y)%Q -> exponent x <= exponent y.
Proof.
  intros Hx Hxy. destruct (exponent_spec x Hx) as [H1 _].
  destruct (exponent_spec y) as [_ H2]; [eapply Qlt_le_trans; eassumption |].
  assert (H : exponent x < exponent y + 1); [| lia].
  apply pow2_lt_inv. eapply Qle_lt_trans; [exact H1 |]. eapply Qle_lt_trans; eassumption.
Qed.

(** *** Rounding half to even *)

Lemma roundHalfEven_comp x y : (x == y)%Q -> roundHalfEven x = roundHalfEven y.
Proof.
  intros H. unfold roundHalfEven. rewrite (Qfloor_comp _ _ H).
  assert (E : (x - inject_Z (Qfloor y) ?= 1 # 2)%Q = (y - inject_Z (Qfloor y) ?= 1 # 2)%Q)
    by (rewrite H; reflexivity).
  rewrite E. reflexivity.
Qed.

Lemma roundHalfEven_Z z : roundHalfEven (inject_Z z) = z.
Proof.
  unfold roundHalfEven. rewrite Qfloor_Z.
  assert (E : (inject_Z z - inject_Z z ?= 1 # 2)%Q = Lt).
  { apply Qlt_alt. setoid_replace (inject_Z z - inject_Z z)%Q with 0%Q by ring. reflexivity. }
  rewrite E. reflexivity.
Qed.

Lemma roundHalfEven_mono x y : (x <= y)%Q -> roundHalfEven x <= roundHalfEven y.
Proof.
  intros H. unfold roundHalfEven.
  pose proof (Qfloor_le x) as Hx1. pose proof (Qlt_floor x) as Hx2.
  pose proof (Qfloor_le y) as Hy1. pose proof (Qlt_floor y) as Hy2.
  assert (Hf : Qfloor x <= Qfloor y) by (apply Qfloor_resp_le; exact H).
  destruct (Z.eq_dec (Qfloor x) (Qfloor y)) as [E | E].
  - rewrite <- E in *. clear Hx1 Hx2 Hy1 Hy2 Hf.
    generalize dependent (inject_Z (Qfloor x)). intros fx.
    destruct (Qcompare_spec (x - fx) (1 # 2)) as [Cx | Cx | Cx];
      destruct (Qcompare_spec (y - fx) (1 # 2)) as [Cy | Cy | Cy];
      try (exfalso; lra); destruct (Z.even (Qfloor x)); lia.
  - assert (Hlt : Qfloor x + 1 <= Qfloor y) by lia.
    destruct (x - inject_Z (Qfloor x) ?= 1 # 2)%Q;
      destruct (y - inject_Z (Qfloor y) ?= 1 # 2)%Q;
      destruct (Z.even (Qfloor x)); destruct (Z.even (Qfloor y)); lia.
Qed.

Lemma roundHalfEven_ge z x : (inject_Z z <= x)%Q -> z <= roundHalfEven x.
Proof. intros H. rewrite <- (roundHalfEven_Z z). apply roundHalfEven_mono. exact H. Qed.

Lemma roundHalfEven_le z x : (x <= inject_Z z)%Q -> roundHalfEven x <= z.
Proof. intros H. rewrite <- (roundHalfEven_Z z). apply roundHalfEven_mono. exact H. Qed.

(** *** The nearest double *)

Lemma magnitude64_value q :
  (magnitude64 q ==
   inject_Z (roundHalfEven (q / pow2 (Z.max (exponent q) (-1022) - 52)))
   * pow2 (Z.max (exponent q) (-1022) - 52))%Q.
Proof. unfold magnitude64. apply Qred_correct. Qed.

Lemma Qdiv_pow2_le x y p : (x <= y)%Q -> (x / pow2 p <= y / pow2 p)%Q.
Proof.
  intros H. apply Qmult_le_compat_r; [exact H |].
  apply Qlt_le_weak, Qinv_lt_0_compat, pow2_pos.
Qed.

Lemma Qdiv_pow2 x a b : (x * pow2 (a + b) / pow2 b == x * pow2 a)%Q.
Proof.
  rewrite pow2_add. pose proof (pow2_pos b) as Hb.
  field. intros E. rewrite E in Hb. discriminate Hb.
Qed.

Lemma magnitude64_nonneg q : (0 <= q)%Q -> (0 <= magnitude64 q)%Q.
Proof.
  intros H. rewrite magnitude64_value.
  set (p := Z.max (exponent q) (-1022) - 52).
  apply Qmult_le_0_compat; [| apply Qlt_le_weak, pow2_pos].
  change 0%Q with (inject_Z 0). rewrite <- Zle_Qle. apply roundHalfEven_ge.
  apply Qle_shift_div_l; [apply pow2_pos |].
  apply Qle_trans with (2 := H). apply Qle_lteq. right. ring.
Qed.

Lemma magnitude64_zero q : (q == 0)%Q -> (magnitude64 q == 0)%Q.
Proof.
  intros H. rewrite magnitude64_value.
  set (p := Z.max (exponent q) (-1022) - 52).
  rewrite (roundHalfEven_comp (q / pow2 p) (inject_Z 0)).
  - rewrite roundHalfEven_Z. apply Qmult_0_l.
  - rewrite H. reflexivity.
Qed.

Lemma magnitude64_mono_pos x y :
  (0 < x)%Q -> (x <= y)%Q -> (magnitude64 x <= magnitude64 y)%Q.
Proof.
  intros Hx Hxy.
  assert (Hy : (0 < y)%Q) by (eapply Qlt_le_trans; eassumption).
  pose proof (exponent_le x y Hx Hxy) as He.
  destruct (exponent_spec x Hx) as [_ Hx2]. destruct (exponent_spec y Hy) as [Hy1 _].
  rewrite !magnitude64_value.
  set (px := Z.max (exponent x) (-1022) - 52) in *.
  set (py := Z.max (exponent y) (-1022) - 52) in *.
  destruct (Z.eq_dec px py) as [E | E].
  - rewrite <- E. apply Qmult_le_compat_r; [| apply Qlt_le_weak, pow2_pos].
    rewrite <- Zle_Qle. apply roundHalfEven_mono, Qdiv_pow2_le, Hxy.
  - assert (Hp : px < py) by lia.
    assert (Hey : exponent y = py + 52) by lia.
    apply Qle_trans with (pow2 (px + 53)).
    + setoid_replace (pow2 (px + 53)) with (inject_Z (2 ^ 53) * pow2 px)%Q
        by (rewrite Z.add_comm, pow2_add, pow2_Z by lia; reflexivity).
      apply Qmult_le_compat_r; [| apply Qlt_le_weak, pow2_pos].
      rewrite <- Zle_Qle. apply roundHalfEven_le.
      rewrite <- pow2_Z by lia.
      setoid_replace (pow2 53) with (1 * pow2 (53 + px) / pow2 px)%Q
        by (rewrite Qdiv_pow2; ring).
      apply Qdiv_pow2_le. rewrite Qmult_1_l.
      apply Qlt_le_weak. eapply Qlt_le_trans; [exact Hx2 |]. apply pow2_le. lia.
    + apply Qle_trans with (pow2 (py + 52)); [apply pow2_le; lia |].
      setoid_replace (pow2 (py + 52)) with (inject_Z (2 ^ 52) * pow2 py)%Q
        by (rewrite Z.add_comm, pow2_add, pow2_Z by lia; reflexivity).
      apply Qmult_le_compat_r; [| apply Qlt_le_weak, pow2_pos].
      rewrite <- Zle_Qle. apply roundHalfEven_ge.
      rewrite <- pow2_Z by lia.
      setoid_replace (pow2 52) with (1 * pow2 (52 + py) / pow2 py)%Q
        by (rewrite Qdiv_pow2; ring).
      apply Qdiv_pow2_le. rewrite Qmult_1_l.
      replace (52 + py) with (exponent y) by lia. exact Hy1.
Qed.

Lemma magnitude64_mono x y :
  (0 <= x)%Q -> (x <= y)%Q -> (magnitude64 x <= magnitude64 y)%Q.
Proof.
  intros Hx Hxy. destruct (Qlt_le_dec 0 x) as [H | H].
  - apply magnitude64_mono_pos; assumption.
  - rewrite (magnitude64_zero x) by (apply Qle_antisym; assumption).
    apply magnitude64_nonneg. eapply Qle_trans; eassumption.
Qed.

Lemma magnitude64_comp x y : (0 <= x)%Q -> (x == y)%Q -> magnitude64 x = magnitude64 y.
Proof.
  intros Hx E.
  assert (H : (magnitude64 x == magnitude64 y)%Q).
  { assert (Hy : (0 <= y)%Q) by (rewrite <- E; exact Hx).
    apply Qle_antisym; apply magnitude64_mono; try assumption;
      rewrite E; apply Qle_refl. }
  unfold magnitude64 in *. apply Qred_complete.
  rewrite !Qred_correct in H. exact H.
Qed.

(** A double [z * 2^j] with a 53-bit [z] is its own nearest double. *)
Lemma magnitude64_exact z j :
  0 < z < 2 ^ 53 -> -1074 <= j ->
  (magnitude64 (inject_Z z * pow2 j) == inject_Z z * pow2 j)%Q.
Proof.
  intros Hz Hj. set (q := (inject_Z z * pow2 j)%Q).
  assert (Hq : (0 < q)%Q).
  { apply Qmult_lt_0_compat; [| apply pow2_pos].
    change 0%Q with (inject_Z 0). rewrite <- Zlt_Qlt. lia. }
  destruct (exponent_spec q Hq) as [H1 _].
  assert (He : exponent q < j + 53).
  { apply pow2_lt_inv. eapply Qle_lt_trans; [exact H1 |]. unfold q.
    rewrite Z.add_comm, pow2_add. apply Qmult_lt_compat_r; [apply pow2_pos |].
    rewrite pow2_Z by lia. rewrite <- Zlt_Qlt. lia. }
  rewrite magnitude64_value. set (p := Z.max (exponent q) (-1022) - 52).
  assert (Hp : 0 <= j - p) by lia.
  rewrite (roundHalfEven_comp (q / pow2 p) (inject_Z (z * 2 ^ (j - p)))).
  - rewrite roundHalfEven_Z. unfold q. rewrite inject_Z_mult, <- pow2_Z by exact Hp.
    rewrite <- Qmult_assoc, <- pow2_add. replace (j - p + p) with j by lia. reflexivity.
  - unfold q. rewrite inject_Z_mult, <- pow2_Z by exact Hp.
    replace j with ((j - p) + p) at 1 by lia. apply Qdiv_pow2.
Qed.

Lemma Qopp_Qred_opp q : (- Qred (- q))%Q = Qred q.
Proof.
  rewrite Qred_opp. destruct (Qred q) as [n d]. unfold Qopp. cbn [Qnum Qden].
  rewrite Z.opp_involutive. reflexivity.
Qed.

Lemma below_pow2_1024 z j : Z.abs z < 2 ^ 53 -> j <= 0 -> (inject_Z (Z.abs z) * pow2 j < pow2 1024)%Q.
Proof.
  intros Hz Hj. apply Qle_lt_trans with (inject_Z (Z.abs z) * 1)%Q.
  - rewrite !(Qmult_comm (inject_Z (Z.abs z))). apply Qmult_le_compat_r.
    + change 1%Q with (pow2 0). apply pow2_le. exact Hj.
    + change 0%Q with (inject_Z 0). rewrite <- Zle_Qle. lia.
  - rewrite Qmult_1_r. apply Qlt_trans with (inject_Z (2 ^ 53)).
    + rewrite <- Zlt_Qlt. exact Hz.
    + rewrite <- pow2_Z by lia. apply Qpower_lt_compat_l; [lia | reflexivity].
Qed.

Lemma magnitude64_Qred q v : (magnitude64 q == v)%Q -> magnitude64 q = Qred v.
Proof.
  unfold magnitude64. intros H. apply Qred_complete.
  rewrite Qred_correct in H. exact H.
Qed.

Lemma Qle_bool_false x y : Qle_bool x y = false <-> (y < x)%Q.
Proof.
  split; intros H.
  - apply Qnot_le_lt. intros H'. apply Qle_bool_iff in H'. congruence.
  - apply not_true_is_false. intros H'. apply Qle_bool_iff in H'.
    apply (Qlt_not_le _ _ H H').
Qed.

Lemma binary64_representable q : representable q -> binary64 q = Fin (Qred q).
Proof.
  intros (z & j & Hz & Hj & E). unfold binary64.
  assert (Hbig : (inject_Z (Z.abs z) * pow2 j < pow2 1024)%Q)
    by (apply below_pow2_1024; lia).
  pose proof (pow2_pos j) as Hpow.
  destruct (Z_lt_le_dec z 0) as [Hneg | Hpos].
  - assert (Hq : (q < 0)%Q).
    { rewrite E. setoid_replace 0%Q with (0 * pow2 j)%Q by ring.
      apply Qmult_lt_compat_r; [exact Hpow |].
      change 0%Q with (inject_Z 0). rewrite <- Zlt_Qlt. exact Hneg. }
    apply Qle_bool_false in Hq. rewrite Hq. cbv zeta.
    assert (E' : (- q == inject_Z (- z) * pow2 j)%Q)
      by (rewrite E, inject_Z_opp; ring).
    assert (Hm : magnitude64 (- q) = Qred (- q)).
    { apply magnitude64_Qred.
      rewrite (magnitude64_comp (- q) (inject_Z (- z) * pow2 j)).
      - rewrite magnitude64_exact by lia. symmetry. exact E'.
      - apply Qle_bool_false in Hq. lra.
      - exact E'. }
    rewrite Hm.
    assert (Hov : Qle_bool (pow2 1024) (Qred (- q)) = false).
    { apply Qle_bool_false. rewrite Qred_correct, E'.
      replace (- z) with (Z.abs z) by lia. exact Hbig. }
    rewrite Hov, Qopp_Qred_opp. reflexivity.
  - assert (Hq : (0 <= q)%Q).
    { rewrite E. apply Qmult_le_0_compat; [| apply Qlt_le_weak, Hpow].
      change 0%Q with (inject_Z 0). rewrite <- Zle_Qle. exact Hpos. }
    pose proof Hq as Hq'. apply Qle_bool_iff in Hq'. rewrite Hq'. cbv zeta.
    assert (Hm : magnitude64 q = Qred q).
    { apply magnitude64_Qred. destruct (Z.eq_dec z 0) as [-> | Hz0].
      - assert (E0 : (q == 0)%Q) by (rewrite E; ring).
        rewrite (magnitude64_zero q E0). symmetry. exact E0.
      - rewrite (magnitude64_comp q (inject_Z z * pow2 j) Hq E).
        rewrite magnitude64_exact by lia. symmetry. exact E. }
    rewrite Hm.
    assert (Hov : Qle_bool (pow2 1024) (Qred q) = false).
    { apply Qle_bool_false. rewrite Qred_correct, E.
      replace z with (Z.abs z) at 1 by lia. exact Hbig. }
    rewrite Hov. reflexivity.
Qed.

Lemma representable_Z z : Z.abs z < 2 ^ 53 -> representable (inject_Z z).
Proof.
  intros H. exists z, 0. split; [exact H |]. split; [lia |].
  change (pow2 0) with 1%Q. ring.
Qed.

Lemma Qred_Z z : Qred (inject_Z z) = inject_Z z.
Proof.
  unfold Qred, inject_Z.
  pose proof (Z.ggcd_gcd z 1) as Hg. pose proof (Z.ggcd_correct_divisors z 1) as Hd.
  destruct (Z.ggcd z 1) as [g [aa bb]]. cbn [fst snd] in *.
  rewrite Z.gcd_1_r in Hg. subst g. destruct Hd as [Ha Hb].
  rewrite Z.mul_1_l in Ha, Hb. subst aa bb. reflexivity.
Qed.

Lemma binary64_Z z : Z.abs z < 2 ^ 53 -> binary64 (inject_Z z) = Fin (inject_Z z).
Proof.
  intros H. rewrite binary64_representable by (apply representable_Z; exact H).
  rewrite Qred_Z. reflexivity.
Qed.

Lemma binary64_mono x y : (x <= y)%Q -> le (binary64 x) (binary64 y) = true.
Proof.
  intros H. unfold binary64.
  destruct (Qle_bool 0 x) eqn:Hx; destruct (Qle_bool 0 y) eqn:Hy; cbv zeta.
  - apply Qle_bool_iff in Hx. pose proof (magnitude64_mono x y Hx H) as Hm.
    destruct (Qle_bool (pow2 1024) (magnitude64 x)) eqn:Ox;
      destruct (Qle_bool (pow2 1024) (magnitude64 y)) eqn:Oy; cbn [le]; try reflexivity.
    + apply Qle_bool_iff in Ox. apply Qle_bool_false in Oy. exfalso. lra.
    + apply Qle_bool_iff. exact Hm.
  - apply Qle_bool_iff in Hx. apply Qle_bool_false in Hy. exfalso. lra.
  - apply Qle_bool_false in Hx. apply Qle_bool_iff in Hy.
    assert (Hmx : (0 <= magnitude64 (- x))%Q) by (apply magnitude64_nonneg; lra).
    pose proof (magnitude64_nonneg y Hy) as Hmy.
    destruct (Qle_bool (pow2 1024) (magnitude64 (- x)));
      destruct (Qle_bool (pow2 1024) (magnitude64 y)); cbn [le]; try reflexivity.
    apply Qle_bool_iff. lra.
  - apply Qle_bool_false in Hx. apply Qle_bool_false in Hy.
    assert (Hm : (magnitude64 (- y) <= magnitude64 (- x))%Q)
      by (apply magnitude64_mono; lra).
    destruct (Qle_bool (pow2 1024) (magnitude64 (- x))) eqn:Ox;
      destruct (Qle_bool (pow2 1024) (magnitude64 (- y))) eqn:Oy; cbn [le]; try reflexivity.
    + apply Qle_bool_false in Ox. apply Qle_bool_iff in Oy. exfalso. lra.
    + apply Qle_bool_iff. lra.
Qed.

Lemma binary64_comp x y : (x == y)%Q -> binary64 x = binary64 y.
Proof.
  intros E. unfold binary64.
  assert (E0 : Qle_bool 0 x = Qle_bool 0 y).
  { destruct (Qle_bool 0 y) eqn:Hy.
    - apply Qle_bool_iff. apply Qle_bool_iff in Hy. rewrite E. exact Hy.
    - apply Qle_bool_false. apply Qle_bool_false in Hy. rewrite E. exact Hy. }
  rewrite E0. destruct (Qle_bool 0 y) eqn:Hy; cbv zeta.
  - apply Qle_bool_iff in Hy.
    rewrite (magnitude64_comp x y); [reflexivity | rewrite E; exact Hy | exact E].
  - apply Qle_bool_false in Hy.
    rewrite (magnitude64_comp (- x) (- y)); [reflexivity | rewrite E; lra | rewrite E; reflexivity].
Qed.

(** Between two doubles the nearest double stays. *)
Lemma binary64_between a b q :
  representable a -> representable b -> (a <= q <= b)%Q ->
  exists r, binary64 q = Fin r /\ (a <= r <= b)%Q.
Proof.
  intros Ha Hb [H1 H2].
  pose proof (binary64_mono a q H1) as M1. pose proof (binary64_mono q b H2) as M2.
  rewrite (binary64_representable a Ha) in M1. rewrite (binary64_representable b Hb) in M2.
  destruct (binary64 q) as [r | | |]; cbn [le] in M1, M2; try discriminate.
  exists r. split; [reflexivity |].
  apply Qle_bool_iff in M1, M2. rewrite Qred_correct in M1, M2. split; assumption.
Qed.

(** *** Rounded sums and quotients *)

Lemma added_Z (a b : Z) : Z.abs (a + b) < 2 ^ 53 -> added (ofZ a) (ofZ b) = ofZ (a + b).
Proof.
  intros H. unfold added, ofZ. cbn [add rounded].
  rewrite (binary64_comp _ (inject_Z (a + b))) by (rewrite inject_Z_plus; reflexivity).
  apply binary64_Z. exact H.
Qed.

Lemma binary64_not_NaN q : binary64 q <> NaN.
Proof.
  unfold binary64. destruct (Qle_bool 0 q); cbv zeta;
    match goal with |- context [if ?b then _ else _] => destruct b end; discriminate.
Qed.

Lemma ordered_rounded a b : ordered a b -> ordered (rounded a) (rounded b).
Proof.
  unfold ordered. destruct a as [x | | |], b as [y | | |]; cbn [le rounded]; intros H;
    try discriminate; try reflexivity.
  - apply binary64_mono. apply Qle_bool_iff. exact H.
  - pose proof (binary64_not_NaN x). destruct (binary64 x); try reflexivity; congruence.
  - pose proof (binary64_not_NaN y). destruct (binary64 y); try reflexivity; congruence.
Qed.

Lemma ordered_add a b (x y : Q) :
  ordered a b -> (x <= y)%Q -> ordered (a + Fin x) (b + Fin y).
Proof.
  unfold ordered. destruct a as [u | | |], b as [w | | |]; cbn [le add]; intros H Hxy;
    try discriminate; try reflexivity.
  apply Qle_bool_iff in H. apply Qle_bool_iff. lra.
Qed.

Lemma ordered_divide_5 a b : ordered a b -> ordered (a / 5) (b / 5).
Proof.
  unfold ordered. destruct a as [u | | |], b as [w | | |]; intros H;
    try discriminate; try reflexivity.
  rewrite !divide_Fin by lia. cbn [le] in *. apply Qle_bool_iff in H. apply Qle_bool_iff.
  apply Qmult_le_compat_r; [exact H | discriminate].
Qed.

Lemma ordered_Math_round a b : ordered a b -> ordered (Math_round a) (Math_round b).
Proof.
  unfold ordered. destruct a as [u | | |], b as [w | | |]; cbn [le Math_round]; intros H;
    try discriminate; try reflexivity.
  apply Qle_bool_iff in H. apply Qle_bool_iff. rewrite <- Zle_Qle.
  apply Qfloor_resp_le. lra.
Qed.

Lemma section_score_ordered (f p g v c f' p' g' v' c' : Q) :
  (f <= f')%Q -> (p <= p')%Q -> (g <= g')%Q -> (v <= v')%Q -> (c <= c')%Q ->
  ordered
    (calculateSectionScore
       {| fluency := f; pronunciation := p; grammar := g; vocabulary := v; comprehension := c |})
    (calculateSectionScore
       {| fluency := f'; pronunciation := p'; grammar := g'; vocabulary := v';
          comprehension := c' |}).
Proof.
  intros Hf Hp Hg Hv Hc. unfold calculateSectionScore, added, divided.
  cbn [fluency pronunciation grammar vocabulary comprehension].
  apply ordered_Math_round, ordered_rounded, ordered_divide_5.
  apply ordered_rounded, ordered_add; [| exact Hc].
  apply ordered_rounded, ordered_add; [| exact Hv].
  apply ordered_rounded, ordered_add; [| exact Hg].
  apply ordered_rounded, ordered_add; [| exact Hp].
  apply Qle_bool_iff. exact Hf.
Qed.

(** *** Numbers between integers *)

Lemma within_rounded (lo hi : Z) (q : Q) :
  Z.abs lo < 2 ^ 53 -> Z.abs hi < 2 ^ 53 ->
  (inject_Z lo <= q <= inject_Z hi)%Q ->
  within (inject_Z lo) (inject_Z hi) (binary64 q).
Proof.
  intros Hlo Hhi H.
  apply binary64_between; [apply representable_Z; exact Hlo | apply representable_Z; exact Hhi | exact H].
Qed.

Lemma within_added (lo1 hi1 lo2 hi2 : Z) (a b : number) :
  Z.abs (lo1 + lo2) < 2 ^ 53 -> Z.abs (hi1 + hi2) < 2 ^ 53 ->
  within (inject_Z lo1) (inject_Z hi1) a -> within (inject_Z lo2) (inject_Z hi2) b ->
  within (inject_Z (lo1 + lo2)) (inject_Z (hi1 + hi2)) (added a b).
Proof.
  intros Hlo Hhi [x [-> Hx]] [y [-> Hy]]. unfold added. cbn [add rounded].
  apply within_rounded; [exact Hlo | exact Hhi |].
  rewrite !inject_Z_plus. lra.
Qed.

Lemma within_divided (lo hi n : Z) (a : number) :
  0 < n -> Z.abs lo < 2 ^ 53 -> Z.abs hi < 2 ^ 53 ->
  within (inject_Z (lo * n)) (inject_Z (hi * n)) a ->
  within (inject_Z lo) (inject_Z hi) (divided a (ofZ n)).
Proof.
  intros Hn Hlo Hhi [x [-> Hx]]. unfold divided. rewrite divide_Fin by lia. cbn [rounded].
  apply within_rounded; [exact Hlo | exact Hhi |].
  assert (Hn' : (0 < inject_Z n)%Q) by (change 0%Q with (inject_Z 0); rewrite <- Zlt_Qlt; exact Hn).
  rewrite !inject_Z_mult in Hx. split.
  - apply Qle_shift_div_l; [exact Hn' | apply Hx].
  - apply Qle_shift_div_r; [exact Hn' | apply Hx].
Qed.

Lemma within_Math_round (lo hi : Z) (a : number) :
  within (inject_Z lo) (inject_Z hi) a ->
  exists z : Z, Math_round a = ofZ z /\ lo <= z <= hi.
Proof.
  intros [x [-> Hx]]. destruct (Math_round_Fin x) as [z [E Hz]].
  exists z. split; [exact E |]. apply (nearest_bounds z lo hi x); assumption.
Qed.

Lemma within_ordered (lo hi : Z) (a : number) :
  within (inject_Z lo) (inject_Z hi) a -> lo <= hi.
Proof.
  intros [x [_ [H1 H2]]]. rewrite Zle_Qle. apply Qle_trans with x; assumption.
Qed.

(** The section score lies between the means of the lower and of the upper
    bounds of the five parameters. *)
Lemma calculateSectionScore_between (lo hi lf hf lp hp lg hg lv hv lc hc : Z)
      (parameters : ScoringParameters) :
  - 2 ^ 50 <= lf /\ hf <= 2 ^ 50 -> - 2 ^ 50 <= lp /\ hp <= 2 ^ 50 ->
  - 2 ^ 50 <= lg /\ hg <= 2 ^ 50 -> - 2 ^ 50 <= lv /\ hv <= 2 ^ 50 ->
  - 2 ^ 50 <= lc /\ hc <= 2 ^ 50 ->
  within (inject_Z lf) (inject_Z hf) (fluency parameters) ->
  within (inject_Z lp) (inject_Z hp) (pronunciation parameters) ->
  within (inject_Z lg) (inject_Z hg) (grammar parameters) ->
  within (inject_Z lv) (inject_Z hv) (vocabulary parameters) ->
  within (inject_Z lc) (inject_Z hc) (comprehension parameters) ->
  lo * 5 = lf + lp + lg + lv + lc -> hi * 5 = hf + hp + hg + hv + hc ->
  exists z : Z, calculateSectionScore parameters = ofZ z /\ lo <= z <= hi.
Proof.
  intros Bf Bp Bg Bv Bc Hf Hp Hg Hv Hc Elo Ehi.
  assert (Of : lf <= hf) by (apply (within_ordered _ _ _ Hf)).
  assert (Op : lp <= hp) by (apply (within_ordered _ _ _ Hp)).
  assert (Og : lg <= hg) by (apply (within_ordered _ _ _ Hg)).
  assert (Ov : lv <= hv) by (apply (within_ordered _ _ _ Hv)).
  assert (Oc : lc <= hc) by (apply (within_ordered _ _ _ Hc)).
  assert (P50 : 2 ^ 50 * 8 = 2 ^ 53) by reflexivity.
  unfold calculateSectionScore. apply within_Math_round.
  apply within_divided; [lia | lia | lia |].
  rewrite Elo, Ehi.
  repeat (apply within_added; [lia | lia | | assumption]). exact Hf.
Qed.

(** *** The mean of integers *)

Lemma inject_Z_minus (x y : Z) : (inject_Z (x - y) == inject_Z x - inject_Z y)%Q.
Proof. unfold Z.sub. rewrite inject_Z_plus, inject_Z_opp. reflexivity. Qed.

Lemma Qfloor_half_unique (k : Z) (r : Q) : nearest k r -> Qfloor (r + (1 # 2)) = k.
Proof. intros H. apply (nearest_unique _ _ r); [apply Qfloor_half_nearest | exact H]. Qed.

(** Rounding the quotient of two integers to a double does not move it
    across a half: [Math.round] gives the nearest integer to the exact
    quotient. *)
Lemma Math_round_divided (s n : Z) :
  0 < n <= 2 ^ 21 -> Z.abs s <= 2 ^ 30 * n ->
  Math_round (divided (ofZ s) (ofZ n)) = Math_round (Fin (inject_Z s / inject_Z n)).
Proof.
  intros Hn Hs. unfold divided. change (ofZ s) with (Fin (inject_Z s)).
  rewrite divide_Fin by lia. cbn [rounded].
  set (x := (inject_Z s / inject_Z n)%Q).
  set (k := Qfloor (x + (1 # 2))).
  assert (Hn' : (0 < inject_Z n)%Q) by (change 0%Q with (inject_Z 0); rewrite <- Zlt_Qlt; lia).
  assert (Hx : (x * inject_Z n == inject_Z s)%Q).
  { unfold x. field. intros E. rewrite E in Hn'. discriminate Hn'. }
  pose proof (Qfloor_half_nearest x) as Hk. fold k in Hk.
  assert (Hk30 : - 2 ^ 30 <= k <= 2 ^ 30).
  { apply (nearest_bounds k _ _ x Hk). split.
    - apply Qle_shift_div_l; [exact Hn' |]. rewrite <- inject_Z_mult, <- Zle_Qle. lia.
    - apply Qle_shift_div_r; [exact Hn' |]. rewrite <- inject_Z_mult, <- Zle_Qle. lia. }
  destruct Hk as [Hk1 Hk2].
  assert (Z1 : (2 * k - 1) * n <= 2 * s).
  { rewrite Zle_Qle, !inject_Z_mult, inject_Z_minus, inject_Z_mult, <- Hx.
    change (inject_Z 2) with 2%Q. change (inject_Z 1) with 1%Q.
    setoid_replace ((2 * inject_Z k - 1) * inject_Z n)%Q
      with (2 * ((inject_Z k - (1 # 2)) * inject_Z n))%Q by ring.
    apply Qmult_le_l; [reflexivity |]. apply Qmult_le_compat_r; [exact Hk1 |].
    apply Qlt_le_weak. exact Hn'. }
  assert (Z2 : 2 * s < (2 * k + 1) * n).
  { rewrite Zlt_Qlt, !inject_Z_mult, inject_Z_plus, inject_Z_mult, <- Hx.
    change (inject_Z 2) with 2%Q. change (inject_Z 1) with 1%Q.
    setoid_replace ((2 * inject_Z k + 1) * inject_Z n)%Q
      with (2 * ((inject_Z k + (1 # 2)) * inject_Z n))%Q by ring.
    apply Qmult_lt_l; [reflexivity |]. apply Qmult_lt_compat_r; assumption. }
  set (a := (inject_Z (2 * k - 1) * pow2 (-1))%Q).
  set (b := (inject_Z ((2 * k + 1) * 2 ^ 21 - 1) * pow2 (-22))%Q).
  assert (Ea : (a == inject_Z k - (1 # 2))%Q).
  { unfold a. rewrite inject_Z_minus, inject_Z_mult.
    change (pow2 (-1)) with (1 # 2)%Q. change (inject_Z 2) with 2%Q.
    change (inject_Z 1) with 1%Q. ring. }
  assert (Eb : (b == inject_Z k + (1 # 2) - (1 # 4194304))%Q).
  { unfold b. rewrite inject_Z_minus, inject_Z_mult, inject_Z_plus, inject_Z_mult.
    change (pow2 (-22)) with (1 # 4194304)%Q. change (inject_Z 2) with 2%Q.
    change (inject_Z 1) with 1%Q. change (inject_Z (2 ^ 21)) with 2097152%Q. ring. }
  assert (Ra : representable a).
  { exists (2 * k - 1), (-1). split; [lia |]. split; [lia | reflexivity]. }
  assert (Rb : representable b).
  { exists ((2 * k + 1) * 2 ^ 21 - 1), (-22). split; [lia |]. split; [lia | reflexivity]. }
  assert (Hab : (a <= x <= b)%Q).
  { split.
    - rewrite Ea. exact Hk1.
    - unfold b, x. change (pow2 (-22)) with (1 # 4194304)%Q.
      apply Qle_shift_div_r; [exact Hn' |].
      setoid_replace (inject_Z ((2 * k + 1) * 2 ^ 21 - 1) * (1 # 4194304) * inject_Z n)%Q
        with (inject_Z (((2 * k + 1) * 2 ^ 21 - 1) * n) / inject_Z (2 ^ 22))%Q
        by (rewrite inject_Z_mult; change (inject_Z (2 ^ 22)) with 4194304%Q; field).
      apply Qle_shift_div_l; [reflexivity |].
      rewrite <- inject_Z_mult, <- Zle_Qle.
      change (2 ^ 22) with 4194304. change (2 ^ 21) with 2097152. change (2 ^ 21) with 2097152 in Hn.
      nia. }
  destruct (binary64_between a b x Ra Rb Hab) as [r [Er [Hr1 Hr2]]].
  rewrite Er. unfold Math_round. fold k. do 2 f_equal.
  apply Qfloor_half_unique. split.
  - rewrite <- Ea. exact Hr1.
  - apply Qle_lt_trans with (1 := Hr2). rewrite Eb.
    apply Qplus_lt_l with (z := (1 # 4194304)%Q). ring_simplify.
    rewrite <- Qplus_0_r at 1. rewrite <- !Qplus_assoc. apply Qplus_lt_r. reflexivity.
Qed.

(** ** Levels and feedback (C3) *)

(** C3. [getScoreLevel] is the breakpoint table: at least 85 is Excellent, at
    least 75 Very Good, at least 65 Good, at least 55 Fair, anything lower
    Needs Improvement; the eight boundary values 85/84, 75/74, 65/64 and 55/54
    fall as the table says; and [getScoreFeedback] returns, for every score,
    the sentence of the level [getScoreLevel] returns. *)
Theorem getScoreLevel_breakpoints (score : Q) :
  ((85 <= score)%Q -> getScoreLevel score = "Excellent") /\
  ((75 <= score < 85)%Q -> getScoreLevel score = "Very Good") /\
  ((65 <= score < 75)%Q -> getScoreLevel score = "Good") /\
  ((55 <= score < 65)%Q -> getScoreLevel score = "Fair") /\
  ((score < 55)%Q -> getScoreLevel score = "Needs Improvement") /\
  (getScoreLevel 85 = "Excellent" /\ getScoreLevel 84 = "Very Good" /\
   getScoreLevel 75 = "Very Good" /\ getScoreLevel 74 = "Good" /\
   getScoreLevel 65 = "Good" /\ getScoreLevel 64 = "Fair" /\
   getScoreLevel 55 = "Fair" /\ getScoreLevel 54 = "Needs Improvement") /\
  getScoreFeedback score = feedbackOfLevel (getScoreLevel score).
Proof.
  split; [| split; [| split; [| split; [| split; [| split]]]]].
  1-5: intros; unfold getScoreLevel; split_comparisons; to_Q; try reflexivity; lra.
  - repeat split; reflexivity.
  - unfold getScoreFeedback, getScoreLevel. split_comparisons; reflexivity.
Qed.

Lemma getScoreLevel_breakpoints_witness :
  (75 <= 84.5 < 85)%Q /\ getScoreLevel 84.5%Q = "Very Good".
Proof.
  assert (H : (75 <= 84.5 < 85)%Q) by (split; [unfold Qle | unfold Qlt]; simpl; lia).
  split; [exact H |].
  exact (proj1 (proj2 (getScoreLevel_breakpoints 84.5%Q)) H).
Defined.

(** ** Section and overall scores (C4) *)

(** The five averages a section of six answers can have, as the test page
    computes them, have the mean 64.5 exactly, whose rounding is 65.  Their
    sum in doubles, divided by 5, is 64.49999999999999, and
    [calculateSectionScore] returns 64: the rounded sum and quotient are not
    the rounded mean. *)
Lemma rounded_mean_fails_on_averages :
  calculateSectionScore averagesOfSix = 64
  /\ (meanOfParameters averagesOfSix == 129 # 2)%Q
  /\ nearest 65 (meanOfParameters averagesOfSix)
  /\ ~ nearest 64 (meanOfParameters averagesOfSix).
Proof.
  assert (H : nearest 65 (meanOfParameters averagesOfSix)).
  { split; [apply Qle_bool_iff | apply Qlt_alt]; vm_compute; reflexivity. }
  split; [vm_compute; reflexivity |].
  split; [apply Qeq_bool_eq; vm_compute; reflexivity |].
  split; [exact H |].
  intros H'. pose proof (nearest_unique _ _ _ H H') as E. discriminate E.
Qed.

Lemma fold_left_added (sectionScores : list SectionScore) :
  Forall (fun section => exists z, score section = ofZ z /\ Z.abs z <= 2 ^ 30) sectionScores ->
  forall acc : Z,
    Z.abs acc + 2 ^ 30 * count sectionScores < 2 ^ 53 ->
    exists total : Z,
      fold_left (fun sum section => added sum (score section)) sectionScores (ofZ acc) = ofZ total
      /\ (inject_Z total == inject_Z acc + sumOfScores sectionScores)%Q
      /\ Z.abs total <= Z.abs acc + 2 ^ 30 * count sectionScores.
Proof.
  induction 1 as [| section rest [z [Hz Hb]] _ IH]; intros acc Hacc.
  - exists acc. cbn. split; [reflexivity | split; [ring | lia]].
  - unfold count in *. cbn [List.length fold_left] in *. rewrite Nat2Z.inj_succ in *.
    rewrite Hz, added_Z by lia.
    destruct (IH (acc + z)) as [total [E1 [E2 E3]]]; [lia |].
    exists total. split; [exact E1 |]. split; [| lia].
    rewrite E2, inject_Z_plus. cbn [sumOfScores fold_right]. fold (sumOfScores rest).
    unfold scoreValue at 1. rewrite Hz. unfold ofZ. ring.
Qed.

(** C4, amended.  On five dimension scores that are integers (of magnitude
    up to 2^30; [assessResponse] returns integers from 0 to 100),
    [calculateSectionScore] is their mean rounded to the nearest integer,
    halves going up, and five times 80 gives 80; [calculateOverallScore] is
    0 on the empty list, and on a non-empty list of at most 2^21 sections
    whose scores are such integers it is their mean rounded to the nearest
    integer, a finite number: the divisor is the length of a non-empty
    list. *)
Theorem section_and_overall_scores_of_integers :
  (forall f p g v c : Z,
      Z.abs f <= 2 ^ 30 -> Z.abs p <= 2 ^ 30 -> Z.abs g <= 2 ^ 30 ->
      Z.abs v <= 2 ^ 30 -> Z.abs c <= 2 ^ 30 ->
      exists z : Z,
        calculateSectionScore
          {| fluency := f; pronunciation := p; grammar := g; vocabulary := v; comprehension := c |}
        = ofZ z
        /\ nearest z ((inject_Z f + inject_Z p + inject_Z g + inject_Z v + inject_Z c) / 5)) /\
  calculateSectionScore
    {| fluency := 80; pronunciation := 80; grammar := 80; vocabulary := 80; comprehension := 80 |}
  = 80 /\
  calculateOverallScore [] = 0 /\
  (forall sectionScores : list SectionScore,
      sectionScores <> [] ->
      count sectionScores <= 2 ^ 21 ->
      Forall (fun section => exists z, score section = ofZ z /\ Z.abs z <= 2 ^ 30) sectionScores ->
      exists z : Z,
        calculateOverallScore sectionScores = ofZ z
        /\ nearest z (sumOfScores sectionScores / inject_Z (count sectionScores))).
Proof.
  split; [| split; [| split]].
  - intros f p g v c Hf Hp Hg Hv Hc. unfold calculateSectionScore.
    cbn [fluency pronunciation grammar vocabulary comprehension].
    rewrite !added_Z by lia. rewrite Math_round_divided by lia.
    destruct (Math_round_Fin (inject_Z (f + p + g + v + c) / inject_Z 5)) as [z [E Hz]].
    exists z. split; [exact E |].
    apply (nearest_Qeq z (inject_Z (f + p + g + v + c) / inject_Z 5)); [| exact Hz].
    rewrite !inject_Z_plus. reflexivity.
  - vm_compute. reflexivity.
  - reflexivity.
  - intros sectionScores Hne Hlen Hall. unfold calculateOverallScore.
    assert (Hpos : 0 < count sectionScores).
    { destruct sectionScores; [congruence | unfold count; cbn; lia]. }
    destruct (count sectionScores =? 0) eqn:E; [lia |].
    destruct (fold_left_added sectionScores Hall 0) as [total [E1 [E2 E3]]].
    { change (2 ^ 21) with 2097152 in Hlen. change (2 ^ 30) with 1073741824.
      change (2 ^ 53) with 9007199254740992. lia. }
    rewrite E1, Math_round_divided by lia.
    destruct (Math_round_Fin (inject_Z total / inject_Z (count sectionScores))) as [z [Ez Hz]].
    exists z. split; [exact Ez |].
    apply (nearest_Qeq z (inject_Z total / inject_Z (count sectionScores))); [| exact Hz].
    rewrite E2. change (inject_Z 0) with 0%Q. rewrite Qplus_0_l. reflexivity.
Qed.

Lemma section_and_overall_scores_of_integers_witness :
  twoSections <> [] /\
  count twoSections <= 2 ^ 21 /\
  exists z : Z,
    calculateOverallScore twoSections = ofZ z
    /\ nearest z (sumOfScores twoSections / inject_Z (count twoSections)).
Proof.
  assert (H1 : twoSections <> []) by discriminate.
  assert (H2 : count twoSections <= 2 ^ 21) by (vm_compute; discriminate).
  assert (H3 : Forall (fun section => exists z, score section = ofZ z /\ Z.abs z <= 2 ^ 30)
                      twoSections).
  { repeat constructor.
    - exists 80. split; [reflexivity | vm_compute; discriminate].
    - exists 71. split; [reflexivity | vm_compute; discriminate]. }
  split; [exact H1 | split; [exact H2 |]].
  exact (proj2 (proj2 (proj2 section_and_overall_scores_of_integers)) twoSections H1 H2 H3).
Defined.


(** ** Fluency from the speaking rate (C7) *)

(** The sentence of the specification gives every range in the same way,
    and the code takes the rate bands with their bounds; read alike, the
    pause band would add 5 points at a pause ratio of exactly 0.1 (and 0.3).
    The code compares strictly there and adds nothing. *)
Lemma pause_band_excludes_its_bounds :
  calculateFluencyFromRate 150%Q 0.1%Q = 90 /\
  fluency_as_stated 150 0.1 = 95 /\
  calculateFluencyFromRate 150%Q 0.3%Q = 90 /\
  fluency_as_stated 150 0.3 = 95 /\
  calculateFluencyFromRate 150%Q 0.1%Q <> fluency_as_stated 150 0.1.
Proof. repeat split; try reflexivity. vm_compute. discriminate. Qed.

(** C7, amended.  With audio metrics at hand the fluency is
    [calculateFluencyFromRate]: 90 for a rate from 140 to 180 words per minute
    (bounds included), 80 from 120 to 200, 70 from 100 to 220 and 60
    otherwise; plus 5 when the pause ratio lies strictly between 0.1 and 0.3
    (at 0.1 and at 0.3 nothing is added), minus 10 when it exceeds 0.4;
    capped at 100.  The values at the bounds of every band are evaluated.
    The combiner returns that value as the fluency whenever the speaking
    rate is a number other than zero. *)
Theorem calculateFluencyFromRate_table (rate pause : Q) :
  (exists base adjustment : Z,
      calculateFluencyFromRate rate pause = Z.min 100 (base + adjustment)
      /\ ((140 <= rate <= 180)%Q -> base = 90)
      /\ ((120 <= rate <= 200)%Q -> ~ (140 <= rate <= 180)%Q -> base = 80)
      /\ ((100 <= rate <= 220)%Q -> ~ (120 <= rate <= 200)%Q -> base = 70)
      /\ (~ (100 <= rate <= 220)%Q -> base = 60)
      /\ ((0.1 < pause < 0.3)%Q -> adjustment = 5)
      /\ ((0.4 < pause)%Q -> adjustment = -10)
      /\ (~ (0.1 < pause < 0.3)%Q -> ~ (0.4 < pause)%Q -> adjustment = 0))
  /\ calculateFluencyFromRate rate pause <= 100
  /\ (calculateFluencyFromRate 140 0.2%Q = 95 /\ calculateFluencyFromRate 180 0.2%Q = 95 /\
      calculateFluencyFromRate 120 0.2%Q = 85 /\ calculateFluencyFromRate 200 0.2%Q = 85 /\
      calculateFluencyFromRate 100 0.2%Q = 75 /\ calculateFluencyFromRate 220 0.2%Q = 75 /\
      calculateFluencyFromRate 150 0.1%Q = 90 /\ calculateFluencyFromRate 150 0.3%Q = 90 /\
      calculateFluencyFromRate 150 0.4%Q = 90 /\ calculateFluencyFromRate 150 0.5%Q = 80)
  /\ (forall textResult audioResult userResponse expectedAnswer,
         truthy (speakingRate audioResult) = true ->
         fluency (combineIntelligentResults textResult (Some audioResult) userResponse expectedAnswer)
         = ofZ (calculateFluencyFromRate (speakingRate audioResult) (pauseRatio audioResult))).
Proof.
  split; [| split; [| split]].
  - unfold calculateFluencyFromRate.
    split_comparisons; simpl andb; cbv iota;
      match goal with
      | |- exists base adjustment, Z.min 100 (?b + ?a) = _ /\ _ => exists b, a
      | |- exists base adjustment, Z.min 100 (?b - 10) = _ /\ _ => exists b, (-10)
      | |- exists base adjustment, Z.min 100 ?b = _ /\ _ => exists b, 0
      end;
      (split; [reflexivity |]); to_Q; repeat split; intros; try reflexivity; lra.
  - unfold calculateFluencyFromRate. apply Z.le_min_l.
  - repeat split; reflexivity.
  - intros textResult audioResult userResponse expectedAnswer Hrate.
    unfold combineIntelligentResults. simpl. rewrite Hrate. apply Math_round_ofZ.
Qed.

Lemma calculateFluencyFromRate_table_witness :
  (140 <= 150 <= 180)%Q /\ (0.1 < 0.2 < 0.3)%Q /\ calculateFluencyFromRate 150%Q 0.2%Q = 95.
Proof.
  assert (H1 : (140 <= 150 <= 180)%Q) by (split; unfold Qle; simpl; lia).
  assert (H2 : (0.1 < 0.2 < 0.3)%Q) by (split; unfold Qlt; simpl; lia).
  split; [exact H1 | split; [exact H2 |]].
  destruct (proj1 (calculateFluencyFromRate_table 150 0.2%Q))
    as [base [adjustment [E [Hb [_ [_ [_ [Ha _]]]]]]]].
  rewrite E, (Hb H1), (Ha H2). reflexivity.
Defined.

(** ** The question text (C10) *)

Lemma analyzeCompletenessForSection_question (text section : string) (q1 q2 : option string) :
  analyzeCompletenessForSection text section q1 = analyzeCompletenessForSection text section q2.
Proof. reflexivity. Qed.

Lemma analyzeContentFree_question (text : string) (expectedAnswer q1 q2 section : option string) :
  analyzeContentFree text expectedAnswer q1 section
  = analyzeContentFree text expectedAnswer q2 section.
Proof.
  unfold analyzeContentFree. destruct (given section) as [sec |]; [| reflexivity].
  rewrite (analyzeCompletenessForSection_question text sec q1 q2). reflexivity.
Qed.

Lemma intelligentTextAnalysis_question (text : string) (expectedAnswer q1 q2 section : option string) :
  intelligentTextAnalysis text expectedAnswer q1 section
  = intelligentTextAnalysis text expectedAnswer q2 section.
Proof.
  unfold intelligentTextAnalysis.
  rewrite (analyzeContentFree_question text expectedAnswer q1 q2 section). reflexivity.
Qed.

(** C10. The question text never reaches the result: two calls of
    [assessResponse] that differ in it alone have the same outcome;
    [analyzeCompletenessForSection] does not read it; and of the content
    analysis the combiner reads the relevance only, so that replacing the
    completeness, the coherence, the key points and the sentiment changes
    nothing. *)
Theorem question_never_read :
  (forall fuel section userResponse audioBlob expectedAnswer question1 question2,
      assessResponse fuel section userResponse audioBlob expectedAnswer question1
      = assessResponse fuel section userResponse audioBlob expectedAnswer question2) /\
  (forall text section question1 question2,
      analyzeCompletenessForSection text section question1
      = analyzeCompletenessForSection text section question2) /\
  (forall grammar vocabulary relevance completeness1 coherence1 keyPoints1 sentiment1
          completeness2 coherence2 keyPoints2 sentiment2 audioResult userResponse expectedAnswer,
      combineIntelligentResults
        (Some {| TextAnalysis.grammar := grammar;
                 TextAnalysis.vocabulary := vocabulary;
                 TextAnalysis.content :=
                   {| Content.relevance := relevance; Content.completeness := completeness1;
                      Content.coherence := coherence1; Content.keyPoints := keyPoints1 |};
                 TextAnalysis.sentiment := sentiment1 |})
        audioResult userResponse expectedAnswer
      = combineIntelligentResults
          (Some {| TextAnalysis.grammar := grammar;
                   TextAnalysis.vocabulary := vocabulary;
                   TextAnalysis.content :=
                     {| Content.relevance := relevance; Content.completeness := completeness2;
                        Content.coherence := coherence2; Content.keyPoints := keyPoints2 |};
                   TextAnalysis.sentiment := sentiment2 |})
          audioResult userResponse expectedAnswer).
Proof.
  split; [| split].
  - intros fuel sec userResponse audioBlob expectedAnswer question1 question2.
    unfold assessResponse, enhancedFallbackAssessment.
    rewrite (intelligentTextAnalysis_question userResponse expectedAnswer
               question1 question2 (Some sec)).
    reflexivity.
  - intros. apply analyzeCompletenessForSection_question.
  - intros. reflexivity.
Qed.

(** ** Words and sentences *)

Ltac by_cases_on c :=
  destruct c as [[] [] [] [] [] [] [] []];
  try reflexivity;
  let H := fresh in intros H; vm_compute in H; discriminate H.

Lemma whitespace_lower (c : ascii) : isWhiteSpace c = true -> toLowerChar c = c.
Proof. revert c. intros c. by_cases_on c. Qed.

Lemma isWhiteSpace_toLowerChar (c : ascii) : isWhiteSpace (toLowerChar c) = isWhiteSpace c.
Proof. destruct c as [[] [] [] [] [] [] [] []]; reflexivity. Qed.

Lemma nonempty_len (w : string) : (len w >? 0) = negb (isEmpty w).
Proof. destruct w; reflexivity. Qed.

(** [class+] is greedy: it takes every leading character of the class. *)
Lemma starClass_greedy (p : ascii -> bool) (s : string) :
  forall prev, starClass p prev s (fun _ rest => Some rest) = Some (dropWhile p s).
Proof.
  induction s as [| c s IH]; intros prev; cbn [starClass dropWhile]; [reflexivity |].
  destruct (p c); [rewrite IH; reflexivity | reflexivity].
Qed.

Lemma dropWhile_length (p : ascii -> bool) (s : string) :
  (String.length (dropWhile p s) <= String.length s)%nat.
Proof.
  induction s as [| c s IH]; cbn [dropWhile String.length]; [lia |].
  destruct (p c); cbn [String.length]; lia.
Qed.

Lemma leading_dropWhile (p : ascii -> bool) (s : string) :
  leading p (String.length s - String.length (dropWhile p s)) s.
Proof.
  induction s as [| c s IH]; cbn [dropWhile String.length]; [exact I |].
  destruct (p c) eqn:E.
  - pose proof (dropWhile_length p s).
    rewrite Nat.sub_succ_l by assumption. cbn [leading]. split; assumption.
  - cbn [String.length]. rewrite Nat.sub_diag. exact I.
Qed.

Lemma matchAt_Plus (p : ascii -> bool) (prev : option ascii) (c : ascii) (s : string) :
  matchAt false (Plus p) prev (String c s)
  = if p c then Some (dropWhile p s) else None.
Proof.
  unfold matchAt. cbn [rmatch]. destruct (p c); [apply starClass_greedy | reflexivity].
Qed.

(** The pieces [split] makes, the empty ones left out, are the runs. *)
Lemma splitFrom_runs (p : ascii -> bool) (s : string) :
  forall skip piece prev,
    leading p skip s ->
    (skip <> 0%nat -> piece = EmptyString) ->
    filter nonEmpty (splitFrom false (Plus p) skip piece prev s) = runsFrom p piece s.
Proof.
  induction s as [| c s IH]; intros skip piece prev Hlead Hpiece.
  - cbn [splitFrom runsFrom filter]. unfold nonEmpty. destruct (isEmpty piece); reflexivity.
  - cbn [splitFrom runsFrom]. destruct skip as [| skip].
    + rewrite matchAt_Plus. destruct (p c) eqn:Hc.
      * pose proof (dropWhile_length p s) as Hlen.
        cbn [String.length]. rewrite Nat.sub_succ_l by exact Hlen.
        cbn [filter]. rewrite (IH _ EmptyString (Some c) (leading_dropWhile p s))
          by reflexivity.
        unfold nonEmpty at 1. destruct (isEmpty piece); reflexivity.
      * apply IH; [exact I | intros H; congruence].
    + rewrite (Hpiece ltac:(discriminate)). cbn [leading] in Hlead.
      destruct Hlead as [Hc Hlead]. rewrite Hc. cbn [isEmpty].
      apply IH; [exact Hlead | reflexivity].
Qed.

Lemma split_runs (p : ascii -> bool) (s : string) :
  filter nonEmpty (split false (Plus p) s) = runs p s.
Proof.
  destruct s as [| c s]; [reflexivity |].
  unfold split, runs. apply splitFrom_runs; [exact I | congruence].
Qed.

Lemma filter_ext_eq {A : Type} (f g : A -> bool) (l : list A) :
  (forall x, f x = g x) -> filter f l = filter g l.
Proof. intros H. induction l as [| x l IH]; cbn [filter]; [reflexivity |]. rewrite H, IH. reflexivity. Qed.

(** The words [analyzeGrammarFree] counts. *)
Lemma grammar_words (text : string) :
  filter (fun w => len w >? 0) (split false re_whitespace (toLowerCase text)) = wordsOf text.
Proof.
  unfold wordsOf, re_whitespace. rewrite <- split_runs.
  apply filter_ext_eq. exact nonempty_len.
Qed.

Lemma trimStart_nonblank (s : string) :
  whitespaceOnly s = false ->
  exists c t, trimStart s = String c t /\ isWhiteSpace c = false.
Proof.
  induction s as [| c s IH]; cbn [whitespaceOnly trimStart]; [discriminate |].
  destruct (isWhiteSpace c) eqn:Hc; cbn [andb].
  - exact IH.
  - intros _. exists c, s. split; [reflexivity | exact Hc].
Qed.

Lemma trimStart_blank (s : string) : whitespaceOnly s = true -> trimStart s = EmptyString.
Proof.
  induction s as [| c s IH]; simpl; [reflexivity |].
  rewrite andb_true_iff. intros [Hc Hs]. rewrite Hc. apply IH, Hs.
Qed.

Lemma trim_blank (s : string) : whitespaceOnly s = true -> trim s = EmptyString.
Proof. intros H. unfold trim. rewrite (trimStart_blank s H). reflexivity. Qed.

Lemma trim_nonblank (s : string) :
  whitespaceOnly s = false ->
  exists c t, trim s = String c t /\ isWhiteSpace c = false.
Proof.
  intros H. destruct (trimStart_nonblank s H) as (c & t & E & Hc).
  unfold trim. rewrite E. cbn [trimEnd]. rewrite Hc. cbn [andb].
  exists c, (trimEnd t). split; [reflexivity | exact Hc].
Qed.

Lemma trim_length (s : string) : (len (trim s) >? 0) = negb (whitespaceOnly s).
Proof.
  destruct (whitespaceOnly s) eqn:E.
  - rewrite (trim_blank s E). reflexivity.
  - destruct (trim_nonblank s E) as (c & t & -> & _). reflexivity.
Qed.

Lemma filter_filter {A : Type} (f g : A -> bool) (l : list A) :
  (forall x, f x = true -> g x = true) -> filter f (filter g l) = filter f l.
Proof.
  intros H. induction l as [| x l IH]; cbn [filter]; [reflexivity |].
  destruct (g x) eqn:Eg; cbn [filter]; rewrite IH; [reflexivity |].
  destruct (f x) eqn:Ef; [| reflexivity]. rewrite (H x Ef) in Eg. discriminate.
Qed.

(** The sentences [analyzeGrammarFree] counts. *)
Lemma sentencesOf_runs (text : string) : sentencesOf text = sentencesIn text.
Proof.
  unfold sentencesOf, sentencesIn, re_sentence_break. rewrite <- split_runs.
  rewrite filter_filter.
  - apply filter_ext_eq. exact trim_length.
  - intros [| c s]; [discriminate | reflexivity].
Qed.

(** *** The first and the last character of the trimmed text *)

Lemma next_trimStart (s : string) : next (trimStart s) = firstNonBlank s.
Proof.
  induction s as [| c s IH]; cbn [trimStart firstNonBlank]; [reflexivity |].
  destruct (isWhiteSpace c); [exact IH | reflexivity].
Qed.

Lemma firstNonBlank_not_blank (s : string) (c : ascii) :
  firstNonBlank s = Some c -> isWhiteSpace c = false.
Proof.
  induction s as [| d s IH]; cbn [firstNonBlank]; [discriminate |].
  destruct (isWhiteSpace d) eqn:E; [exact IH |]. intros H. injection H as <-. exact E.
Qed.

Lemma next_trim (s : string) : next (trim s) = firstNonBlank s.
Proof.
  unfold trim. pose proof (next_trimStart s) as H.
  destruct (trimStart s) as [| c t]; cbn [next] in H.
  - rewrite <- H. reflexivity.
  - rewrite <- H. cbn [trimEnd].
    rewrite (firstNonBlank_not_blank s c (eq_sym H)). reflexivity.
Qed.

Lemma lastChar_empty (s : string) : lastChar s = None -> s = EmptyString.
Proof. destruct s as [| c s]; [reflexivity |]. cbn [lastChar]. destruct (lastChar s); discriminate. Qed.

Lemma lastChar_trimEnd (s : string) : lastChar (trimEnd s) = lastNonBlank s.
Proof.
  induction s as [| c s IH]; cbn [trimEnd lastNonBlank]; [reflexivity |].
  rewrite <- IH. destruct (trimEnd s) as [| d t] eqn:E.
  - cbn [lastChar isEmpty]. rewrite andb_true_r. destruct (isWhiteSpace c); reflexivity.
  - cbn [isEmpty]. rewrite andb_false_r.
    change (lastChar (String c (String d t)))
      with (match lastChar (String d t) with Some x => Some x | None => Some c end).
    destruct (lastChar (String d t)) eqn:El; [reflexivity |].
    apply lastChar_empty in El. discriminate El.
Qed.

Lemma lastNonBlank_trimStart (s : string) : lastNonBlank (trimStart s) = lastNonBlank s.
Proof.
  induction s as [| c s IH]; cbn [trimStart]; [reflexivity |].
  destruct (isWhiteSpace c) eqn:E; [| reflexivity].
  rewrite IH. cbn [lastNonBlank]. rewrite E. destruct (lastNonBlank s); reflexivity.
Qed.

Lemma lastChar_trim (s : string) : lastChar (trim s) = lastNonBlank s.
Proof. unfold trim. rewrite lastChar_trimEnd. apply lastNonBlank_trimStart. Qed.

(** [/^[A-Z]/] looks at the first character only. *)
Lemma testFrom_leading_capital_later (s : string) :
  forall c, testFrom false re_leading_capital (Some c) s = false.
Proof. induction s as [| d s IH]; intros c; cbn; [reflexivity | apply IH]. Qed.

Lemma test_leading_capital (s : string) :
  test false re_leading_capital s = holds isUpperAZ (next s).
Proof.
  destruct s as [| c s]; [reflexivity |].
  unfold test. cbn [testFrom]. unfold matchAt, re_leading_capital. cbn [rmatch next holds].
  destruct (isUpperAZ c); [reflexivity |].
  apply (testFrom_leading_capital_later s c).
Qed.

(** [/[.!?]$/] looks at the last character only. *)
Lemma testFrom_final_punct (s : string) :
  forall prev, testFrom false re_final_punct prev s = holds isSentenceEnd (lastChar s).
Proof.
  induction s as [| c s IH]; intros prev; [reflexivity |].
  cbn [testFrom]. unfold matchAt, re_final_punct. cbn [rmatch].
  fold re_final_punct. rewrite IH. cbn [lastChar].
  destruct s as [| d s].
  - cbn [lastChar holds]. destruct (isSentenceEnd c); reflexivity.
  - destruct (isSentenceEnd c); destruct (lastChar (String d s)) eqn:El; try reflexivity;
      apply lastChar_empty in El; discriminate El.
Qed.

Lemma hasLeadingCapital_first (text : string) :
  hasLeadingCapital text = holds isUpperAZ (firstNonBlank text).
Proof. unfold hasLeadingCapital. rewrite test_leading_capital, next_trim. reflexivity. Qed.

Lemma hasFinalPunctuation_last (text : string) :
  hasFinalPunctuation text = holds isSentenceEnd (lastNonBlank text).
Proof.
  unfold hasFinalPunctuation, test. rewrite testFrom_final_punct, lastChar_trim. reflexivity.
Qed.

(** *** Texts without white space at their ends *)

Lemma dropN_dropWhile (p : ascii -> bool) (s : string) :
  dropN (String.length s - String.length (dropWhile p s)) s = dropWhile p s.
Proof.
  induction s as [| c s IH]; cbn [dropWhile String.length]; [reflexivity |].
  destruct (p c) eqn:E.
  - pose proof (dropWhile_length p s).
    rewrite Nat.sub_succ_l by assumption. cbn [dropN]. exact IH.
  - cbn [String.length]. rewrite Nat.sub_diag. reflexivity.
Qed.

Lemma endsWithWhiteSpace_cons (c : ascii) (s : string) :
  endsWithWhiteSpace (String c s) = false ->
  match s with
  | EmptyString => isWhiteSpace c = false
  | String _ _ => endsWithWhiteSpace s = false
  end.
Proof. destruct s; intros H; exact H. Qed.

Lemma startsNonBlank_dropWhile (s : string) :
  s <> EmptyString -> endsWithWhiteSpace s = false ->
  startsNonBlank (dropWhile isWhiteSpace s) = true.
Proof.
  induction s as [| c s IH]; [congruence |]. intros _ Hend.
  apply endsWithWhiteSpace_cons in Hend. cbn [dropWhile].
  destruct (isWhiteSpace c) eqn:Hc.
  - destruct s as [| d s]; [congruence |]. apply IH; [discriminate | exact Hend].
  - cbn [startsNonBlank]. rewrite Hc. reflexivity.
Qed.

Lemma append_nonempty (piece : string) (c : ascii) : piece ++ String c EmptyString <> EmptyString.
Proof. destruct piece; discriminate. Qed.

Lemma nonEmpty_iff (w : string) : nonEmpty w = true <-> w <> EmptyString.
Proof. destruct w; cbn; split; congruence. Qed.

(** Between its ends such a text has no empty piece. *)
Lemma splitFrom_no_empty (s : string) :
  forall skip piece prev,
    endsWithWhiteSpace s = false ->
    leading isWhiteSpace skip s ->
    (skip = 0%nat /\ piece <> EmptyString) \/ startsNonBlank (dropN skip s) = true ->
    Forall (fun w => nonEmpty w = true) (splitFrom false re_whitespace skip piece prev s).
Proof.
  induction s as [| c s IH]; intros skip piece prev Hend Hlead Hstart.
  - cbn [splitFrom]. constructor; [| constructor]. apply nonEmpty_iff.
    destruct Hstart as [[_ H] | H]; [exact H |]. destruct skip; discriminate H.
  - pose proof (endsWithWhiteSpace_cons c s Hend) as Hend'.
    cbn [splitFrom]. destruct skip as [| skip].
    + unfold re_whitespace. rewrite matchAt_Plus. fold re_whitespace.
      destruct (isWhiteSpace c) eqn:Hc.
      * assert (Hpiece : piece <> EmptyString).
        { destruct Hstart as [[_ H] | H]; [exact H |].
          cbn [dropN startsNonBlank] in H. rewrite Hc in H. discriminate H. }
        assert (Hs : s <> EmptyString) by (destruct s; [congruence | discriminate]).
        assert (Hend'' : endsWithWhiteSpace s = false) by (destruct s; [congruence | exact Hend']).
        pose proof (dropWhile_length isWhiteSpace s) as Hlen.
        cbn [String.length]. rewrite Nat.sub_succ_l by exact Hlen.
        constructor; [apply nonEmpty_iff; exact Hpiece |].
        apply IH; [exact Hend'' | apply leading_dropWhile |].
        right. rewrite dropN_dropWhile. apply startsNonBlank_dropWhile; assumption.
      * apply IH.
        -- destruct s; [reflexivity | exact Hend'].
        -- exact I.
        -- left. split; [reflexivity | apply append_nonempty].
    + cbn [leading] in Hlead. destruct Hlead as [Hc Hlead].
      assert (Hend'' : endsWithWhiteSpace s = false) by (destruct s; [congruence | exact Hend']).
      apply IH; [exact Hend'' | exact Hlead |].
      right. destruct Hstart as [[H _] | H]; [discriminate H | exact H].
Qed.

Lemma filter_Forall {A : Type} (f : A -> bool) (l : list A) :
  Forall (fun x => f x = true) l -> filter f l = l.
Proof.
  induction 1 as [| x l Hx _ IH]; cbn [filter]; [reflexivity |]. rewrite Hx, IH. reflexivity.
Qed.

Lemma split_trimmed (s : string) :
  trimmed s = true -> split false re_whitespace s = runs isWhiteSpace s.
Proof.
  intros H. unfold trimmed in H. apply andb_true_iff in H as [H Hend].
  apply andb_true_iff in H as [Hne Hstart].
  apply negb_true_iff in Hend, Hstart, Hne.
  rewrite <- (split_runs isWhiteSpace s). fold re_whitespace. symmetry.
  apply filter_Forall. destruct s as [| c s]; [discriminate Hne |].
  unfold split. apply splitFrom_no_empty; [exact Hend | exact I |].
  right. cbn [dropN startsNonBlank]. cbn [startsWithWhiteSpace] in Hstart.
  rewrite Hstart. reflexivity.
Qed.

Lemma toLowerCase_ends (s : string) :
  endsWithWhiteSpace (toLowerCase s) = endsWithWhiteSpace s.
Proof.
  induction s as [| c s IH]; [reflexivity |].
  destruct s as [| d s].
  - cbn [toLowerCase endsWithWhiteSpace]. apply isWhiteSpace_toLowerChar.
  - change (toLowerCase (String c (String d s)))
      with (String (toLowerChar c) (toLowerCase (String d s))).
    cbn [toLowerCase] in IH |- *. exact IH.
Qed.

Lemma toLowerCase_trimmed (s : string) : trimmed (toLowerCase s) = trimmed s.
Proof.
  unfold trimmed. rewrite toLowerCase_ends.
  destruct s as [| c s]; [reflexivity |].
  cbn [toLowerCase isEmpty startsWithWhiteSpace]. rewrite isWhiteSpace_toLowerChar. reflexivity.
Qed.

(** The words and the hint tokens of [analyzeContentFree] are the words of
    the text, unless it is empty or has white space at an end. *)
Lemma transcriptWords_trimmed (text : string) :
  trimmed text = true -> transcriptWords text = wordsOf text.
Proof.
  intros H. unfold transcriptWords, wordsOf. apply split_trimmed.
  rewrite toLowerCase_trimmed. exact H.
Qed.

(** ** Relevance to the expected answer (C5, C8) *)

Lemma startsWith_spec (sub s : string) :
  startsWith s sub = true <-> exists post, s = sub ++ post.
Proof.
  revert s. induction sub as [| b sub IH]; intros s; simpl.
  - destruct s; split; intros; try reflexivity; eexists; reflexivity.
  - destruct s as [| a s]; simpl.
    + split; [discriminate | intros [post E]; discriminate].
    + rewrite andb_true_iff, IH. split.
      * intros [Hab [post ->]]. apply Ascii.eqb_eq in Hab. subst. eexists; reflexivity.
      * intros [post E]. injection E as -> ->. split; [apply Ascii.eqb_refl | eexists; reflexivity].
Qed.

Lemma includes_spec (sub s : string) : includes s sub = true <-> Substring sub s.
Proof.
  unfold Substring. induction s as [| a s IH].
  - cbn [includes]. rewrite orb_false_r, startsWith_spec. split.
    + intros [post E]. exists EmptyString, post. exact E.
    + intros [pre [post E]]. destruct pre; [exists post; exact E | discriminate].
  - cbn [includes]. rewrite orb_true_iff, IH, startsWith_spec. split.
    + intros [[post E] | [pre [post E]]].
      * exists EmptyString, post. exact E.
      * exists (String a pre), post. simpl. rewrite E. reflexivity.
    + intros [pre [post E]]. destruct pre as [| c pre].
      * left. exists post. exact E.
      * right. simpl in E. injection E as _ E. exists pre, post. exact E.
Qed.

Lemma Array_includes_spec (arr : list string) (x : string) :
  Array_includes arr x = true <-> In x arr.
Proof.
  unfold Array_includes. rewrite existsb_exists. split.
  - intros [y [Hy E]]. apply String.eqb_eq in E. subst. exact Hy.
  - intros H. exists x. split; [exact H | apply String.eqb_refl].
Qed.

Lemma areSynonyms_spec (word1 word2 : string) :
  areSynonyms word1 word2 = true <-> SameSynonymGroup word1 word2.
Proof.
  unfold areSynonyms, SameSynonymGroup. rewrite existsb_exists.
  split; intros [group [Hg H]]; exists group; (split; [exact Hg |]).
  - apply andb_true_iff in H. rewrite !Array_includes_spec in H. exact H.
  - apply andb_true_iff. rewrite !Array_includes_spec. exact H.
Qed.

Lemma conceptMatches_spec (words : list string) (token : string) :
  conceptMatches words token = true <-> HintTokenMatched words token.
Proof.
  unfold conceptMatches, HintTokenMatched. rewrite existsb_exists.
  split; intros [word [Hw H]]; exists word; (split; [exact Hw |]).
  - rewrite !orb_true_iff, !includes_spec, areSynonyms_spec in H. tauto.
  - rewrite !orb_true_iff, !includes_spec, areSynonyms_spec. tauto.
Qed.

Lemma countMatchingConcepts_filter (userWords expectedWords : list string) :
  countMatchingConcepts userWords expectedWords
  = count (filter (conceptMatches userWords) expectedWords).
Proof.
  unfold countMatchingConcepts, count.
  assert (G : forall l acc,
             fold_left (fun matches expectedWord =>
                          if conceptMatches userWords expectedWord then matches + 1 else matches)
                       l acc
             = acc + Z.of_nat (List.length (filter (conceptMatches userWords) l))).
  { induction l as [| x l IH]; intros acc; simpl; [lia |].
    rewrite IH. destruct (conceptMatches userWords x); simpl List.length; lia. }
  rewrite G. lia.
Qed.

Lemma splitFrom_nonempty (ci : bool) (r : regex) (s : string) :
  forall skip piece prev, splitFrom ci r skip piece prev s <> [].
Proof.
  induction s as [| c s IH]; intros skip piece prev; cbn [splitFrom]; [discriminate |].
  destruct skip; [| apply IH].
  destruct (matchAt ci r prev (String c s)) as [rest |]; [| apply IH].
  destruct (String.length (String c s) - String.length rest)%nat; [| discriminate].
  destruct (isEmpty piece); [apply IH | discriminate].
Qed.

Lemma split_whitespace_nonempty (s : string) : split false re_whitespace s <> [].
Proof.
  destruct s; [discriminate | apply splitFrom_nonempty].
Qed.

Lemma count_nonneg {A : Type} (l : list A) : 0 <= count l.
Proof. unfold count. lia. Qed.

Lemma count_filter_le {A : Type} (f : A -> bool) (l : list A) : count (filter f l) <= count l.
Proof. unfold count. pose proof (filter_length_le f l). lia. Qed.

Lemma count_hintTokens_pos (hint : string) : 0 < count (hintTokens hint).
Proof.
  unfold hintTokens, count.
  pose proof (split_whitespace_nonempty (toLowerCase hint)) as H.
  destruct (split false re_whitespace (toLowerCase hint)); [contradiction | simpl; lia].
Qed.

Lemma Math_min_Fin (x y : Q) :
  exists q, Math_min (Fin x) (Fin y) = Fin q /\ (q == Qmin x y)%Q.
Proof.
  unfold Math_min, le. destruct (Qle_bool x y) eqn:E.
  - exists x. split; [reflexivity |]. apply Qle_bool_iff in E. symmetry. apply Q.min_l. exact E.
  - exists y. split; [reflexivity |]. apply not_true_iff_false in E. rewrite Qle_bool_iff in E.
    symmetry. apply Q.min_r. lra.
Qed.

(** The ratio of matched tokens lies between 0 and 1. *)
Lemma matched_ratio_bounds (text hint : string) :
  (0 <= inject_Z (count (matchedTokens text hint)) / inject_Z (count (hintTokens hint)) <= 1)%Q.
Proof.
  pose proof (count_hintTokens_pos hint) as Hn.
  pose proof (count_nonneg (matchedTokens text hint)) as Hm.
  pose proof (count_filter_le (conceptMatches (transcriptWords text)) (hintTokens hint)) as Hle.
  fold (matchedTokens text hint) in Hle.
  assert (Hn' : (0 < inject_Z (count (hintTokens hint)))%Q).
  { change 0%Q with (inject_Z 0). rewrite <- Zlt_Qlt. exact Hn. }
  split.
  - apply Qle_shift_div_l; [exact Hn' |]. rewrite Qmult_0_l.
    change 0%Q with (inject_Z 0). rewrite <- Zle_Qle. exact Hm.
  - apply Qle_shift_div_r; [exact Hn' |]. rewrite Qmult_1_l.
    rewrite <- Zle_Qle. exact Hle.
Qed.

Lemma given_cases (s : option string) :
  given s = None \/ exists x, s = Some x /\ x <> EmptyString /\ given s = Some x.
Proof.
  destruct s as [[| c x] |]; [left | right | left]; try reflexivity.
  exists (String c x). repeat split. discriminate.
Qed.

Lemma relevance_with_hint (text hint : string) (question section : option string) :
  hint <> EmptyString ->
  exists q : Q,
    Content.relevance (analyzeContentFree text (Some hint) question section) = Fin q
    /\ (q == relevance_spec text hint)%Q.
Proof.
  intros Hne. unfold analyzeContentFree. cbn [Content.relevance given].
  destruct hint as [| c hint]; [contradiction |]. cbn [isEmpty].
  rewrite countMatchingConcepts_filter.
  fold (transcriptWords text). fold (hintTokens (String c hint)).
  fold (matchedTokens text (String c hint)).
  pose proof (count_hintTokens_pos (String c hint)) as Hn.
  change (ofZ (count (matchedTokens text (String c hint))))
    with (Fin (inject_Z (count (matchedTokens text (String c hint))))).
  rewrite divide_Fin by lia.
  cbn [mul add ofZ].
  destruct (Math_min_Fin (inject_Z 100)
              (inject_Z 50 + inject_Z (count (matchedTokens text (String c hint)))
                             / inject_Z (count (hintTokens (String c hint))) * inject_Z 50))
    as [q1 [E1 H1]].
  unfold ofZ. rewrite E1.
  destruct (Math_min_Fin (inject_Z 100) q1) as [q2 [E2 H2]].
  exists q2. split; [exact E2 |].
  rewrite H2, H1. unfold relevance_spec.
  change (inject_Z 100) with 100%Q. change (inject_Z 50) with 50%Q.
  apply Q.min_r. apply Q.le_min_l.
Qed.

Lemma relevance_without_hint (text : string) (expectedAnswer question section : option string) :
  given expectedAnswer = None ->
  Content.relevance (analyzeContentFree text expectedAnswer question section) = 70.
Proof.
  intros H. unfold analyzeContentFree. cbn [Content.relevance]. rewrite H. reflexivity.
Qed.

Lemma relevance_spec_bounds (text hint : string) : (50 <= relevance_spec text hint <= 100)%Q.
Proof.
  unfold relevance_spec. pose proof (matched_ratio_bounds text hint) as [H0 H1].
  split.
  - apply Q.min_glb; [lra |].
    assert (H : (0 <= inject_Z (count (matchedTokens text hint))
                      / inject_Z (count (hintTokens hint)) * 50)%Q).
    { apply Qmult_le_0_compat; [exact H0 | lra]. }
    lra.
  - apply Q.le_min_l.
Qed.

Lemma truthy_Fin (q : Q) : ~ (q == 0)%Q -> truthy (Fin q) = true.
Proof.
  intros H. unfold truthy. apply negb_true_iff, not_true_iff_false.
  intros E. apply H, Qeq_bool_eq, E.
Qed.

(** Away from the ends of the text the code is the sentence of the
    specification: for a transcript and a hint that are not empty and have no
    white space at either end, the relevance is
    [min(100, 50 + matched / total * 50)] over the words of the two. *)
Lemma relevance_as_stated_when_trimmed
      (text hint : string) (question section : option string) :
  trimmed text = true -> trimmed hint = true ->
  exists q : Q,
    Content.relevance (analyzeContentFree text (Some hint) question section) = Fin q
    /\ (q == relevance_as_stated text hint)%Q.
Proof.
  intros Ht Hh.
  assert (Hne : hint <> EmptyString) by (intros ->; discriminate Hh).
  destruct (relevance_with_hint text hint question section Hne) as [q [E Hq]].
  exists q. split; [exact E |]. rewrite Hq.
  unfold relevance_spec, relevance_as_stated, matchedTokens, hintTokens.
  fold (transcriptWords hint).
  rewrite (transcriptWords_trimmed text Ht), (transcriptWords_trimmed hint Hh). reflexivity.
Qed.

Lemma comprehension_is_rounded_relevance
      (text : string) (expectedAnswer question section : option string)
      (audioResult : option AudioMetrics) :
  comprehension
    (combineIntelligentResults
       (Some {| TextAnalysis.grammar := analyzeGrammarFree text;
                TextAnalysis.vocabulary := analyzeVocabularyFree text;
                TextAnalysis.content := analyzeContentFree text expectedAnswer question section;
                TextAnalysis.sentiment := analyzeSentimentFree text |})
       audioResult text expectedAnswer)
  = Math_round (Content.relevance (analyzeContentFree text expectedAnswer question section)).
Proof.
  unfold combineIntelligentResults.
  cbn [comprehension option_map TextAnalysis.content orElse].
  destruct (given_cases expectedAnswer) as [H | [hint [-> [Hne _]]]].
  - rewrite (relevance_without_hint _ _ _ _ H). reflexivity.
  - destruct (relevance_with_hint text hint question section Hne) as [q [-> Hq]].
    rewrite truthy_Fin; [reflexivity |].
    rewrite Hq. pose proof (relevance_spec_bounds text hint) as [H _]. lra.
Qed.

(** C5, where the code departs from it.  The transcript [no idea ] has
    the words [no] and [idea]; none contains, is contained in, or is a
    synonym of a token of the hint [describe your leadership experience], and
    the formula gives 50.  [split(/\s+/)] adds the empty string after the
    last blank as a third word, every token contains it, and the code
    returns 100.  Elsewhere the code is the formula: on every transcript and
    every hint that are not empty and have no white space at either end; a
    token is matched when a word contains it, is contained in it or shares a
    synonym group with it, the group of [good] being one of them; and
    without a hint (none, or the empty string) the relevance is 70.  The
    comprehension is the relevance, rounded. *)
Theorem relevance_counts_the_empty_word :
  (Math_round (Content.relevance
                 (analyzeContentFree "no idea " (Some "describe your leadership experience")
                    None (Some "B")))
   = 100
   /\ (relevance_as_stated "no idea " "describe your leadership experience" == 50)%Q
   /\ wordsOf "no idea " = ["no"; "idea"]
   /\ transcriptWords "no idea " = ["no"; "idea"; EmptyString]) /\
  (forall (text hint : string) (question section : option string),
      trimmed text = true -> trimmed hint = true ->
      exists q : Q,
        Content.relevance (analyzeContentFree text (Some hint) question section) = Fin q
        /\ (q == relevance_as_stated text hint)%Q) /\
  (forall words token,
      conceptMatches words token = true
      <-> exists word, In word words /\
            (Substring token word \/ Substring word token
             \/ exists group, In group synonymGroups /\ In word group /\ In token group)) /\
  In ["good"; "great"; "excellent"; "wonderful"; "amazing"] synonymGroups /\
  (Math_round (Content.relevance
                 (analyzeContentFree "I had a great job today" (Some "good work") None None))
   = 100
   /\ Math_round (Content.relevance
                    (analyzeContentFree "my work is fine" (Some "good work") None None))
      = 75
   /\ Math_round (Content.relevance
                    (analyzeContentFree "I had a nice day" (Some "good work") None None))
      = 50) /\
  (forall (text : string) (question section : option string),
      Content.relevance (analyzeContentFree text None question section) = 70
      /\ Content.relevance (analyzeContentFree text (Some EmptyString) question section) = 70) /\
  (forall (text : string) (expectedAnswer question section : option string)
          (audioResult : option AudioMetrics) analysis,
      intelligentTextAnalysis text expectedAnswer question section = Return analysis ->
      comprehension (combineIntelligentResults (Some analysis) audioResult text expectedAnswer)
      = Math_round (Content.relevance
                      (analyzeContentFree text expectedAnswer question section))).
Proof.
  split; [| split; [| split; [| split; [| split; [| split]]]]].
  - split; [vm_compute; reflexivity |]. split; [vm_compute; reflexivity |].
    split; reflexivity.
  - exact relevance_as_stated_when_trimmed.
  - intros words token. rewrite conceptMatches_spec. reflexivity.
  - left. reflexivity.
  - repeat split; vm_compute; reflexivity.
  - intros text question section. split; reflexivity.
  - intros text expectedAnswer question section audioResult analysis H.
    unfold intelligentTextAnalysis in H. injection H as <-.
    apply comprehension_is_rounded_relevance.
Qed.





(** ** The grammar table (C2) *)

Lemma Qlt_ratio (w s k : Z) :
  0 < s -> (inject_Z w / inject_Z s < inject_Z k)%Q <-> w < k * s.
Proof.
  intros Hs.
  assert (Hs' : (0 < inject_Z s)%Q) by (change 0%Q with (inject_Z 0); rewrite <- Zlt_Qlt; lia).
  rewrite Zlt_Qlt, inject_Z_mult. split; intros H.
  - apply (Qmult_lt_r _ _ (/ inject_Z s)); [apply Qinv_lt_0_compat; exact Hs' |].
    rewrite <- Qmult_assoc, Qmult_inv_r, Qmult_1_r by lra. exact H.
  - apply Qlt_shift_div_r; assumption.
Qed.

Lemma Qgt_ratio (w s k : Z) :
  0 < s -> (inject_Z k < inject_Z w / inject_Z s)%Q <-> k * s < w.
Proof.
  intros Hs.
  assert (Hs' : (0 < inject_Z s)%Q) by (change 0%Q with (inject_Z 0); rewrite <- Zlt_Qlt; lia).
  rewrite Zlt_Qlt, inject_Z_mult. split; intros H.
  - apply (Qmult_lt_r _ _ (/ inject_Z s)); [apply Qinv_lt_0_compat; exact Hs' |].
    rewrite <- Qmult_assoc, Qmult_inv_r, Qmult_1_r by lra. exact H.
  - apply Qlt_shift_div_l; assumption.
Qed.

Lemma lt_ratio (w s k : Z) : 0 < s -> (ofZ w / ofZ s <? ofZ k)%num = (w <? k * s).
Proof.
  intros Hs. apply eq_true_iff_eq.
  unfold ofZ at 1. rewrite divide_Fin by lia. unfold ofZ.
  rewrite lt_Fin, Z.ltb_lt. apply Qlt_ratio. exact Hs.
Qed.

Lemma gt_ratio (w s k : Z) : 0 < s -> (ofZ w / ofZ s >? ofZ k)%num = (w >? k * s).
Proof.
  intros Hs. apply eq_true_iff_eq.
  unfold ofZ at 1. rewrite divide_Fin by lia. unfold ofZ.
  rewrite gt_Fin, Z.gtb_ltb, Z.ltb_lt. apply Qgt_ratio. exact Hs.
Qed.

Lemma checkPattern_fold (text : string) (patterns : list ErrorPattern) :
  forall r : Grammar.t,
    Grammar.score (fold_left (checkPattern text) patterns r)
    = Grammar.score r
      - sumOfPenalties (filter (fun e => test true (pattern e) text) patterns).
Proof.
  induction patterns as [| e patterns IH]; intros r; simpl; [lia |].
  rewrite IH. unfold checkPattern.
  destruct (test true (pattern e) text); simpl; lia.
Qed.

Lemma sentenceCount_pos (text : string) : 0 < numberOfSentences text.
Proof. unfold numberOfSentences. lia. Qed.

Lemma analyzeGrammarFree_score (text : string) :
  Grammar.score (analyzeGrammarFree text) = Z.max 0 (Z.min 100 (grammarScore_spec text)).
Proof.
  unfold analyzeGrammarFree, grammarScore_spec, avgWordsPerSentence. cbv zeta.
  cbn [Grammar.score].
  fold (numberOfWords text). fold (numberOfSentences text).
  fold (hasLeadingCapital text). fold (hasFinalPunctuation text). fold (hasConjunction text).
  rewrite (lt_ratio _ _ 5), (gt_ratio _ _ 25) by apply sentenceCount_pos.
  do 2 f_equal.
  destruct (hasLeadingCapital text), (hasFinalPunctuation text), (hasConjunction text),
    (numberOfWords text <? 5 * numberOfSentences text), (numberOfWords text >? 25 * numberOfSentences text);
    cbn [negb Grammar.score Grammar.award Grammar.deduct Grammar.pushError Grammar.pushSuggestion];
    rewrite checkPattern_fold; fold (matchedPatterns text);
    cbn [Grammar.score Grammar.award Grammar.deduct Grammar.pushError Grammar.pushSuggestion];
    lia.
Qed.

Lemma hasConjunction_inside (text : string) :
  hasConjunction text = true <-> ConjunctionInside text.
Proof.
  unfold hasConjunction, ConjunctionInside. rewrite existsb_exists.
  split; intros [conj [Hin H]]; exists conj; (split; [exact Hin |]);
    apply includes_spec; exact H.
Qed.

(** The table on the words and sentences of the text is the table on the
    pieces the code counts. *)
Lemma grammarScore_spec_table (text : string) :
  grammarScore_spec text = grammarTable (hasConjunction text) text.
Proof.
  unfold grammarScore_spec, grammarTable, numberOfWords, numberOfSentences.
  rewrite hasLeadingCapital_first, hasFinalPunctuation_last, grammar_words, sentencesOf_runs.
  reflexivity.
Qed.

(** The sentence of the specification promises 85 minus the penalty to a
    text that matches one pattern and earns no other deduction or bonus.
    [He don't understand coffee very much.] matches one pattern, starts with
    a capital, ends with a full stop, has six words in one sentence and no
    listed conjunction among its words: the table gives 77.  The code looks
    for the conjunctions with [includes], finds [and] in [understand], adds
    5 and returns 82. *)
Lemma conjunction_inside_a_word :
  matchedPatterns "He don't understand coffee very much." = [heDont]
  /\ holds isUpperAZ (firstNonBlank "He don't understand coffee very much.") = true
  /\ holds isSentenceEnd (lastNonBlank "He don't understand coffee very much.") = true
  /\ wordsOf "He don't understand coffee very much."
     = ["he"; "don't"; "understand"; "coffee"; "very"; "much."]
  /\ sentencesIn "He don't understand coffee very much."
     = ["He don't understand coffee very much"]
  /\ conjunctionAsWord "He don't understand coffee very much." = false
  /\ grammarTable (conjunctionAsWord "He don't understand coffee very much.")
       "He don't understand coffee very much."
     = 85 - penalty heDont
  /\ Grammar.score (analyzeGrammarFree "He don't understand coffee very much.") = 82.
Proof. repeat split; reflexivity. Qed.

(** C2, amended.  The grammar score is the table: 85, minus 5 when the first
    character that is not white space is no capital A-Z, minus 5 when the
    last one is none of [.], [!] and [?], minus the penalty of every
    catalogue pattern that matches (twelve patterns, each penalty from 5 to
    10), minus 5 when the words are fewer than 5 a sentence and minus 3 when
    they are more than 25 a sentence, plus 5 when a listed conjunction occurs
    in the lower-cased text, as a word or within a longer word, the whole
    clamped to 0..100.  A text that matches one pattern and earns no other
    deduction or bonus, none of the conjunctions occurring in it, scores 85
    minus the penalty of that pattern. *)
Theorem grammar_table :
  (forall text,
      exists conjunction : bool,
        (conjunction = true <-> ConjunctionInside text)
        /\ Grammar.score (analyzeGrammarFree text)
           = Z.max 0 (Z.min 100 (grammarTable conjunction text))) /\
  (12 <= List.length commonErrors)%nat /\
  Forall (fun e => 5 <= penalty e <= 10) commonErrors /\
  (forall text e,
      matchedPatterns text = [e] ->
      holds isUpperAZ (firstNonBlank text) = true ->
      holds isSentenceEnd (lastNonBlank text) = true ->
      5 * Z.max (count (sentencesIn text)) 1 <= count (wordsOf text)
        <= 25 * Z.max (count (sentencesIn text)) 1 ->
      ~ ConjunctionInside text ->
      Grammar.score (analyzeGrammarFree text) = 85 - penalty e) /\
  (Grammar.score (analyzeGrammarFree "He don't like coffee very much.") = 77
   /\ Grammar.score (analyzeGrammarFree "He don't understand coffee very much.") = 82
   /\ Grammar.score (analyzeGrammarFree "He don't like coffee and tea very much.") = 82
   /\ Grammar.score (analyzeGrammarFree "I like tea because it is warm.") = 90
   /\ Grammar.score (analyzeGrammarFree "i like tea") = 70).
Proof.
  assert (Hpen : Forall (fun e => 5 <= penalty e <= 10) commonErrors).
  { unfold commonErrors. repeat constructor; simpl; lia. }
  split; [| split; [simpl; lia | split; [exact Hpen | split]]].
  - intros text. exists (hasConjunction text). split; [apply hasConjunction_inside |].
    rewrite analyzeGrammarFree_score, grammarScore_spec_table. reflexivity.
  - intros text e Hm Hcap Hpunct Havg Hconj.
    assert (He : 5 <= penalty e <= 10).
    { assert (Hin : In e commonErrors).
      { apply (proj1 (filter_In (fun e => test true (pattern e) text) e commonErrors)).
        fold (matchedPatterns text). rewrite Hm. left. reflexivity. }
      exact (proj1 (Forall_forall _ _) Hpen e Hin). }
    assert (Hc : hasConjunction text = false).
    { apply not_true_iff_false. intros H. apply Hconj, hasConjunction_inside, H. }
    rewrite analyzeGrammarFree_score, grammarScore_spec_table. unfold grammarTable.
    rewrite Hm, Hcap, Hpunct, Hc. cbn [sumOfPenalties fold_right].
    destruct (Z.ltb_spec (count (wordsOf text)) (5 * Z.max (count (sentencesIn text)) 1));
      [lia |].
    rewrite Z.gtb_ltb.
    destruct (Z.ltb_spec (25 * Z.max (count (sentencesIn text)) 1) (count (wordsOf text)));
      lia.
  - repeat split; reflexivity.
Qed.

Lemma grammar_table_witness :
  matchedPatterns "He don't like coffee very much." = [heDont] /\
  ~ ConjunctionInside "He don't like coffee very much." /\
  Grammar.score (analyzeGrammarFree "He don't like coffee very much.") = 85 - 8.
Proof.
  assert (H1 : matchedPatterns "He don't like coffee very much." = [heDont]) by reflexivity.
  assert (H2 : holds isUpperAZ (firstNonBlank "He don't like coffee very much.") = true)
    by reflexivity.
  assert (H3 : holds isSentenceEnd (lastNonBlank "He don't like coffee very much.") = true)
    by reflexivity.
  assert (H4 : 5 * Z.max (count (sentencesIn "He don't like coffee very much.")) 1
               <= count (wordsOf "He don't like coffee very much.")
               <= 25 * Z.max (count (sentencesIn "He don't like coffee very much.")) 1)
    by (vm_compute; split; discriminate).
  assert (H5 : ~ ConjunctionInside "He don't like coffee very much.").
  { intros H. apply hasConjunction_inside in H. discriminate H. }
  split; [exact H1 | split; [exact H5 |]].
  exact (proj1 (proj2 (proj2 (proj2 grammar_table))) _ heDont H1 H2 H3 H4 H5).
Defined.
(** ** What [assessResponse] returns *)

Lemma isScore_round_ofZ (z : Z) : 0 <= z <= 100 -> isScore (Math_round (ofZ z)).
Proof. intros H. rewrite Math_round_ofZ. exists z. split; [reflexivity | exact H]. Qed.

Lemma isScore_round_Fin (q : Q) : (0 <= q <= 100)%Q -> isScore (Math_round (Fin q)).
Proof.
  intros H. destruct (Math_round_Fin q) as [z [E Hz]].
  exists z. split; [exact E |]. apply (nearest_bounds z 0 100 q Hz). exact H.
Qed.

Lemma analyzeGrammarFree_range (text : string) :
  0 <= Grammar.score (analyzeGrammarFree text) <= 100.
Proof. unfold analyzeGrammarFree. cbv zeta. cbn [Grammar.score]. lia. Qed.

Lemma analyzeVocabularyFree_range (text : string) :
  0 <= Vocabulary.score (analyzeVocabularyFree text) <= 100.
Proof. unfold analyzeVocabularyFree. cbv zeta. cbn [Vocabulary.score]. lia. Qed.

Lemma analyzeContentFree_range (text : string) (expectedAnswer question section : option string) :
  exists q : Q,
    Content.relevance (analyzeContentFree text expectedAnswer question section) = Fin q
    /\ (50 <= q <= 100)%Q.
Proof.
  destruct (given_cases expectedAnswer) as [H | [hint [-> [Hne _]]]].
  - rewrite (relevance_without_hint _ _ _ _ H). exists 70%Q. split; [reflexivity | lra].
  - destruct (relevance_with_hint text hint question section Hne) as [q [E Hq]].
    exists q. split; [exact E |]. rewrite Hq. apply relevance_spec_bounds.
Qed.

Lemma estimatePronunciationFromText_range (text : string) :
  75 <= estimatePronunciationFromText text <= 95.
Proof.
  unfold estimatePronunciationFromText. cbv zeta.
  repeat match goal with |- context [if ?b then _ else _] => destruct b end; lia.
Qed.

Lemma estimateFluencyFromText_range (text : string) :
  40 <= estimateFluencyFromText text <= 100.
Proof. unfold estimateFluencyFromText. cbv zeta. lia. Qed.

Lemma calculateFluencyFromRate_range (speakingRate pauseRatio : number) :
  50 <= calculateFluencyFromRate speakingRate pauseRatio <= 95.
Proof.
  unfold calculateFluencyFromRate. cbv zeta.
  repeat match goal with |- context [if ?b then _ else _] => destruct b end; lia.
Qed.

Lemma clamp_usable (x : number) : usableClarity (Math_min 100 (Math_max 50 x)).
Proof.
  unfold usableClarity. destruct x as [q | | |]; cbn.
  - intros _. destruct (Qle_bool (inject_Z 50) q) eqn:E1; cbn.
    + destruct (Qle_bool (inject_Z 100) q) eqn:E2.
      * exists (inject_Z 100). split; [reflexivity | unfold inject_Z; lra].
      * exists q. split; [reflexivity |].
        apply Qle_bool_iff in E1. apply not_true_iff_false in E2. rewrite Qle_bool_iff in E2.
        unfold inject_Z in *. lra.
    + exists (inject_Z 50). split; [reflexivity | unfold inject_Z; lra].
  - intros _. exists (inject_Z 100). split; [reflexivity | unfold inject_Z; lra].
  - intros _. exists (inject_Z 50). split; [reflexivity | unfold inject_Z; lra].
  - discriminate.
Qed.

Lemma estimateClarity_usable (channelData : list Q) (sampleRate : Q) :
  usableClarity (estimateClarity channelData sampleRate).
Proof. unfold estimateClarity. apply clamp_usable. Qed.

Lemma orElse_isScore (x : option number) (y : number) :
  match x with Some v => isScore (Math_round v) | None => True end ->
  isScore (Math_round y) ->
  isScore (Math_round (orElse x y)).
Proof.
  intros Hx Hy. destruct x as [v |]; [| exact Hy].
  unfold orElse. destruct (truthy v); assumption.
Qed.

(** Whatever path the combiner takes for a dimension, analysis or text-only
    fallback, the five fields are integers from 0 to 100. *)
Lemma combineIntelligentResults_valid
      (textResult : option TextAnalysis.t) (audioResult : option AudioMetrics)
      (userResponse : string) (expectedAnswer : option string) :
  textResultInRange textResult ->
  audioResultInRange audioResult ->
  valid (combineIntelligentResults textResult audioResult userResponse expectedAnswer).
Proof.
  intros Ht Ha. unfold valid, combineIntelligentResults.
  cbn [fluency pronunciation grammar vocabulary comprehension].
  pose proof (estimatePronunciationFromText_range userResponse) as Hp.
  pose proof (estimateFluencyFromText_range userResponse) as Hf.
  repeat split.
  - destruct audioResult as [a |]; [| apply isScore_round_ofZ; lia].
    destruct (truthy (speakingRate a)); apply isScore_round_ofZ; [| lia].
    pose proof (calculateFluencyFromRate_range (speakingRate a) (pauseRatio a)). lia.
  - destruct audioResult as [a |]; [| apply isScore_round_ofZ; lia].
    destruct (truthy (clarity a)) eqn:E; [| apply isScore_round_ofZ; lia].
    destruct (Ha E) as [q [-> Hq]]. apply isScore_round_Fin. lra.
  - apply orElse_isScore.
    + destruct textResult as [t |]; [| exact I]. cbn [option_map].
      apply isScore_round_ofZ, Ht.
    + apply isScore_round_ofZ, analyzeGrammarFree_range.
  - apply orElse_isScore.
    + destruct textResult as [t |]; [| exact I]. cbn [option_map].
      apply isScore_round_ofZ, Ht.
    + apply isScore_round_ofZ, analyzeVocabularyFree_range.
  - apply orElse_isScore.
    + destruct textResult as [t |]; [| exact I]. cbn [option_map].
      destruct Ht as [_ [_ [q [-> Hq]]]]. apply isScore_round_Fin, Hq.
    + unfold enhancedComprehensionScore.
      destruct (analyzeContentFree_range userResponse expectedAnswer None None) as [q [-> Hq]].
      apply isScore_round_Fin. lra.
Qed.

Lemma intelligentTextAnalysis_in_range
      (text : string) (expectedAnswer question section : option string) :
  exists analysis,
    intelligentTextAnalysis text expectedAnswer question section = Return analysis
    /\ textResultInRange (Some analysis).
Proof.
  eexists. split; [reflexivity |]. cbn.
  split; [apply analyzeGrammarFree_range | split; [apply analyzeVocabularyFree_range |]].
  destruct (analyzeContentFree_range text expectedAnswer question section) as [q [E Hq]].
  exists q. split; [exact E | lra].
Qed.

Lemma estimateWordCount_loop_outcome (fuel : nat) (channelData : list Q) (windowSize : Z) :
  forall i wordBoundaries,
    estimateWordCount_loop fuel channelData windowSize i wordBoundaries = Diverge
    \/ exists n, estimateWordCount_loop fuel channelData windowSize i wordBoundaries = Return n.
Proof.
  induction fuel as [| fuel IH]; intros i wordBoundaries; cbn [estimateWordCount_loop].
  - left. reflexivity.
  - destruct (i <? count channelData - windowSize); [apply IH | right; eexists; reflexivity].
Qed.

Lemma extractAudioMetrics_clarity (fuel : nat) (audioBuffer : AudioBuffer) (metrics : AudioMetrics) :
  extractAudioMetrics fuel audioBuffer = Return metrics ->
  clarity metrics = estimateClarity (channelData audioBuffer) (sampleRate audioBuffer).
Proof.
  unfold extractAudioMetrics. cbv zeta.
  destruct (estimateWordCount fuel (channelData audioBuffer) (sampleRate audioBuffer));
    cbn [bind]; try discriminate.
  destruct (calculateVolumeVariation fuel (channelData audioBuffer)); cbn [bind];
    try discriminate.
  intros E. injection E as <-. reflexivity.
Qed.

(** The audio analysis ends in [null], in metrics whose clarity is usable,
    or not at all; what it throws is caught. *)
Lemma freeAudioAnalysis_outcome (fuel : nat) (audioBlob : Blob) :
  freeAudioAnalysis fuel audioBlob = Diverge
  \/ exists audioResult,
      freeAudioAnalysis fuel audioBlob = Return audioResult /\ audioResultInRange audioResult.
Proof.
  unfold freeAudioAnalysis. destruct audioBlob as [audioBuffer |]; cbn [blobToAudioBuffer bind].
  - destruct (extractAudioMetrics fuel audioBuffer) as [metrics | |] eqn:E; cbn [bind try_catch].
    + right. eexists. split; [reflexivity |]. cbn [audioResultInRange].
      rewrite (extractAudioMetrics_clarity _ _ _ E). apply estimateClarity_usable.
    + right. exists None. split; [reflexivity | exact I].
    + left. reflexivity.
  - right. exists None. split; [reflexivity | exact I].
Qed.

(** Partial correctness of the entry point: when [assessResponse] returns,
    it returns five integers from 0 to 100, and never the object of the
    [catch] arm. *)
Lemma assessResponse_sound (fuel : nat) (sec userResponse : string) (audioBlob : option Blob)
      (expectedAnswer question : option string) :
  assessResponse fuel sec userResponse audioBlob expectedAnswer question = Diverge
  \/ exists parameters,
      assessResponse fuel sec userResponse audioBlob expectedAnswer question
      = Return (Numbers parameters)
      /\ valid parameters.
Proof.
  unfold assessResponse.
  destruct (intelligentTextAnalysis_in_range userResponse expectedAnswer question (Some sec))
    as [analysis [-> Ht]].
  cbn [settle bind].
  assert (Haudio :
            match audioBlob with
            | Some audioBlob => freeAudioAnalysis fuel audioBlob
            | None => Return None
            end = Diverge
            \/ exists audioResult,
                match audioBlob with
                | Some audioBlob => freeAudioAnalysis fuel audioBlob
                | None => Return None
                end = Return audioResult /\ audioResultInRange audioResult).
  { destruct audioBlob as [blob |]; [apply freeAudioAnalysis_outcome |].
    right. exists None. split; [reflexivity | exact I]. }
  destruct Haudio as [-> | [audioResult [-> Ha]]]; cbn [settle bind try_catch].
  - left. reflexivity.
  - right. eexists. split; [reflexivity |].
    apply combineIntelligentResults_valid; assumption.
Qed.


(** *** More fuel changes no result *)

Lemma estimateWordCount_loop_fuel (channelData : list Q) (windowSize : Z) :
  forall (fuel fuel' : nat) (i wordBoundaries n : Z),
    (fuel <= fuel')%nat ->
    estimateWordCount_loop fuel channelData windowSize i wordBoundaries = Return n ->
    estimateWordCount_loop fuel' channelData windowSize i wordBoundaries = Return n.
Proof.
  induction fuel as [| fuel IH]; intros fuel' i wordBoundaries n Hle;
    cbn [estimateWordCount_loop]; [discriminate |].
  destruct fuel' as [| fuel']; [lia |]. cbn [estimateWordCount_loop].
  destruct (i <? count channelData - windowSize); [| trivial].
  apply IH. lia.
Qed.

Lemma calculateVolumeVariation_loop_fuel (channelData : list Q) (windowSize : Z) :
  forall (fuel fuel' : nat) (i : Z) (volumes : list number),
    (fuel <= fuel')%nat ->
    calculateVolumeVariation_loop fuel channelData windowSize i volumes <> Diverge ->
    calculateVolumeVariation_loop fuel' channelData windowSize i volumes
    = calculateVolumeVariation_loop fuel channelData windowSize i volumes.
Proof.
  induction fuel as [| fuel IH]; intros fuel' i volumes Hle;
    cbn [calculateVolumeVariation_loop]; [congruence |].
  destruct fuel' as [| fuel']; [lia |]. cbn [calculateVolumeVariation_loop].
  destruct (i <? count channelData); [| reflexivity].
  destruct (push volumes _) as [volumes' | |]; cbn [bind]; try reflexivity.
  apply IH. lia.
Qed.

Lemma extractAudioMetrics_fuel (fuel fuel' : nat) (audioBuffer : AudioBuffer) :
  (fuel <= fuel')%nat ->
  extractAudioMetrics fuel audioBuffer <> Diverge ->
  extractAudioMetrics fuel' audioBuffer = extractAudioMetrics fuel audioBuffer.
Proof.
  intros Hle. unfold extractAudioMetrics, estimateWordCount, calculateVolumeVariation.
  cbv zeta.
  destruct (estimateWordCount_loop fuel (channelData audioBuffer) _ 0 0) as [n | |] eqn:E1;
    cbn [bind]; try congruence.
  - rewrite (estimateWordCount_loop_fuel _ _ fuel fuel' 0 0 n Hle E1). cbn [bind].
    destruct (calculateVolumeVariation_loop fuel (channelData audioBuffer) _ 0 [])
      as [w | |] eqn:E2; cbn [bind]; try congruence; intros _;
      rewrite (calculateVolumeVariation_loop_fuel _ _ fuel fuel' 0 [] Hle)
        by (rewrite E2; discriminate);
      rewrite E2; reflexivity.
  - exfalso. clear - E1.
    destruct (estimateWordCount_loop_outcome fuel (channelData audioBuffer)
                (Qfloor (sampleRate audioBuffer * 0.1)) 0 0) as [H | [n H]]; congruence.
Qed.

Lemma assessResponse_fuel (fuel fuel' : nat) (sec userResponse : string)
      (audioBlob : option Blob) (expectedAnswer question : option string) :
  (fuel <= fuel')%nat ->
  assessResponse fuel sec userResponse audioBlob expectedAnswer question <> Diverge ->
  assessResponse fuel' sec userResponse audioBlob expectedAnswer question
  = assessResponse fuel sec userResponse audioBlob expectedAnswer question.
Proof.
  intros Hle. destruct audioBlob as [[audioBuffer |] |]; try reflexivity.
  unfold assessResponse, freeAudioAnalysis.
  cbn [intelligentTextAnalysis settle bind blobToAudioBuffer].
  destruct (extractAudioMetrics fuel audioBuffer) as [metrics | |] eqn:E;
    cbn [bind try_catch settle]; try congruence; intros _;
    rewrite (extractAudioMetrics_fuel fuel fuel' audioBuffer Hle) by (rewrite E; discriminate);
    rewrite E; reflexivity.
Qed.

(** *** Audio long enough to analyse *)

Lemma estimateWordCount_loop_terminates (channelData : list Q) (windowSize : Z) :
  0 < windowSize ->
  forall fuel i wordBoundaries,
    Z.max 0 (count channelData - windowSize - i) < Z.of_nat fuel ->
    exists n, estimateWordCount_loop fuel channelData windowSize i wordBoundaries = Return n.
Proof.
  intros Hw. induction fuel as [| fuel IH]; intros i wordBoundaries Hfuel;
    cbn [estimateWordCount_loop].
  - lia.
  - destruct (Z.ltb_spec i (count channelData - windowSize)) as [Hi | Hi].
    + apply IH. lia.
    + eexists. reflexivity.
Qed.

Lemma count_snoc {A : Type} (l : list A) (x : A) : count (l ++ [x]) = count l + 1.
Proof. unfold count. rewrite length_app. cbn [List.length]. lia. Qed.

(** With a positive stride the loop makes fewer windows than an array can
    hold, as long as the samples are at most [maxArrayLength] windows. *)
Lemma calculateVolumeVariation_loop_terminates (channelData : list Q) (windowSize : Z) :
  0 < windowSize ->
  count channelData <= maxArrayLength * windowSize ->
  forall fuel i volumes,
    Z.max 0 (count channelData - i) < Z.of_nat fuel ->
    count volumes * windowSize <= i ->
    exists w, calculateVolumeVariation_loop fuel channelData windowSize i volumes = Return w.
Proof.
  intros Hw Hmax. induction fuel as [| fuel IH]; intros i volumes Hfuel Hinv;
    cbn [calculateVolumeVariation_loop].
  - lia.
  - destruct (Z.ltb_spec i (count channelData)) as [Hi | Hi].
    + unfold push. destruct (Z.ltb_spec (count volumes) maxArrayLength) as [Hc | Hc].
      * cbn [bind]. apply IH; [lia |]. rewrite count_snoc. lia.
      * exfalso. nia.
    + eexists. reflexivity.
Qed.

Lemma twenty_windows (n : Z) : 20 <= n -> 0 < n / 20 /\ n <= maxArrayLength * (n / 20).
Proof.
  intros H. assert (H1 : 1 <= n / 20) by (apply Z.div_le_lower_bound; lia).
  pose proof (Z.mod_pos_bound n 20 eq_refl) as Hm.
  pose proof (Z.div_mod n 20) as Hd. unfold maxArrayLength. lia.
Qed.

(** Twenty samples or more, at ten samples a second or more: the analysis
    ends as soon as the fuel exceeds the number of samples. *)
Lemma extractAudioMetrics_terminates (fuel : nat) (audioBuffer : AudioBuffer) :
  (20 <= List.length (channelData audioBuffer))%nat ->
  (10 <= sampleRate audioBuffer)%Q ->
  (List.length (channelData audioBuffer) < fuel)%nat ->
  exists metrics, extractAudioMetrics fuel audioBuffer = Return metrics.
Proof.
  intros Hlen Hrate Hfuel.
  unfold extractAudioMetrics, estimateWordCount, calculateVolumeVariation. cbv zeta.
  assert (Hw1 : 0 < Qfloor (sampleRate audioBuffer * 0.1)).
  { assert (H : Qfloor 1 <= Qfloor (sampleRate audioBuffer * 0.1)) by (apply Qfloor_resp_le; lra).
    change (Qfloor 1) with 1 in H. lia. }
  destruct (twenty_windows (count (channelData audioBuffer))) as [Hw2 Hw3];
    [unfold count; lia |].
  destruct (estimateWordCount_loop_terminates (channelData audioBuffer) _ Hw1 fuel 0 0)
    as [n ->]; [unfold count; lia |].
  cbn [bind].
  destruct (calculateVolumeVariation_loop_terminates (channelData audioBuffer) _ Hw2 Hw3 fuel 0 [])
    as [w ->]; [unfold count; lia | unfold count; cbn; lia |].
  cbn [bind]. eexists. reflexivity.
Qed.

Lemma assessResponse_with_long_audio (fuel : nat) (sec userResponse : string)
      (audioBuffer : AudioBuffer) (expectedAnswer question : option string) :
  (20 <= List.length (channelData audioBuffer))%nat ->
  (10 <= sampleRate audioBuffer)%Q ->
  (List.length (channelData audioBuffer) < fuel)%nat ->
  exists parameters,
    assessResponse fuel sec userResponse (Some (Some audioBuffer)) expectedAnswer question
    = Return (Numbers parameters)
    /\ valid parameters.
Proof.
  intros Hlen Hrate Hfuel.
  destruct (assessResponse_sound fuel sec userResponse (Some (Some audioBuffer))
              expectedAnswer question) as [H | H]; [| exact H].
  exfalso. revert H. unfold assessResponse, freeAudioAnalysis.
  cbn [intelligentTextAnalysis settle bind blobToAudioBuffer].
  destruct (extractAudioMetrics_terminates fuel audioBuffer Hlen Hrate Hfuel) as [metrics ->].
  discriminate.
Qed.

(** *** Audio too short to analyse *)

(** On 1 to 19 samples the stride [Math.floor(length / 20)] is 0: the loop
    stays at [i = 0] and pushes until the array is full. *)
Lemma calculateVolumeVariation_loop_full (channelData : list Q) :
  0 < count channelData ->
  forall fuel volumes,
    count volumes <= maxArrayLength ->
    maxArrayLength - count volumes < Z.of_nat fuel ->
    calculateVolumeVariation_loop fuel channelData 0 0 volumes = Throw.
Proof.
  intros Hlen. induction fuel as [| fuel IH]; intros volumes Hmax Hfuel;
    cbn [calculateVolumeVariation_loop].
  - lia.
  - destruct (Z.ltb_spec 0 (count channelData)) as [_ | H]; [| lia].
    unfold push. destruct (Z.ltb_spec (count volumes) maxArrayLength) as [Hc | Hc];
      cbn [bind]; [| reflexivity].
    apply IH; rewrite count_snoc; lia.
Qed.

Lemma enoughFuel_spec (n : Z) (fuel : nat) :
  (enoughFuel n <= fuel)%nat -> maxArrayLength + 1 + n <= Z.of_nat fuel.
Proof. unfold enoughFuel. lia. Qed.

Lemma extractAudioMetrics_short (fuel : nat) (audioBuffer : AudioBuffer) :
  (0 < List.length (channelData audioBuffer) < 20)%nat ->
  (10 <= sampleRate audioBuffer)%Q ->
  (enoughFuel (count (channelData audioBuffer)) <= fuel)%nat ->
  extractAudioMetrics fuel audioBuffer = Throw.
Proof.
  intros Hlen Hrate Hfuel. apply enoughFuel_spec in Hfuel.
  assert (Hmax : 0 <= maxArrayLength) by (unfold maxArrayLength; lia).
  unfold extractAudioMetrics, estimateWordCount, calculateVolumeVariation. cbv zeta.
  assert (Hw1 : 0 < Qfloor (sampleRate audioBuffer * 0.1)).
  { assert (H : Qfloor 1 <= Qfloor (sampleRate audioBuffer * 0.1)) by (apply Qfloor_resp_le; lra).
    change (Qfloor 1) with 1 in H. lia. }
  destruct (estimateWordCount_loop_terminates (channelData audioBuffer) _ Hw1 fuel 0 0)
    as [n ->]; [unfold count in *; lia |].
  cbn [bind].
  rewrite Z.div_small by (unfold count; lia).
  rewrite calculateVolumeVariation_loop_full; [reflexivity | unfold count; lia | |];
    unfold count in *; cbn [List.length]; lia.
Qed.

(** Decoded audio at ten samples a second or more is analysed or given up
    once the fuel suffices, whatever its length. *)
Lemma extractAudioMetrics_ends (fuel : nat) (audioBuffer : AudioBuffer) :
  (10 <= sampleRate audioBuffer)%Q ->
  (enoughFuel (count (channelData audioBuffer)) <= fuel)%nat ->
  extractAudioMetrics fuel audioBuffer <> Diverge.
Proof.
  intros Hrate Hfuel. pose proof (enoughFuel_spec _ _ Hfuel) as Hz.
  assert (Hmax : 0 <= maxArrayLength) by (unfold maxArrayLength; lia).
  set (n := List.length (channelData audioBuffer)).
  destruct (Nat.eq_dec n 0) as [E0 | Hpos].
  - unfold extractAudioMetrics, estimateWordCount, calculateVolumeVariation. cbv zeta.
    assert (Hw1 : 0 < Qfloor (sampleRate audioBuffer * 0.1)).
    { assert (H : Qfloor 1 <= Qfloor (sampleRate audioBuffer * 0.1))
        by (apply Qfloor_resp_le; lra).
      change (Qfloor 1) with 1 in H. lia. }
    destruct (estimateWordCount_loop_terminates (channelData audioBuffer) _ Hw1 fuel 0 0)
      as [w ->]; [unfold count in *; lia |].
    cbn [bind]. destruct fuel as [| fuel]; [unfold count in Hz; lia |].
    cbn [calculateVolumeVariation_loop].
    destruct (Z.ltb_spec 0 (count (channelData audioBuffer))) as [H | H];
      [unfold count in H; fold n in H; lia |].
    cbn [bind]. discriminate.
  - destruct (Nat.lt_ge_cases n 20) as [Hshort | Hlong].
    + rewrite extractAudioMetrics_short; [discriminate | fold n; lia | exact Hrate | exact Hfuel].
    + destruct (extractAudioMetrics_terminates fuel audioBuffer) as [metrics ->];
        [fold n; lia | exact Hrate | unfold count in Hz; lia | discriminate].
Qed.

(** Audio of 1 to 19 samples is scored as if there were none. *)
Lemma assessResponse_short_audio (fuel : nat) (sec userResponse : string)
      (audioBuffer : AudioBuffer) (expectedAnswer question : option string) :
  (0 < List.length (channelData audioBuffer) < 20)%nat ->
  (10 <= sampleRate audioBuffer)%Q ->
  (enoughFuel (count (channelData audioBuffer)) <= fuel)%nat ->
  assessResponse fuel sec userResponse (Some (Some audioBuffer)) expectedAnswer question
  = assessResponse fuel sec userResponse None expectedAnswer question.
Proof.
  intros Hlen Hrate Hfuel. unfold assessResponse, freeAudioAnalysis.
  cbn [intelligentTextAnalysis settle bind blobToAudioBuffer].
  rewrite (extractAudioMetrics_short fuel audioBuffer Hlen Hrate Hfuel). reflexivity.
Qed.

(** *** The entry point returns (C1) *)

(** C1. Whatever the section, the transcript, the hint and the question, and
    whether there is no audio, audio that does not decode (the analysis
    throws and [null] stands in for its result), or decoded audio of any
    length at ten samples a second or more (decoding resamples to the rate
    of the [AudioContext], thousands of samples a second; on 1 to 19 samples
    the analysis throws as well), [assessResponse] returns, and what it
    returns is a [ScoringParameters] whose five fields are integers from 0
    to 100: there is an amount of fuel from which on the result is that same
    object. *)
Theorem assessResponse_returns_valid_scores
        (sec userResponse : string) (audioBlob : option Blob)
        (expectedAnswer question : option string) :
  (forall audioBuffer,
      audioBlob = Some (Some audioBuffer) -> (10 <= sampleRate audioBuffer)%Q) ->
  exists parameters,
    valid parameters /\
    exists enough : nat,
    forall fuel, (enough <= fuel)%nat ->
      assessResponse fuel sec userResponse audioBlob expectedAnswer question
      = Return (Numbers parameters).
Proof.
  intros Hrate.
  set (enough := match audioBlob with
                 | Some (Some audioBuffer) => enoughFuel (count (channelData audioBuffer))
                 | _ => O
                 end).
  assert (Hends : assessResponse enough sec userResponse audioBlob expectedAnswer question
                  <> Diverge).
  { destruct audioBlob as [[audioBuffer |] |]; try discriminate.
    pose proof (extractAudioMetrics_ends enough audioBuffer (Hrate audioBuffer eq_refl)
                  (Nat.le_refl _)) as H.
    unfold assessResponse, freeAudioAnalysis.
    cbn [intelligentTextAnalysis settle bind blobToAudioBuffer].
    destruct (extractAudioMetrics enough audioBuffer); [discriminate | discriminate | congruence]. }
  destruct (assessResponse_sound enough sec userResponse audioBlob expectedAnswer question)
    as [H | [parameters [E Hvalid]]]; [contradiction |].
  exists parameters. split; [exact Hvalid |]. exists enough. intros fuel Hfuel.
  rewrite (assessResponse_fuel enough fuel) by assumption. exact E.
Qed.

Lemma assessResponse_returns_valid_scores_witness :
  exists parameters,
    valid parameters /\
    exists enough : nat,
    forall fuel, (enough <= fuel)%nat ->
      assessResponse fuel "A" "Hello there." (Some (Some tenSamples)) None None
      = Return (Numbers parameters).
Proof.
  apply assessResponse_returns_valid_scores.
  intros audioBuffer E. injection E as <-. unfold Qle. cbn. lia.
Defined.

(** Ten samples: the analysis fills its array and throws, and the scores
    are those of the text. *)
Example assessResponse_of_ten_samples (fuel : nat) :
  (enoughFuel 10 <= fuel)%nat ->
  assessResponse fuel "A" "Hello there." (Some (Some tenSamples)) None None
  = Return (Numbers {| fluency := 70; pronunciation := 75; grammar := 80; vocabulary := 90;
                       comprehension := 70 |}).
Proof.
  intros Hfuel. rewrite assessResponse_short_audio.
  - reflexivity.
  - cbn. lia.
  - unfold Qle. cbn. lia.
  - exact Hfuel.
Qed.

(** ** Empty and blank transcripts (C9) *)



Lemma whitespace_not_lower (c : ascii) : isWhiteSpace c = true -> isLowerAZ c = false.
Proof. by_cases_on c. Qed.




















Lemma includes_empty (s : string) : includes s EmptyString = true.
Proof. destruct s; reflexivity. Qed.


Lemma filter_all {A : Type} (f : A -> bool) (l : list A) :
  (forall x, f x = true) -> filter f l = l.
Proof.
  intros H. induction l as [| x l IH]; simpl; [reflexivity |]. rewrite H, IH. reflexivity.
Qed.


Lemma Math_round_Qeq (q : Q) (z : Z) : (q == inject_Z z)%Q -> Math_round (Fin q) = ofZ z.
Proof.
  intros E. unfold Math_round, ofZ. do 2 f_equal.
  apply (nearest_unique _ _ q); [apply Qfloor_half_nearest |].
  apply (nearest_Qeq z (inject_Z z)); [symmetry; exact E | apply nearest_integer].
Qed.








(** ** The vocabulary table (C6) *)

(** C6, where the code departs from it.  In the transcript below the word
    "constructor" is longer than 3 and occurs three times, so the table takes
    3 points off: 60 + 10 + 15 + 15 - 3 = 97.  [findWordRepetitions] counts in
    an object literal, where the key "constructor" first reads as the
    function inherited from [Object.prototype]; adding 1 to it makes a
    string, the count is never a number, and the word is not reported: the
    code returns 100.  Any other word repeated in the same way is counted,
    and the empty transcript scores the base 60. *)
Theorem vocabulary_constructor_not_counted :
  vocabularyWords "constructor constructor constructor"
  = ["constructor"; "constructor"; "constructor"] /\
  repeatedWords (vocabularyWords "constructor constructor constructor") = ["constructor"] /\
  findWordRepetitions (vocabularyWords "constructor constructor constructor") = [] /\
  Z.max 0 (Z.min 100 (vocabularyScore_spec "constructor constructor constructor")) = 97 /\
  Vocabulary.score (analyzeVocabularyFree "constructor constructor constructor") = 100 /\
  Vocabulary.score (analyzeVocabularyFree "destructor destructor destructor") = 97 /\
  Vocabulary.score (analyzeVocabularyFree EmptyString) = 60.
Proof. repeat split; reflexivity. Qed.

(** *** Where the code and the table agree *)

Lemma Set_of_snoc (l : list string) (x : string) : Set_of (l ++ [x]) = Set_add (Set_of l) x.
Proof. unfold Set_of. rewrite fold_left_app. reflexivity. Qed.

Lemma In_Set_of (l : list string) (x : string) : In x (Set_of l) <-> In x l.
Proof.
  revert x. induction l as [| y l IH] using rev_ind; intros x; [reflexivity |].
  rewrite Set_of_snoc, in_app_iff. unfold Set_add.
  destruct (Array_includes (Set_of l) y) eqn:E.
  - rewrite IH. apply Array_includes_spec in E. rewrite IH in E.
    split; [tauto |]. intros [H | [<- | []]]; assumption.
  - rewrite in_app_iff, IH. reflexivity.
Qed.

Lemma NoDup_Set_of (l : list string) : NoDup (Set_of l).
Proof.
  induction l as [| y l IH] using rev_ind; [constructor |].
  rewrite Set_of_snoc. unfold Set_add.
  destruct (Array_includes (Set_of l) y) eqn:E; [exact IH |].
  apply NoDup_app; [exact IH | repeat constructor; intros [] |].
  intros a Ha [<- | []].
  apply Array_includes_spec in Ha. congruence.
Qed.

Lemma Set_of_filter (f : string -> bool) (l : list string) :
  Set_of (filter f l) = filter f (Set_of l).
Proof.
  induction l as [| x l IH] using rev_ind; [reflexivity |].
  rewrite filter_app, (Set_of_snoc l x). cbn [filter].
  assert (Hinc : f x = true ->
                 Array_includes (filter f (Set_of l)) x = Array_includes (Set_of l) x).
  { intros Hx. apply eq_true_iff_eq. rewrite !Array_includes_spec, filter_In. tauto. }
  destruct (f x) eqn:Hx.
  - rewrite Set_of_snoc, IH. unfold Set_add. rewrite (Hinc eq_refl).
    destruct (Array_includes (Set_of l) x); [reflexivity |].
    rewrite filter_app. cbn [filter]. rewrite Hx. reflexivity.
  - rewrite app_nil_r, IH. unfold Set_add.
    destruct (Array_includes (Set_of l) x); [reflexivity |].
    rewrite filter_app. cbn [filter]. rewrite Hx, app_nil_r. reflexivity.
Qed.

Lemma occurrences_snoc (k w : string) (l : list string) :
  occurrences k (l ++ [w]) = occurrences k l + (if String.eqb k w then 1 else 0).
Proof.
  unfold occurrences, count. rewrite filter_app, length_app. cbn [filter].
  destruct (String.eqb k w); simpl; lia.
Qed.

Lemma occurrences_absent (k : string) (l : list string) : ~ In k l -> occurrences k l = 0.
Proof.
  intros H. unfold occurrences, count.
  induction l as [| y l IH]; [reflexivity |]. cbn [filter].
  destruct (String.eqb_spec k y) as [-> | _]; [exfalso; apply H; left; reflexivity |].
  apply IH. intros Hin. apply H. right. exact Hin.
Qed.

Lemma occurrences_filter (f : string -> bool) (k : string) (l : list string) :
  f k = true -> occurrences k (filter f l) = occurrences k l.
Proof.
  intros Hk. unfold occurrences. f_equal.
  induction l as [| y l IH]; [reflexivity |]. cbn [filter].
  destruct (f y) eqn:Hy; cbn [filter]; rewrite IH; [reflexivity |].
  destruct (String.eqb_spec k y) as [-> | _]; [congruence | reflexivity].
Qed.

Lemma getOwn_map_present (g : string -> value) (keys : list string) (k : string) :
  In k keys -> getOwn (map (fun x => (x, g x)) keys) k = Some (g k).
Proof.
  induction keys as [| x keys IH]; [intros [] |]. intros Hin. cbn [map getOwn].
  destruct (String.eqb_spec x k) as [-> | Hne]; [reflexivity |].
  apply IH. destruct Hin as [E | H]; [contradiction | exact H].
Qed.

Lemma getOwn_map_absent (g : string -> value) (keys : list string) (k : string) :
  ~ In k keys -> getOwn (map (fun x => (x, g x)) keys) k = None.
Proof.
  induction keys as [| x keys IH]; [reflexivity |]. intros Hin. cbn [map getOwn].
  destruct (String.eqb_spec x k) as [-> | Hne]; [exfalso; apply Hin; left; reflexivity |].
  apply IH. intros H. apply Hin. right. exact H.
Qed.

Lemma set_absent (o : object) (k : string) (v : value) :
  getOwn o k = None -> set o k v = (o ++ [(k, v)])%list.
Proof.
  induction o as [| [x w] o IH]; [reflexivity |]. cbn [getOwn set].
  destruct (String.eqb x k); [discriminate |]. intros H. rewrite (IH H). reflexivity.
Qed.

Lemma set_present (g : string -> value) (keys : list string) (k : string) (v : value) :
  NoDup keys -> In k keys ->
  set (map (fun x => (x, g x)) keys) k v
  = map (fun x => (x, if String.eqb x k then v else g x)) keys.
Proof.
  induction keys as [| x keys IH]; [intros _ [] |]. intros Hnd Hin.
  inversion Hnd as [| ? ? Hx Hnd']; subst. cbn [map set].
  destruct (String.eqb_spec x k) as [-> | Hne].
  - f_equal. apply map_ext_in. intros y Hy.
    destruct (String.eqb_spec y k) as [-> | _]; [contradiction | reflexivity].
  - f_equal. apply IH; [exact Hnd' |]. destruct Hin as [E | H]; [contradiction | exact H].
Qed.

Lemma countWord_counted (words : list string) (w : string) :
  Array_includes Object_prototype w = false ->
  countWord (counted words) w = counted (words ++ [w]).
Proof.
  intros Hproto. unfold countWord, counted, get. rewrite Set_of_snoc. unfold Set_add.
  destruct (Array_includes (Set_of words) w) eqn:E.
  - apply Array_includes_spec in E.
    rewrite (getOwn_map_present (fun k => VNumber (occurrences k words)) _ _ E).
    cbn [orZeroPlusOne]. rewrite set_present by (apply NoDup_Set_of || exact E).
    apply map_ext. intros k. rewrite occurrences_snoc.
    destruct (String.eqb_spec k w) as [-> | _]; [reflexivity |].
    rewrite Z.add_0_r. reflexivity.
  - assert (Hw : ~ In w (Set_of words)).
    { intros H. apply Array_includes_spec in H. congruence. }
    rewrite (getOwn_map_absent (fun k => VNumber (occurrences k words)) _ _ Hw), Hproto.
    cbn [orZeroPlusOne].
    rewrite set_absent by (apply getOwn_map_absent; exact Hw).
    rewrite map_app. cbn [map]. rewrite occurrences_snoc, String.eqb_refl.
    rewrite (occurrences_absent w words) by (rewrite <- In_Set_of; exact Hw).
    f_equal. apply map_ext_in. intros k Hk. rewrite occurrences_snoc.
    destruct (String.eqb_spec k w) as [-> | _]; [contradiction |].
    rewrite Z.add_0_r. reflexivity.
Qed.

Lemma countWord_fold (rest : list string) :
  forall words,
    (forall w, In w rest -> Array_includes Object_prototype w = false) ->
    fold_left countWord rest (counted words) = counted (words ++ rest).
Proof.
  induction rest as [| w rest IH]; intros words Hproto; cbn [fold_left].
  - rewrite app_nil_r. reflexivity.
  - rewrite countWord_counted by (apply Hproto; left; reflexivity).
    rewrite IH by (intros x Hx; apply Hproto; right; exact Hx).
    rewrite <- app_assoc. reflexivity.
Qed.

Lemma fold_left_when {A : Type} (f : A -> string -> A) (p : string -> bool) (l : list string) :
  forall a, fold_left (fun a x => if p x then f a x else a) l a = fold_left f (filter p l) a.
Proof.
  induction l as [| x l IH]; intros a; cbn [fold_left filter]; [reflexivity |].
  destruct (p x); cbn [fold_left]; apply IH.
Qed.

Lemma filter_both {A : Type} (f g : A -> bool) (l : list A) :
  filter (fun x => f x && g x) l = filter g (filter f l).
Proof.
  induction l as [| x l IH]; [reflexivity |]. cbn [filter].
  destruct (f x); cbn [andb filter]; [destruct (g x) |]; rewrite IH; reflexivity.
Qed.

(** Away from the keys of [Object.prototype], [findWordRepetitions] returns
    the distinct words longer than 3 that occur more than twice. *)
Lemma findWordRepetitions_repeatedWords (words : list string) :
  (forall w, In w words -> Array_includes Object_prototype w = false) ->
  findWordRepetitions words = repeatedWords words.
Proof.
  intros Hproto. unfold findWordRepetitions, repeatedWords.
  set (long := fun word : string => len word >? 3).
  assert (E : fold_left
                (fun (wordCount : object) (word : string) =>
                   if len word >? 3
                   then set wordCount word (orZeroPlusOne (get wordCount word))
                   else wordCount)
                words []
              = counted (filter long words)).
  { change (fold_left (fun o w => if long w then countWord o w else o) words (counted [])
            = counted ([] ++ filter long words)).
    rewrite fold_left_when. apply countWord_fold.
    intros w Hw. apply Hproto. apply filter_In in Hw. tauto. }
  rewrite E.
  unfold Object_keys, counted at 2. rewrite map_map. cbn [fst]. rewrite map_id.
  rewrite (filter_both long), <- (Set_of_filter long words).
  apply filter_ext_in. intros k Hk.
  assert (Hk' : In k (filter long words)) by (apply In_Set_of; exact Hk).
  unfold get, counted.
  rewrite (getOwn_map_present (fun k => VNumber (occurrences k (filter long words))) _ _ Hk).
  cbn [greaterThanTwo].
  rewrite occurrences_filter; [reflexivity |]. apply filter_In in Hk'. tauto.
Qed.

Lemma gt_guarded (a total : Z) (t : Q) :
  0 <= total -> (total = 0 -> a = 0) ->
  (ofZ a / ofZ (Z.max total 1) >? Fin t)%num = Qgtb (ratio a total) t.
Proof.
  intros Ht Ha. unfold ratio. destruct (Z.eqb_spec total 0) as [E | E].
  - rewrite (Ha E), E. reflexivity.
  - replace (Z.max total 1) with total by lia.
    unfold ofZ at 1. rewrite divide_Fin by exact E. reflexivity.
Qed.

Lemma sumOfLengths_nil_iff (words : list string) : count words = 0 -> sumOfLengths words = 0.
Proof. destruct words; [reflexivity | unfold count; simpl; lia]. Qed.

Lemma analyzeVocabularyFree_score (text : string) :
  (forall w, In w (vocabularyWords text) -> Array_includes Object_prototype w = false) ->
  Vocabulary.score (analyzeVocabularyFree text)
  = Z.max 0 (Z.min 100 (vocabularyScore_spec text)).
Proof.
  intros Hproto. unfold analyzeVocabularyFree, vocabularyScore_spec. cbv zeta.
  cbn [Vocabulary.score]. fold (vocabularyWords text).
  set (words := vocabularyWords text) in *.
  fold (sumOfLengths words).
  rewrite (findWordRepetitions_repeatedWords words Hproto).
  assert (H0 : 0 <= count words) by apply count_nonneg.
  assert (H1 : count words = 0 -> count (Set_of words) = 0).
  { destruct words; [reflexivity | unfold count; simpl; lia]. }
  assert (H2 : count words = 0 -> count (filter isAdvancedWord words) = 0).
  { destruct words; [reflexivity | unfold count; simpl; lia]. }
  rewrite !(gt_guarded (count (Set_of words)) (count words)) by assumption.
  rewrite !(gt_guarded (count (filter isAdvancedWord words)) (count words)) by assumption.
  change (ofZ 6) with (Fin 6%Q). change (ofZ 5) with (Fin 5%Q). change (ofZ 4) with (Fin 4%Q).
  rewrite !(gt_guarded (sumOfLengths words) (count words))
    by (assumption || apply sumOfLengths_nil_iff).
  unfold diversityBonus, lengthBonus, advancedBonus.
  do 2 f_equal.
  pose proof (count_nonneg (repeatedWords words)) as Hr.
  destruct (Z.gtb_spec (count (repeatedWords words)) 0);
    repeat match goal with |- context [if ?b then _ else _] => destruct b end; lia.
Qed.

(** *** The words of a transcript are runs of the letters a-z *)

Lemma starClass_consumes (p : ascii -> bool) (k : kont) (s : string) :
  forall prev rest,
    starClass p prev s k = Some rest ->
    exists m s' prev',
      s = m ++ s' /\ k prev' s' = Some rest
      /\ (forall c, In c (list_ascii_of_string m) -> p c = true).
Proof.
  induction s as [| c s IH]; intros prev rest H; cbn [starClass] in H.
  - exists EmptyString, EmptyString, prev. repeat split; [exact H | intros c []].
  - destruct (p c) eqn:Hc.
    + destruct (starClass p (Some c) s k) as [r |] eqn:E.
      * injection H as <-. destruct (IH _ _ E) as [m [s' [prev' [-> [Hk Hm]]]]].
        exists (String c m), s', prev'. repeat split; [exact Hk |].
        intros x [<- | Hx]; [exact Hc | apply Hm, Hx].
      * exists EmptyString, (String c s), prev. repeat split; [exact H | intros x []].
    + exists EmptyString, (String c s), prev. repeat split; [exact H | intros x []].
Qed.

Lemma lowerCaseLetters_spec (m : string) :
  (forall c, In c (list_ascii_of_string m) -> isLowerAZ c = true) -> lowerCaseLetters m = true.
Proof.
  induction m as [| c m IH]; intros H; [reflexivity |]. cbn [lowerCaseLetters].
  rewrite (H c) by (left; reflexivity). apply IH. intros x Hx. apply H. right. exact Hx.
Qed.

Lemma matchAt_lower_word (prev : option ascii) (s rest : string) :
  matchAt false re_lower_word prev s = Some rest ->
  exists m, s = m ++ rest /\ lowerCaseLetters m = true.
Proof.
  unfold matchAt, re_lower_word, wordBounded. cbn [rmatch].
  destruct (xorb (isWordOpt prev) (isWordOpt (next s))); [| discriminate].
  destruct s as [| c s]; [discriminate |].
  destruct (isLowerAZ c) eqn:Hc; [| discriminate].
  intros H. apply starClass_consumes in H as [m [s' [prev' [-> [Hk Hm]]]]].
  destruct (xorb (isWordOpt prev') (isWordOpt (next s'))); [| discriminate].
  injection Hk as ->. exists (String c m). split; [reflexivity |].
  cbn [lowerCaseLetters]. rewrite Hc. apply lowerCaseLetters_spec, Hm.
Qed.

Lemma length_append (m rest : string) :
  String.length (m ++ rest) = (String.length m + String.length rest)%nat.
Proof. induction m as [| c m IH]; simpl; [reflexivity | rewrite IH; reflexivity]. Qed.

Lemma matched_prefix (m rest : string) : matched (m ++ rest) rest = m.
Proof.
  unfold matched.
  replace (String.length (m ++ rest) - String.length rest)%nat with (String.length m)
    by (rewrite length_append; lia). induction m as [| c m IH]; simpl.
  - destruct rest; reflexivity.
  - rewrite IH. reflexivity.
Qed.

Lemma matchAllFrom_lower_word (s : string) :
  forall skip prev w,
    In w (matchAllFrom false re_lower_word skip prev s) -> lowerCaseLetters w = true.
Proof.
  induction s as [| c s IH]; intros skip prev w; cbn [matchAllFrom].
  - destruct skip; [| intros []].
    destruct (matchAt false re_lower_word prev EmptyString); [| intros []].
    intros [<- | []]. reflexivity.
  - destruct skip as [| skip]; [| apply IH].
    destruct (matchAt false re_lower_word prev (String c s)) as [rest |] eqn:E; [| apply IH].
    destruct (matchAt_lower_word _ _ _ E) as [m [Hm Hl]].
    intros [<- | Hin]; [| exact (IH _ _ _ Hin)].
    rewrite Hm, matched_prefix. exact Hl.
Qed.

Lemma vocabularyWords_lower (text w : string) :
  In w (vocabularyWords text) -> lowerCaseLetters w = true.
Proof.
  unfold vocabularyWords, String_match.
  destruct (matchAllFrom false re_lower_word 0 None (toLowerCase text)) as [| x l] eqn:E;
    [intros [] |].
  cbn [orEmpty]. rewrite <- E. apply matchAllFrom_lower_word.
Qed.

(** Of the keys of [Object.prototype] only one is made of the letters a-z. *)
Lemma lower_prototype_key (w : string) :
  lowerCaseLetters w = true -> Array_includes Object_prototype w = true -> w = "constructor".
Proof.
  intros Hl Hp. apply Array_includes_spec in Hp. unfold Object_prototype in Hp.
  cbn [In] in Hp.
  repeat (destruct Hp as [<- | Hp]; [try reflexivity; discriminate Hl |]).
  contradiction.
Qed.

(** For every transcript that does not say "constructor" the vocabulary
    score is the table of the specification. *)
Lemma analyzeVocabularyFree_table (text : string) :
  ~ In "constructor" (vocabularyWords text) ->
  Vocabulary.score (analyzeVocabularyFree text)
  = Z.max 0 (Z.min 100 (vocabularyScore_spec text)).
Proof.
  intros H. apply analyzeVocabularyFree_score. intros w Hw.
  destruct (Array_includes Object_prototype w) eqn:E; [| reflexivity].
  exfalso. apply H.
  rewrite <- (lower_prototype_key w (vocabularyWords_lower text w Hw) E). exact Hw.
Qed.

(** ** The added primitives and functions on examples *)

Example String_split_keeps_empty_pieces :
  String_split " " "a  b " = ["a"; EmptyString; "b"; EmptyString].
Proof. reflexivity. Qed.

Example String_split_empty_string : String_split " " EmptyString = [EmptyString].
Proof. reflexivity. Qed.

Example join_two_names : join ", " ["Fluency"; "Grammar"] = "Fluency, Grammar".
Proof. reflexivity. Qed.

Example generateFeedback_of_mixed_parameters :
  generateFeedback
    {| fluency := 85; pronunciation := 90; grammar := 50; vocabulary := 70;
       comprehension := NaN |}
  = "Strengths: Fluency, Pronunciation. Areas to improve: Grammar. ".
Proof. reflexivity. Qed.

Example fallbackAssessment_of_a_sentence :
  fallbackAssessment "I think that communication is important because it helps people."
    (Some "communication")
  = {| fluency := 90; pronunciation := 75; grammar := 100; vocabulary := 85;
       comprehension := 100 |}.
Proof. reflexivity. Qed.

(** ** Section and overall scores: bounds and monotonicity *)

(** X1.  [calculateSectionScore] stays within the range of its inputs: when
    the five parameters are finite numbers between the integers [lo] and
    [hi], themselves between -2^50 and 2^50, the section score is an integer
    between [lo] and [hi]. *)
Theorem section_score_within_parameters (lo hi : Z) (f p g v c : Q) :
  - 2 ^ 50 <= lo -> hi <= 2 ^ 50 ->
  (inject_Z lo <= f <= inject_Z hi)%Q ->
  (inject_Z lo <= p <= inject_Z hi)%Q ->
  (inject_Z lo <= g <= inject_Z hi)%Q ->
  (inject_Z lo <= v <= inject_Z hi)%Q ->
  (inject_Z lo <= c <= inject_Z hi)%Q ->
  exists z : Z,
    calculateSectionScore
      {| fluency := f; pronunciation := p; grammar := g; vocabulary := v; comprehension := c |}
    = ofZ z
    /\ lo <= z <= hi.
Proof.
  intros Hlo Hhi Hf Hp Hg Hv Hc.
  apply (calculateSectionScore_between lo hi lo hi lo hi lo hi lo hi lo hi);
    try (split; assumption); try lia;
    cbn [fluency pronunciation grammar vocabulary comprehension];
    eexists; (split; [reflexivity | assumption]).
Qed.

Lemma section_score_within_parameters_witness :
  exists z : Z,
    calculateSectionScore
      {| fluency := 72.5%Q; pronunciation := 60%Q; grammar := 90%Q; vocabulary := 61%Q;
         comprehension := 88%Q |}
    = ofZ z
    /\ 60 <= z <= 90.
Proof.
  apply (section_score_within_parameters 60 90); try (unfold inject_Z; lra);
    vm_compute; discriminate.
Defined.

(** X2.  Raising parameters, none being lowered, never lowers the section
    score. *)
Theorem section_score_monotone (f p g v c f' p' g' v' c' : Q) :
  (f <= f')%Q -> (p <= p')%Q -> (g <= g')%Q -> (v <= v')%Q -> (c <= c')%Q ->
  (calculateSectionScore
     {| fluency := f; pronunciation := p; grammar := g; vocabulary := v; comprehension := c |}
   <=? calculateSectionScore
         {| fluency := f'; pronunciation := p'; grammar := g'; vocabulary := v';
            comprehension := c' |})%num
  = true.
Proof. exact (section_score_ordered f p g v c f' p' g' v' c'). Qed.

Lemma section_score_monotone_witness :
  (calculateSectionScore
     {| fluency := 70%Q; pronunciation := 75%Q; grammar := 70%Q; vocabulary := 60%Q;
        comprehension := 70%Q |}
   <=? calculateSectionScore
         {| fluency := 70%Q; pronunciation := 75%Q; grammar := 85%Q; vocabulary := 60%Q;
            comprehension := 100%Q |})%num
  = true.
Proof.
  apply section_score_monotone; lra.
Defined.

Lemma fold_left_added_within (lo hi : Z) (sectionScores : list SectionScore) :
  Forall (fun section => exists z, score section = ofZ z /\ lo <= z <= hi) sectionScores ->
  forall (a b : Z) (acc : number),
    Z.max (Z.abs a) (Z.abs b) + count sectionScores * Z.max (Z.abs lo) (Z.abs hi) < 2 ^ 53 ->
    within (inject_Z a) (inject_Z b) acc ->
    within (inject_Z (a + count sectionScores * lo)) (inject_Z (b + count sectionScores * hi))
      (fold_left (fun sum section => added sum (score section)) sectionScores acc).
Proof.
  induction 1 as [| section rest [z [Hz Hb]] _ IH]; intros a b acc Hmax Hacc.
  - unfold count. cbn. rewrite !Z.add_0_r. exact Hacc.
  - unfold count in *. cbn [List.length fold_left] in *. rewrite Nat2Z.inj_succ in *.
    set (n := Z.of_nat (List.length rest)) in *.
    assert (Hn : 0 <= n) by (unfold n; lia).
    replace (a + Z.succ n * lo) with ((a + lo) + n * lo) by lia.
    replace (b + Z.succ n * hi) with ((b + hi) + n * hi) by lia.
    set (m := Z.max (Z.abs lo) (Z.abs hi)) in *.
    assert (Hm : Z.abs lo <= m /\ Z.abs hi <= m) by (unfold m; lia).
    assert (Hnm : 0 <= n * m) by (apply Z.mul_nonneg_nonneg; lia).
    replace (Z.succ n * m) with (n * m + m) in Hmax by lia.
    apply IH; [lia |].
    apply within_added; [lia | lia | exact Hacc |].
    rewrite Hz. exists (inject_Z z). split; [reflexivity |].
    split; rewrite <- Zle_Qle; lia.
Qed.

Lemma calculateOverallScore_between (lo hi : Z) (sectionScores : list SectionScore) :
  sectionScores <> [] ->
  count sectionScores * Z.max (Z.abs lo) (Z.abs hi) < 2 ^ 53 ->
  Forall (fun section => exists z, score section = ofZ z /\ lo <= z <= hi) sectionScores ->
  exists z : Z, calculateOverallScore sectionScores = ofZ z /\ lo <= z <= hi.
Proof.
  intros Hne Hmax Hall.
  assert (Hpos : 0 < count sectionScores).
  { destruct sectionScores; [congruence | unfold count; cbn; lia]. }
  unfold calculateOverallScore.
  destruct (count sectionScores =? 0) eqn:E; [lia |].
  apply within_Math_round.
  assert (Hm : Z.abs lo <= Z.max (Z.abs lo) (Z.abs hi)
               /\ Z.abs hi <= Z.max (Z.abs lo) (Z.abs hi)) by lia.
  apply within_divided; [exact Hpos | nia | nia |].
  rewrite (Z.mul_comm lo), (Z.mul_comm hi).
  apply (fold_left_added_within lo hi sectionScores Hall 0 0 (ofZ 0)).
  - cbn [Z.abs Z.max Z.add]. exact Hmax.
  - exists 0%Q. split; [reflexivity | split; apply Qle_refl].
Qed.

(** X3.  For a non-empty list of sections whose scores are integers between
    [lo] and [hi], few enough for the sum of their magnitudes to stay below
    2^53, [calculateOverallScore] returns an integer between [lo] and [hi].
    *)
Theorem overall_score_within_sections (lo hi : Z) (sectionScores : list SectionScore) :
  sectionScores <> [] ->
  count sectionScores * Z.max (Z.abs lo) (Z.abs hi) < 2 ^ 53 ->
  Forall (fun section => exists z, score section = ofZ z /\ lo <= z <= hi) sectionScores ->
  exists z : Z, calculateOverallScore sectionScores = ofZ z /\ lo <= z <= hi.
Proof. exact (calculateOverallScore_between lo hi sectionScores). Qed.

Lemma overall_score_within_sections_witness :
  exists z : Z, calculateOverallScore twoSections = ofZ z /\ 71 <= z <= 80.
Proof.
  apply overall_score_within_sections.
  - discriminate.
  - vm_compute. reflexivity.
  - repeat constructor.
    + exists 80. split; [reflexivity | lia].
    + exists 71. split; [reflexivity | lia].
Defined.

(** ** The feedback sentence *)

Lemma filter_nil_iff {A : Type} (f : A -> bool) (l : list A) :
  filter f l = [] <-> Forall (fun x => f x = false) l.
Proof.
  induction l as [|x l IH]; cbn [filter].
  - split; [constructor | reflexivity].
  - destruct (f x) eqn:E.
    + split; [discriminate | intros H; inversion H; congruence].
    + rewrite IH. split; [constructor; assumption | intros H; inversion H; assumption].
Qed.

Lemma map_nil_iff {A B : Type} (f : A -> B) (l : list A) : map f l = [] <-> l = [].
Proof. destruct l; cbn; split; congruence. Qed.

(** A score of 80 or more is not below 60. *)
Lemma strength_not_weakness (a : number) : (a >=? 80)%num = true -> (a <? 60)%num = false.
Proof.
  destruct a as [q| | |]; try reflexivity; try discriminate.
  intros H. apply not_true_iff_false. intros H'. to_Q. lra.
Qed.

(** X4.  [generateFeedback] returns its generic sentence exactly when none of
    the five parameters compares [>= 80] and none compares [< 60] (a
    comparison with [NaN] is false, so a [NaN] parameter is neither). *)
Theorem generateFeedback_generic (parameters : ScoringParameters) :
  generateFeedback parameters = "Good overall performance. Keep practicing to improve further."
  <-> Forall (fun s => (snd s >=? 80)%num = false /\ (snd s <? 60)%num = false)
             (scores parameters).
Proof.
  assert (Hlists :
    Forall (fun s => (snd s >=? 80)%num = false /\ (snd s <? 60)%num = false) (scores parameters)
    <-> strengths parameters = [] /\ weaknesses parameters = []).
  { unfold strengths, weaknesses. rewrite !map_nil_iff, !filter_nil_iff.
    rewrite !Forall_forall. split.
    - intros H. split; intros s Hs; apply (H s Hs).
    - intros [H1 H2] s Hs. split; [apply (H1 s Hs) | apply (H2 s Hs)]. }
  rewrite Hlists. unfold generateFeedback.
  destruct (strengths parameters) as [|s1 l1]; destruct (weaknesses parameters) as [|w1 l2].
  - split; [intros _; split; reflexivity | reflexivity].
  - split; [discriminate | intros [_ H]; discriminate H].
  - split; [discriminate | intros [H _]; discriminate H].
  - split; [discriminate | intros [H _]; discriminate H].
Qed.

(** X5.  In [generateFeedback] no name is listed both as a strength and as an
    area to improve. *)
Theorem strengths_are_not_weaknesses (parameters : ScoringParameters) :
  forallb (fun name => negb (Array_includes (weaknesses parameters) name)) (strengths parameters)
  = true.
Proof.
  destruct parameters as [f p g v c].
  unfold strengths, weaknesses, scores.
  cbn [filter snd fluency pronunciation grammar vocabulary comprehension].
  destruct (f >=? 80)%num eqn:Ef; [rewrite (strength_not_weakness f Ef) | destruct (f <? 60)%num];
  (destruct (p >=? 80)%num eqn:Ep; [rewrite (strength_not_weakness p Ep) | destruct (p <? 60)%num]);
  (destruct (g >=? 80)%num eqn:Eg; [rewrite (strength_not_weakness g Eg) | destruct (g <? 60)%num]);
  (destruct (v >=? 80)%num eqn:Ev; [rewrite (strength_not_weakness v Ev) | destruct (v <? 60)%num]);
  (destruct (c >=? 80)%num eqn:Ec; [rewrite (strength_not_weakness c Ec) | destruct (c <? 60)%num]);
  reflexivity.
Qed.

(** ** The simulated assessment *)

Ltac split_conditions :=
  repeat match goal with
         | |- context [if ?b then _ else _] => destruct b
         end.

Lemma fallbackAssessment_bounds (userResponse : string) (expectedAnswer : option string) :
  exists f p g v c : Z,
    fallbackAssessment userResponse expectedAnswer
    = {| fluency := f; pronunciation := p; grammar := g; vocabulary := v; comprehension := c |}
    /\ 65 <= f <= 100 /\ 70 <= p <= 90 /\ 65 <= g <= 100 /\ 60 <= v <= 90 /\ 65 <= c <= 100.
Proof.
  unfold fallbackAssessment. cbv zeta.
  do 5 eexists. split; [reflexivity|].
  repeat split; split_conditions; lia.
Qed.

(** X6.  [fallbackAssessment] is the [assessResponse] of the first version,
    which ignores its section, and it returns five integers: fluency from 65
    to 100, pronunciation from 70 to 90, grammar from 65 to 100, vocabulary
    from 60 to 90 and comprehension from 65 to 100. *)
Theorem simulated_assessment_ranges
        (section userResponse : string) (expectedAnswer : option string) :
  Legacy.assessResponse section userResponse expectedAnswer
  = fallbackAssessment userResponse expectedAnswer
  /\ exists f p g v c : Z,
      fallbackAssessment userResponse expectedAnswer
      = {| fluency := f; pronunciation := p; grammar := g; vocabulary := v; comprehension := c |}
      /\ 65 <= f <= 100 /\ 70 <= p <= 90 /\ 65 <= g <= 100 /\ 60 <= v <= 90 /\ 65 <= c <= 100.
Proof.
  split; [reflexivity | exact (fallbackAssessment_bounds userResponse expectedAnswer)].
Qed.

Lemma within_ofZ (lo hi z : Z) : lo <= z <= hi -> within (inject_Z lo) (inject_Z hi) (ofZ z).
Proof.
  intros H. exists (inject_Z z). split; [reflexivity|].
  split; rewrite <- Zle_Qle; lia.
Qed.

Lemma legacy_assessResponse_simulated
      (section userResponse : string) (expectedAnswer : option string) :
  simulated (Legacy.assessResponse section userResponse expectedAnswer).
Proof.
  change (Legacy.assessResponse section userResponse expectedAnswer)
    with (fallbackAssessment userResponse expectedAnswer).
  destruct (fallbackAssessment_bounds userResponse expectedAnswer)
    as (f & p & g & v & c & E & Hf & Hp & Hg & Hv & Hc).
  rewrite E. unfold simulated. cbn [fluency pronunciation grammar vocabulary comprehension].
  repeat split.
  - exact (within_ofZ 65 100 f Hf).
  - exact (within_ofZ 70 90 p Hp).
  - exact (within_ofZ 65 100 g Hg).
  - exact (within_ofZ 60 90 v Hv).
  - exact (within_ofZ 65 100 c Hc).
Qed.

(** ** Averages over the responses of a section *)

Lemma fold_addParameters_field (proj : ScoringParameters -> number)
      (Hproj : forall a b, proj (addParameters a b) = (proj a + proj b)%num) (lo hi : Q)
      (l : list ScoringParameters) :
  Forall (fun p => within lo hi (proj p)) l ->
  forall acc k,
    within (inject_Z k * lo) (inject_Z k * hi) (proj acc) ->
    within (inject_Z (k + count l) * lo) (inject_Z (k + count l) * hi)
           (proj (fold_left addParameters l acc)).
Proof.
  induction 1 as [|p l [qp [Ep Hp]] _ IH]; intros acc k [qa [Ea Ha]].
  - unfold count. cbn [List.length Z.of_nat fold_left]. rewrite Z.add_0_r.
    exists qa. split; assumption.
  - cbn [fold_left].
    replace (k + count (p :: l)) with ((k + 1) + count l)
      by (unfold count; cbn [List.length]; lia).
    apply IH. rewrite Hproj, Ea, Ep. exists (qa + qp)%Q. split; [reflexivity|].
    rewrite inject_Z_plus. change (inject_Z 1) with 1%Q. lra.
Qed.

Lemma within_divide (lo hi : Q) (a : number) (n : Z) :
  0 < n -> within (inject_Z n * lo) (inject_Z n * hi) a -> within lo hi (a / n)%num.
Proof.
  intros Hn [q [E H]]. subst a. rewrite divide_Fin by lia.
  exists (q / inject_Z n)%Q. split; [reflexivity|].
  assert (0 < inject_Z n)%Q by (change 0%Q with (inject_Z 0); rewrite <- Zlt_Qlt; lia).
  split; [apply Qle_shift_div_l | apply Qle_shift_div_r]; try assumption; lra.
Qed.

Lemma count_pos {A : Type} (l : list A) : l <> [] -> 0 < count l.
Proof. destruct l; [congruence | unfold count; cbn [List.length]; lia]. Qed.

Lemma average_field (proj : ScoringParameters -> number)
      (Hadd : forall a b, proj (addParameters a b) = (proj a + proj b)%num)
      (Hdiv : forall a n, proj (divideParameters a n) = (proj a / n)%num)
      (Hzero : proj zeroParameters = ofZ 0)
      (lo hi : Q) (l : list ScoringParameters) :
  l <> [] ->
  Forall (fun p => within lo hi (proj p)) l ->
  within lo hi (proj (divideParameters (fold_left addParameters l zeroParameters) (count l))).
Proof.
  intros Hne Hall. rewrite Hdiv. apply within_divide; [apply count_pos; exact Hne |].
  apply (fold_addParameters_field proj Hadd lo hi l Hall zeroParameters 0).
  rewrite Hzero. exists 0%Q. split; [reflexivity|].
  change (inject_Z 0) with 0%Q. lra.
Qed.

Lemma average_simulated (l : list ScoringParameters) :
  l <> [] -> Forall simulated l ->
  simulated (divideParameters (fold_left addParameters l zeroParameters) (count l)).
Proof.
  intros Hne Hall. unfold simulated in *. rewrite Forall_forall in Hall.
  repeat split.
  - apply (average_field fluency); try reflexivity; try exact Hne.
    apply Forall_forall. intros p Hp. apply (Hall p Hp).
  - apply (average_field pronunciation); try reflexivity; try exact Hne.
    apply Forall_forall. intros p Hp. apply (Hall p Hp).
  - apply (average_field grammar); try reflexivity; try exact Hne.
    apply Forall_forall. intros p Hp. apply (Hall p Hp).
  - apply (average_field vocabulary); try reflexivity; try exact Hne.
    apply Forall_forall. intros p Hp. apply (Hall p Hp).
  - apply (average_field comprehension); try reflexivity; try exact Hne.
    apply Forall_forall. intros p Hp. apply (Hall p Hp).
Qed.

Lemma calculateSectionScore_simulated (parameters : ScoringParameters) :
  simulated parameters ->
  exists z : Z, calculateSectionScore parameters = ofZ z /\ 65 <= z <= 96.
Proof.
  intros (Hf & Hp & Hg & Hv & Hc).
  apply (calculateSectionScore_between 65 96 65 100 70 90 65 100 60 90 65 100);
    try assumption; try reflexivity; split; discriminate.
Qed.

Lemma fold_left_mapped {A B C : Type} (f : A -> C -> A) (g : B -> C) (l : list B) :
  forall a, fold_left (fun a x => f a (g x)) l a = fold_left f (map g l) a.
Proof. induction l as [|x l IH]; intros a; [reflexivity | apply IH]. Qed.

Lemma count_map {A B : Type} (g : A -> B) (l : list A) : count (map g l) = count l.
Proof. unfold count. rewrite length_map. reflexivity. Qed.

Lemma legacy_scoreSection_range (section : string) (sectionResponses : list TestResponse.t) :
  sectionResponses <> [] ->
  exists z : Z, score (Legacy.scoreSection section sectionResponses) = ofZ z /\ 65 <= z <= 96.
Proof.
  intros Hne. unfold Legacy.scoreSection. cbv zeta. cbn [score].
  rewrite (fold_left_mapped addParameters
             (fun response => Legacy.assessResponse section (TestResponse.userResponse response) None)).
  rewrite <- (count_map
                (fun response => Legacy.assessResponse section (TestResponse.userResponse response) None)).
  apply calculateSectionScore_simulated. apply average_simulated.
  - destruct sectionResponses; [congruence | discriminate].
  - apply Forall_forall. intros p Hp. apply in_map_iff in Hp. destruct Hp as [r [<- _]].
    apply legacy_assessResponse_simulated.
Qed.

Lemma count_gt_0 {A : Type} (l : list A) : (count l >? 0) = negb (match l with [] => true | _ => false end).
Proof. destruct l; reflexivity. Qed.

Lemma legacy_sectionScoresOf_range (responses : list TestResponse.t) :
  Forall (fun section => exists z : Z, score section = ofZ z /\ 65 <= z <= 96)
         (Legacy.sectionScoresOf responses).
Proof.
  unfold Legacy.sectionScoresOf. apply Forall_flat_map. apply Forall_forall.
  intros section _. cbv zeta.
  destruct (responsesBySection responses section) as [|r l] eqn:E.
  - constructor.
  - rewrite count_gt_0. cbn [negb]. constructor; [| constructor].
    apply legacy_scoreSection_range. discriminate.
Qed.

Lemma responsesBySection_known (responses : list TestResponse.t) :
  responses <> [] -> knownSections responses = true ->
  exists section, In section sections /\ responsesBySection responses section <> [].
Proof.
  destruct responses as [|r l]; [congruence |]. intros _ H.
  unfold knownSections in H. cbn [forallb] in H. apply andb_prop in H. destruct H as [H _].
  apply Array_includes_spec in H.
  exists (TestResponse.section r). split; [exact H |].
  unfold responsesBySection. cbn [filter]. rewrite String.eqb_refl. discriminate.
Qed.

Lemma legacy_sectionScoresOf_nonempty (responses : list TestResponse.t) :
  responses <> [] -> knownSections responses = true -> Legacy.sectionScoresOf responses <> [].
Proof.
  intros Hne Hk. destruct (responsesBySection_known responses Hne Hk) as [section [Hin Hrs]].
  assert (Hin' : In (Legacy.scoreSection section (responsesBySection responses section))
                    (Legacy.sectionScoresOf responses)).
  { unfold Legacy.sectionScoresOf. apply in_flat_map. exists section. split; [exact Hin |].
    cbv zeta. rewrite count_gt_0.
    destruct (responsesBySection responses section); [congruence | left; reflexivity]. }
  intros E. rewrite E in Hin'. exact Hin'.
Qed.

Lemma count_flat_map_le {A B : Type} (f : A -> list B) (l : list A) :
  (forall x, count (f x) <= 1) -> count (flat_map f l) <= count l.
Proof.
  intros Hf. unfold count in *. induction l as [| x l IH]; cbn [flat_map List.length]; [lia |].
  rewrite length_app. specialize (Hf x). lia.
Qed.

Lemma legacy_sectionScoresOf_count (responses : list TestResponse.t) :
  count (Legacy.sectionScoresOf responses) <= 7.
Proof.
  unfold Legacy.sectionScoresOf. change 7 with (count sections).
  apply count_flat_map_le. intros section. cbv zeta.
  destruct (count (responsesBySection responses section) >? 0); unfold count; cbn; lia.
Qed.

Lemma level_at_least_good (z : Z) :
  65 <= z -> In (getScoreLevel z) ["Excellent"; "Very Good"; "Good"].
Proof.
  intros H. assert (Hq : (65 <= inject_Z z)%Q) by (change 65%Q with (inject_Z 65); rewrite <- Zle_Qle; lia).
  unfold getScoreLevel. split_comparisons; cbn [In]; auto.
  all: to_Q; unfold inject_Z in Hq; lra.
Qed.

(** X7.  The first version of the test page: a test with a recorded answer is
    saved with every section score and the total score an integer from 65 to
    96, so that its level is Good or better whatever was answered. *)
Theorem legacy_test_is_rated_good_or_better
        (responses : list TestResponse.t) (totalScore : number) (sectionScores : list SectionScore) :
  responses <> [] ->
  Legacy.saveTestSession responses = Return (totalScore, sectionScores) ->
  Forall (fun section => exists z : Z, score section = ofZ z /\ 65 <= z <= 96) sectionScores
  /\ exists z : Z,
      totalScore = ofZ z /\ 65 <= z <= 96
      /\ In (getScoreLevel totalScore) ["Excellent"; "Very Good"; "Good"].
Proof.
  intros Hne. unfold Legacy.saveTestSession.
  destruct (knownSections responses) eqn:Hk; [| discriminate].
  cbv zeta. intros H. injection H as <- <-.
  split; [apply legacy_sectionScoresOf_range |].
  destruct (calculateOverallScore_between 65 96 (Legacy.sectionScoresOf responses)) as [z [E Hz]].
  - apply legacy_sectionScoresOf_nonempty; assumption.
  - pose proof (legacy_sectionScoresOf_count responses) as Hc.
    change (Z.max (Z.abs 65) (Z.abs 96)) with 96.
    change (2 ^ 53) with 9007199254740992. lia.
  - apply legacy_sectionScoresOf_range.
  - exists z. split; [exact E |]. split; [exact Hz |].
    rewrite E. apply level_at_least_good. lia.
Qed.

Lemma legacy_test_is_rated_good_or_better_witness :
  [oneResponse "A" "um" None] <> [] /\
  exists totalScore sectionScores,
    Legacy.saveTestSession [oneResponse "A" "um" None] = Return (totalScore, sectionScores)
    /\ In (getScoreLevel totalScore) ["Excellent"; "Very Good"; "Good"].
Proof.
  split; [discriminate |].
  destruct (Legacy.saveTestSession [oneResponse "A" "um" None])
    as [[totalScore sectionScores] | |] eqn:E.
  - exists totalScore, sectionScores. split; [reflexivity |].
    destruct (legacy_test_is_rated_good_or_better
                [oneResponse "A" "um" None] totalScore sectionScores
                ltac:(discriminate) E) as [_ [z [_ [_ H]]]].
    exact H.
  - vm_compute in E. discriminate E.
  - vm_compute in E. discriminate E.
Defined.

(** ** The test page *)

Lemma valid_within (parameters : ScoringParameters) :
  valid parameters ->
  within 0 100 (fluency parameters) /\ within 0 100 (pronunciation parameters) /\
  within 0 100 (grammar parameters) /\ within 0 100 (vocabulary parameters) /\
  within 0 100 (comprehension parameters).
Proof.
  intros (Hf & Hp & Hg & Hv & Hc).
  repeat split;
    match goal with
    | H : isScore ?a |- within _ _ ?a =>
        destruct H as [z [-> Hz]]; exact (within_ofZ 0 100 z Hz)
    end.
Qed.

Lemma assessSection_valid (fuel : nat) (questionSets : string -> option QuestionSet.t)
      (section : string) (sectionResponses : list TestResponse.t) :
  forall avgParameters sum,
    assessSection fuel questionSets section sectionResponses avgParameters = Return sum ->
    exists assessed,
      Forall valid assessed
      /\ count assessed = count sectionResponses
      /\ sum = fold_left addParameters assessed avgParameters.
Proof.
  induction sectionResponses as [|response l IH]; intros avgParameters sum H.
  - injection H as <-. exists []. repeat split. constructor.
  - cbn [assessSection] in H. cbv zeta in H.
    match type of H with
    | bind ?m _ = _ =>
        match m with
        | assessResponse ?fu ?se ?u ?a ?e ?q =>
            destruct (assessResponse_sound fu se u a e q) as [E | [parameters [E Hv]]];
            rewrite E in H
        end
    end.
    + discriminate H.
    + cbn [bind parametersOf] in H. destruct (IH _ _ H) as [assessed [Hall [Hc ->]]].
      exists (parameters :: assessed). split; [constructor; assumption |].
      split; [| reflexivity].
      unfold count in *. cbn [List.length]. lia.
Qed.

(** X8.  The test page: when the assessments of the answers of a section all
    return, the averaged parameters are finite numbers from 0 to 100 and the
    section score is an integer from 0 to 100. *)
Theorem scoreSection_in_range
        (fuel : nat) (questionSets : string -> option QuestionSet.t) (section : string)
        (sectionResponses : list TestResponse.t) (score : number)
        (avgParameters : ScoringParameters) :
  sectionResponses <> [] ->
  scoreSection fuel questionSets section sectionResponses = Return (score, avgParameters) ->
  isScore score
  /\ within 0 100 (fluency avgParameters) /\ within 0 100 (pronunciation avgParameters)
  /\ within 0 100 (grammar avgParameters) /\ within 0 100 (vocabulary avgParameters)
  /\ within 0 100 (comprehension avgParameters).
Proof.
  intros Hne. unfold scoreSection.
  destruct (assessSection fuel questionSets section sectionResponses zeroParameters)
    as [sum | |] eqn:E; try discriminate.
  cbn [bind]. cbv zeta. intros H. injection H as <- <-.
  destruct (assessSection_valid _ _ _ _ _ _ E) as [assessed [Hall [Hc ->]]].
  rewrite <- Hc.
  assert (Hne' : assessed <> []).
  { intros ->. apply count_pos in Hne. unfold count in Hc at 1. cbn in Hc. lia. }
  assert (Hall' : Forall (fun p => within 0 100 (fluency p) /\ within 0 100 (pronunciation p)
                                   /\ within 0 100 (grammar p) /\ within 0 100 (vocabulary p)
                                   /\ within 0 100 (comprehension p)) assessed).
  { apply Forall_forall. intros p Hp. apply valid_within.
    exact (proj1 (Forall_forall _ _) Hall p Hp). }
  rewrite Forall_forall in Hall'.
  assert (Hf : within 0 100 (fluency (divideParameters
                 (fold_left addParameters assessed zeroParameters) (count assessed)))).
  { apply (average_field fluency); try reflexivity; try exact Hne'.
    apply Forall_forall. intros p Hp. apply (Hall' p Hp). }
  assert (Hp : within 0 100 (pronunciation (divideParameters
                 (fold_left addParameters assessed zeroParameters) (count assessed)))).
  { apply (average_field pronunciation); try reflexivity; try exact Hne'.
    apply Forall_forall. intros p Hp. apply (Hall' p Hp). }
  assert (Hg : within 0 100 (grammar (divideParameters
                 (fold_left addParameters assessed zeroParameters) (count assessed)))).
  { apply (average_field grammar); try reflexivity; try exact Hne'.
    apply Forall_forall. intros p Hp'. apply (Hall' p Hp'). }
  assert (Hv : within 0 100 (vocabulary (divideParameters
                 (fold_left addParameters assessed zeroParameters) (count assessed)))).
  { apply (average_field vocabulary); try reflexivity; try exact Hne'.
    apply Forall_forall. intros p Hp'. apply (Hall' p Hp'). }
  assert (Hcm : within 0 100 (comprehension (divideParameters
                 (fold_left addParameters assessed zeroParameters) (count assessed)))).
  { apply (average_field comprehension); try reflexivity; try exact Hne'.
    apply Forall_forall. intros p Hp'. apply (Hall' p Hp'). }
  split; [| repeat split; assumption].
  apply (calculateSectionScore_between 0 100 0 100 0 100 0 100 0 100 0 100);
    try assumption; try reflexivity; split; discriminate.
Qed.

Lemma scoreSection_in_range_witness :
  [oneResponse "A" "Hello there." None] <> [] /\
  exists score avgParameters,
    scoreSection 0 (fun _ => None) "A" [oneResponse "A" "Hello there." None]
    = Return (score, avgParameters)
    /\ isScore score.
Proof.
  split; [discriminate |].
  destruct (scoreSection 0 (fun _ => None) "A" [oneResponse "A" "Hello there." None])
    as [[score avgParameters] | |] eqn:E.
  - exists score, avgParameters. split; [reflexivity |].
    exact (proj1 (scoreSection_in_range 0 (fun _ => None) "A"
                    [oneResponse "A" "Hello there." None] score avgParameters
                    ltac:(discriminate) E)).
  - vm_compute in E. discriminate E.
  - vm_compute in E. discriminate E.
Defined.

Lemma scoreSections_returns (fuel : nat) (questionSets : string -> option QuestionSet.t)
      (responses : list TestResponse.t) (secs : list string) :
  forall sectionScores result,
    scoreSections fuel questionSets responses secs sectionScores = Return result ->
    result = sectionScores
    /\ forall section, In section secs -> responsesBySection responses section = [].
Proof.
  induction secs as [|section secs IH]; intros sectionScores result H.
  - injection H as <-. split; [reflexivity | intros ? []].
  - cbn [scoreSections] in H. cbv zeta in H. rewrite count_gt_0 in H.
    destruct (responsesBySection responses section) as [|r l] eqn:E.
    + cbn [negb] in H. destruct (IH _ _ H) as [-> Hall]. split; [reflexivity |].
      intros s [<- | Hs]; [exact E | exact (Hall s Hs)].
    + cbn [negb] in H.
      destruct (scoreSection fuel questionSets section (r :: l)); discriminate H.
Qed.

Lemma scoreSections_outcome (fuel : nat) (questionSets : string -> option QuestionSet.t)
      (responses : list TestResponse.t) (secs : list string) :
  forall sectionScores,
    (exists section, In section secs /\ responsesBySection responses section <> []) ->
    scoreSections fuel questionSets responses secs sectionScores = Throw
    \/ scoreSections fuel questionSets responses secs sectionScores = Diverge.
Proof.
  intros sectionScores Hex.
  destruct (scoreSections fuel questionSets responses secs sectionScores) as [result | |] eqn:E.
  - exfalso. destruct (scoreSections_returns _ _ _ _ _ _ E) as [_ Hall].
    destruct Hex as [section [Hin Hne]]. exact (Hne (Hall section Hin)).
  - left; reflexivity.
  - right; reflexivity.
Qed.

(** X9.  The test page: once an answer has been recorded, [saveTestSession]
    stores no result. For the first section that has answers it reads
    [sectionQuestionSet] outside the block that declares it, which throws,
    unless an assessment has not returned before. *)
Theorem saveTestSession_never_stores_a_score
        (fuel : nat) (questionSets : string -> option QuestionSet.t)
        (responses : list TestResponse.t) :
  responses <> [] ->
  saveTestSession fuel questionSets responses = Throw
  \/ saveTestSession fuel questionSets responses = Diverge.
Proof.
  intros Hne. unfold saveTestSession.
  destruct (knownSections responses) eqn:Hk; [| left; reflexivity].
  destruct (scoreSections_outcome fuel questionSets responses sections []
              (responsesBySection_known responses Hne Hk)) as [-> | ->];
    [left | right]; reflexivity.
Qed.

Lemma saveTestSession_never_stores_a_score_witness :
  [oneResponse "A" "Hello there." None] <> [] /\
  saveTestSession 0 (fun _ => None) [oneResponse "A" "Hello there." None] = Throw.
Proof.
  split; [discriminate |].
  destruct (saveTestSession_never_stores_a_score 0 (fun _ => None)
              [oneResponse "A" "Hello there." None] ltac:(discriminate)) as [E | E].
  - exact E.
  - vm_compute in E. discriminate E.
Defined.

(** ** Completeness, coherence and key points *)

Lemma analyzeCompletenessForSection_range (text section : string) (question : option string) :
  60 <= analyzeCompletenessForSection text section question <= 100.
Proof. unfold analyzeCompletenessForSection. cbv zeta. split_conditions; lia. Qed.

(** X10.  [analyzeCompletenessForSection] returns at least 60, and at most 90
    for section A, 100 for sections B and G, and 85 for any other section. *)
Theorem analyzeCompletenessForSection_bounds (text section : string) (question : option string) :
  60 <= analyzeCompletenessForSection text section question
     <= (if String.eqb section "A" then 90
         else if String.eqb section "B" then 100
         else if String.eqb section "G" then 100
         else 85).
Proof.
  unfold analyzeCompletenessForSection. cbv zeta.
  destruct (String.eqb section "A"); [split_conditions; lia |].
  destruct (String.eqb section "B"); [split_conditions; lia |].
  destruct (String.eqb section "G"); split_conditions; lia.
Qed.

(** X11.  [analyzeContentFree] returns a completeness from 60 to 100 and a
    coherence that is 70, 80, 85 or 95. *)
Theorem analyzeContentFree_completeness_and_coherence
        (text : string) (expectedAnswer question section : option string) :
  60 <= Content.completeness (analyzeContentFree text expectedAnswer question section) <= 100
  /\ In (Content.coherence (analyzeContentFree text expectedAnswer question section))
        [70; 80; 85; 95].
Proof.
  unfold analyzeContentFree. cbv zeta. cbn [Content.completeness Content.coherence].
  split.
  - destruct (given section) as [s |].
    + pose proof (analyzeCompletenessForSection_range text s question). lia.
    + split_conditions; lia.
  - split_conditions; cbn; auto.
Qed.

Lemma trimStart_noLeadingWhiteSpace (s : string) : startsWithWhiteSpace (trimStart s) = false.
Proof.
  induction s as [|c s IH]; [reflexivity |].
  cbn [trimStart]. destruct (isWhiteSpace c) eqn:E; [exact IH | cbn; exact E].
Qed.

Lemma trimEnd_noLeadingWhiteSpace (s : string) :
  startsWithWhiteSpace s = false -> startsWithWhiteSpace (trimEnd s) = false.
Proof.
  destruct s as [|c s]; [reflexivity |].
  cbn [startsWithWhiteSpace trimEnd]. intros E. rewrite E. cbn. exact E.
Qed.

Lemma trimStart_fixed (s : string) : startsWithWhiteSpace s = false -> trimStart s = s.
Proof.
  destruct s as [|c s]; [reflexivity |].
  cbn [startsWithWhiteSpace trimStart]. intros ->. reflexivity.
Qed.

Lemma trimEnd_idempotent (s : string) : trimEnd (trimEnd s) = trimEnd s.
Proof.
  induction s as [|c s IH]; [reflexivity |].
  cbn [trimEnd]. cbv zeta.
  destruct (isWhiteSpace c && isEmpty (trimEnd s)) eqn:E; [reflexivity |].
  cbn [trimEnd]. cbv zeta. rewrite IH, E. reflexivity.
Qed.

Lemma trim_idempotent (s : string) : trim (trim s) = trim s.
Proof.
  unfold trim.
  rewrite (trimStart_fixed (trimEnd (trimStart s))).
  - apply trimEnd_idempotent.
  - apply trimEnd_noLeadingWhiteSpace, trimStart_noLeadingWhiteSpace.
Qed.

Lemma In_firstn {A : Type} (n : nat) (l : list A) (x : A) : In x (firstn n l) -> In x l.
Proof.
  revert l. induction n as [|n IH]; intros [|y l]; cbn; try tauto.
  intros [-> | H]; [left; reflexivity | right; exact (IH l H)].
Qed.

(** X12.  [extractKeyPointsFree] returns at most three key points; each is the
    trimmed form of one of the sentences, is unchanged by [trim], and is
    longer than 15 characters. *)
Theorem extractKeyPointsFree_spec (sentences : list string) :
  (List.length (extractKeyPointsFree sentences) <= 3)%nat
  /\ Forall (fun keyPoint =>
               trim keyPoint = keyPoint /\ 15 < len keyPoint
               /\ exists sentence, In sentence sentences /\ keyPoint = trim sentence)
            (extractKeyPointsFree sentences).
Proof.
  unfold extractKeyPointsFree. split.
  - apply firstn_le_length.
  - apply Forall_forall. intros keyPoint H. apply In_firstn in H.
    apply in_map_iff in H. destruct H as [sentence [<- H]].
    apply filter_In in H. destruct H as [Hin Hlen].
    split; [apply trim_idempotent |]. split; [lia |].
    exists sentence. split; [exact Hin | reflexivity].
Qed.

(** ** Sentiment *)

(** X13.  [analyzeSentimentFree] returns a finite confidence from 0.5 to 0.9,
    and a sentiment and a tone that go together: positive with enthusiastic or
    positive, negative with pessimistic or cautious, neutral with neutral. *)
Theorem analyzeSentimentFree_table (text : string) :
  within 0.5 0.9 (Sentiment.confidence (analyzeSentimentFree text))
  /\ In (Sentiment.sentiment (analyzeSentimentFree text), Sentiment.tone (analyzeSentimentFree text))
        [ ("positive", "enthusiastic"); ("positive", "positive");
          ("negative", "pessimistic"); ("negative", "cautious");
          ("neutral", "neutral") ].
Proof.
  assert (Hconf : forall d n : Z, 0 < d -> 0 < n ->
            within 0.5 0.9 (Math_min 0.9%Q (0.5%Q + ofZ d / ofZ n * 2)%num)).
  { intros d n Hd Hn. change (ofZ d) with (Fin (inject_Z d)).
    rewrite divide_Fin by lia. cbn [mul add ofZ].
    destruct (Math_min_Fin 0.9 (0.5 + inject_Z d / inject_Z n * inject_Z 2)) as [q [-> Hq]].
    exists q. split; [reflexivity |]. rewrite Hq.
    assert (0 <= inject_Z d / inject_Z n)%Q.
    { apply Qle_shift_div_l.
      - change 0%Q with (inject_Z 0). rewrite <- Zlt_Qlt. exact Hn.
      - rewrite Qmult_0_l. change 0%Q with (inject_Z 0). rewrite <- Zle_Qle. lia. }
    split.
    - apply Q.min_glb; [lra |]. change (inject_Z 2) with 2%Q. lra.
    - apply Q.le_min_l. }
  unfold analyzeSentimentFree. cbv zeta.
  set (words := split false re_whitespace (toLowerCase text)).
  assert (Hn : 0 < count words).
  { apply count_pos. apply split_whitespace_nonempty. }
  set (positiveCount := count (filter (Array_includes positiveWords) words)) in *.
  set (negativeCount := count (filter (Array_includes negativeWords) words)) in *.
  destruct (positiveCount >? negativeCount) eqn:E1;
    [| destruct (negativeCount >? positiveCount) eqn:E2].
  - cbn [Sentiment.confidence Sentiment.sentiment Sentiment.tone]. split.
    + apply Hconf; lia.
    + destruct (positiveCount >? negativeCount * 2); cbn [In]; auto.
  - cbn [Sentiment.confidence Sentiment.sentiment Sentiment.tone]. split.
    + apply Hconf; lia.
    + destruct (negativeCount >? positiveCount * 2); cbn [In]; auto 6.
  - cbn [Sentiment.confidence Sentiment.sentiment Sentiment.tone]. split.
    + exists 0.5%Q. split; [reflexivity | lra].
    + cbn [In]; auto 6.
Qed.

(** ** The estimates *)

(** X14.  The cap at 100 never applies in [estimatePronunciationFromText],
    whose values are 75, 80, 85, 90 and 95, nor in [calculateFluencyFromRate],
    whose values are 50, 60, 65, 70, 75, 80, 85, 90 and 95 for every speaking
    rate and pause ratio, [NaN] and the infinities included. *)
Theorem estimates_stay_below_their_cap
        (text : string) (speakingRate pauseRatio : number) :
  In (estimatePronunciationFromText text) [75; 80; 85; 90; 95]
  /\ In (calculateFluencyFromRate speakingRate pauseRatio) [50; 60; 65; 70; 75; 80; 85; 90; 95].
Proof.
  split.
  - unfold estimatePronunciationFromText. cbv zeta. split_conditions; cbn; auto 6.
  - unfold calculateFluencyFromRate. cbv zeta. split_conditions; cbn; auto 10.
Qed.

(** ** Advanced words *)

(** X15.  The advanced-word test of [analyzeVocabularyFree] holds exactly for
    the words of 7 letters or more and for the two words theory and study:
    every professional word has 7 letters or more already. *)
Theorem isAdvancedWord_by_length (word : string) :
  isAdvancedWord word
  = (len word >=? 7) || String.eqb word "theory" || String.eqb word "study"
  /\ implb (isProfessionalWord word) (len word >=? 7) = true.
Proof.
  unfold isAdvancedWord, isAcademicWord, isProfessionalWord, Array_includes,
    academicWords, professionalWords.
  cbn [existsb].
  destruct (len word >=? 7) eqn:L.
  - split; [reflexivity | apply implb_true_r].
  - destruct (String.eqb word "theory") eqn:Et; destruct (String.eqb word "study") eqn:Es;
      repeat match goal with
             | |- context [String.eqb word ?x] =>
                 destruct (String.eqb_spec word x) as [-> | _];
                 [vm_compute in L; discriminate L |]
             end;
      split; reflexivity.
Qed.

(** ** The results page *)

(** X16.  The results page: two scores get the same text colour, and the same
    colour of the progress bar, exactly when [getScoreLevel] gives them the
    same level. *)
Theorem colours_follow_levels (score1 score2 : number) :
  (getScoreLevel score1 = getScoreLevel score2 <-> getScoreColor score1 = getScoreColor score2)
  /\ (getScoreLevel score1 = getScoreLevel score2
      <-> getProgressColor score1 = getProgressColor score2).
Proof.
  unfold getScoreLevel, getScoreColor, getProgressColor.
  destruct (score1 >=? 85)%num, (score1 >=? 75)%num, (score1 >=? 65)%num, (score1 >=? 55)%num,
    (score2 >=? 85)%num, (score2 >=? 75)%num, (score2 >=? 65)%num, (score2 >=? 55)%num;
    split; split; intros H; try reflexivity; discriminate H.
Qed.

(** ** Audio metrics *)

Lemma square_nonneg (x : Q) : (0 <= x * x)%Q.
Proof. unfold Qle, Qmult. cbn. nia. Qed.

Lemma divide_Fin_Fin (x y : Q) : ~ (y == 0)%Q -> (Fin x / Fin y)%num = Fin (x / y).
Proof.
  intros H. cbn [divide]. destruct (Qeq_bool y 0) eqn:E; [| reflexivity].
  apply Qeq_bool_eq in E. contradiction.
Qed.

Lemma performBasicFFTAnalysis_loop_energy (rest : list Q) :
  forall i length sampleRate highFreqEnergy totalEnergy,
    (0 <= highFreqEnergy <= totalEnergy)%Q ->
    (0 <= fst (performBasicFFTAnalysis_loop rest i length sampleRate highFreqEnergy totalEnergy)
     <= snd (performBasicFFTAnalysis_loop rest i length sampleRate highFreqEnergy totalEnergy))%Q.
Proof.
  induction rest as [|sample rest IH]; intros i length sampleRate highFreqEnergy totalEnergy H;
    cbn [performBasicFFTAnalysis_loop]; [exact H |].
  cbv zeta. apply IH. pose proof (square_nonneg sample).
  destruct (_ && _); lra.
Qed.

Lemma performBasicFFTAnalysis_within (signal : list Q) (sampleRate : Q) :
  within 60 100 (performBasicFFTAnalysis signal sampleRate).
Proof.
  unfold performBasicFFTAnalysis.
  pose proof (performBasicFFTAnalysis_loop_energy signal 0 (count signal) sampleRate 0 0
                ltac:(lra)) as H.
  destruct (performBasicFFTAnalysis_loop signal 0 (count signal) sampleRate 0 0)
    as [highFreqEnergy totalEnergy].
  cbn [fst snd] in H.
  destruct (Fin totalEnergy >? 0)%num eqn:E.
  - to_Q. rewrite divide_Fin_Fin by lra. cbn [mul add ofZ].
    eexists. split; [reflexivity |].
    assert (0 <= highFreqEnergy / totalEnergy <= 1)%Q.
    { split; [apply Qle_shift_div_l | apply Qle_shift_div_r]; lra. }
    unfold inject_Z. lra.
  - cbn [mul add ofZ]. eexists. split; [reflexivity |]. unfold inject_Z. lra.
Qed.

Lemma clamp_within (x : number) :
  within 60 100 x ->
  exists q q' : Q, x = Fin q /\ Math_min 100 (Math_max 50 x) = Fin q' /\ (q' == q)%Q
                   /\ (60 <= q <= 100)%Q.
Proof.
  intros [q [-> H]]. exists q.
  cbn [Math_max Math_min ofZ le].
  assert (E1 : Qle_bool (inject_Z 50) q = true) by (apply Qle_bool_iff; unfold inject_Z; lra).
  rewrite E1.
  destruct (Qle_bool (inject_Z 100) q) eqn:E2.
  - exists (inject_Z 100). split; [reflexivity |]. split; [reflexivity |].
    apply Qle_bool_iff in E2. unfold inject_Z in *. split; [lra | exact H].
  - exists q. split; [reflexivity |]. split; [reflexivity |]. split; [reflexivity | exact H].
Qed.

(** X17.  [performBasicFFTAnalysis] returns a finite number from 60 to 100, so
    the clamp of [estimateClarity] to 50..100 leaves its value as it is. *)
Theorem estimateClarity_needs_no_clamp (channelData : list Q) (sampleRate : Q) :
  exists q q' : Q,
    performBasicFFTAnalysis (slice channelData 0 2048) sampleRate = Fin q
    /\ estimateClarity channelData sampleRate = Fin q'
    /\ (q' == q)%Q
    /\ (60 <= q <= 100)%Q.
Proof.
  unfold estimateClarity. cbv zeta.
  exact (clamp_within _ (performBasicFFTAnalysis_within (slice channelData 0 2048) sampleRate)).
Qed.

Lemma estimateClarity_within (channelData : list Q) (sampleRate : Q) :
  within 60 100 (estimateClarity channelData sampleRate).
Proof.
  unfold estimateClarity. cbv zeta.
  destruct (clamp_within _ (performBasicFFTAnalysis_within (slice channelData 0 2048) sampleRate))
    as (q & q' & _ & -> & Hq & H).
  exists q'. split; [reflexivity |]. rewrite Hq. exact H.
Qed.

Lemma within_truthy (lo hi : Q) (a : number) : (0 < lo)%Q -> within lo hi a -> truthy a = true.
Proof.
  intros Hlo [q [-> H]]. apply truthy_Fin. lra.
Qed.

Lemma inject_Z_pos (n : Z) : 0 < n -> (0 < inject_Z n)%Q.
Proof. intros H. change 0%Q with (inject_Z 0). rewrite <- Zlt_Qlt. exact H. Qed.

(** The speaking rate of a buffer that has samples. *)
Lemma speakingRate_positive (words n : Z) (rate : Q) :
  1 <= words -> 0 < n -> (0 < rate)%Q ->
  exists s : Q,
    (ofZ words / (ofZ n / Fin rate) * 60)%num = Fin s
    /\ (s == inject_Z words * rate * 60 / inject_Z n)%Q /\ (0 < s)%Q.
Proof.
  intros Hw Hn Hr.
  pose proof (inject_Z_pos n Hn) as Hn'. pose proof (inject_Z_pos words ltac:(lia)) as Hw'.
  change (ofZ n) with (Fin (inject_Z n)). change (ofZ words) with (Fin (inject_Z words)).
  rewrite divide_Fin_Fin by lra.
  assert (Hd : (0 < inject_Z n / rate)%Q) by (apply Qlt_shift_div_l; lra).
  rewrite divide_Fin_Fin by lra.
  cbn [mul ofZ]. eexists. split; [reflexivity |].
  assert (E : (inject_Z words / (inject_Z n / rate) * inject_Z 60
               == inject_Z words * rate * 60 / inject_Z n)%Q).
  { change (inject_Z 60) with 60%Q. field. split; lra. }
  split; [exact E |]. rewrite E.
  apply Qlt_shift_div_l; [exact Hn' |]. rewrite Qmult_0_l.
  apply Qmult_lt_0_compat; [apply Qmult_lt_0_compat; assumption | reflexivity].
Qed.

Lemma speakingRate_truthy (words n : Z) (rate : Q) :
  1 <= words -> 0 <= n -> (0 < rate)%Q ->
  truthy (ofZ words / (ofZ n / Fin rate) * 60)%num = true.
Proof.
  intros Hw Hn Hr. destruct (Z.eq_dec n 0) as [-> | Hn0].
  - change (ofZ 0) with (Fin 0). rewrite divide_Fin_Fin by lra.
    change (ofZ words) with (Fin (inject_Z words)). cbn [divide].
    assert (E0 : Qeq_bool (0 / rate) 0 = true) by (apply Qeq_bool_iff; field; lra).
    rewrite E0, Qeq_bool_inject_Z.
    destruct (Z.eqb_spec words 0) as [-> | _]; [lia |].
    unfold Qpositive.
    assert (E1 : Qle_bool (inject_Z words) 0 = false).
    { apply not_true_iff_false. rewrite Qle_bool_iff.
      pose proof (inject_Z_pos words ltac:(lia)). lra. }
    rewrite E1. reflexivity.
  - destruct (speakingRate_positive words n rate Hw ltac:(lia) Hr) as [s [-> [_ Hs]]].
    apply truthy_Fin. lra.
Qed.

Lemma extractAudioMetrics_returns (fuel : nat) (audioBuffer : AudioBuffer) (metrics : AudioMetrics) :
  extractAudioMetrics fuel audioBuffer = Return metrics ->
  exists wordBoundaries : Z,
    speakingRate metrics
    = (ofZ (Z.max 1 wordBoundaries) / duration audioBuffer * 60)%num
    /\ pauseRatio metrics
       = (ofZ (count (filter (fun sample => negb (Qle_bool 0.01 (Qabs sample)))
                             (channelData audioBuffer)))
          / ofZ (count (channelData audioBuffer)))%num
    /\ clarity metrics = estimateClarity (channelData audioBuffer) (sampleRate audioBuffer).
Proof.
  unfold extractAudioMetrics, estimateWordCount. cbv zeta.
  destruct (estimateWordCount_loop fuel (channelData audioBuffer)
              (Qfloor (sampleRate audioBuffer * 0.1)) 0 0) as [wordBoundaries | |];
    cbn [bind]; try discriminate.
  destruct (calculateVolumeVariation fuel (channelData audioBuffer)) as [volumes | |];
    cbn [bind]; try discriminate.
  intros H. injection H as <-. exists wordBoundaries.
  cbn [speakingRate pauseRatio clarity]. repeat split.
Qed.

Lemma pauseRatio_within (channelData : list Q) (f : Q -> bool) :
  channelData <> [] ->
  within 0 1 (ofZ (count (filter f channelData)) / ofZ (count channelData))%num.
Proof.
  intros Hne. pose proof (count_pos channelData Hne) as Hn.
  change (ofZ (count (filter f channelData)))
    with (Fin (inject_Z (count (filter f channelData)))).
  rewrite divide_Fin by lia. eexists. split; [reflexivity |].
  pose proof (inject_Z_pos _ Hn).
  assert (0 <= inject_Z (count (filter f channelData)) <= inject_Z (count channelData))%Q.
  { split.
    - change 0%Q with (inject_Z 0). rewrite <- Zle_Qle. apply count_nonneg.
    - rewrite <- Zle_Qle. apply count_filter_le. }
  split; [apply Qle_shift_div_l | apply Qle_shift_div_r]; lra.
Qed.

(** X18.  For a buffer that has samples and a positive sample rate, the
    metrics [extractAudioMetrics] returns have a clarity from 60 to 100, a
    pause ratio from 0 to 1 and a speaking rate that is finite and positive.
    *)
Theorem extractAudioMetrics_well_formed
        (fuel : nat) (audioBuffer : AudioBuffer) (metrics : AudioMetrics) :
  channelData audioBuffer <> [] ->
  (0 < sampleRate audioBuffer)%Q ->
  extractAudioMetrics fuel audioBuffer = Return metrics ->
  within 60 100 (clarity metrics)
  /\ within 0 1 (pauseRatio metrics)
  /\ exists rate : Q, speakingRate metrics = Fin rate /\ (0 < rate)%Q.
Proof.
  intros Hne Hrate H.
  destruct (extractAudioMetrics_returns fuel audioBuffer metrics H)
    as (wordBoundaries & -> & -> & ->).
  split; [apply estimateClarity_within |].
  split; [apply pauseRatio_within; exact Hne |].
  unfold duration.
  destruct (speakingRate_positive (Z.max 1 wordBoundaries) (count (channelData audioBuffer))
              (sampleRate audioBuffer) ltac:(lia) (count_pos _ Hne) Hrate) as [s [-> [_ Hs]]].
  exists s. split; [reflexivity | exact Hs].
Qed.

Lemma extractAudioMetrics_well_formed_witness :
  channelData squareWave <> [] /\ (0 < sampleRate squareWave)%Q /\
  exists metrics,
    extractAudioMetrics 30 squareWave = Return metrics
    /\ within 0 1 (pauseRatio metrics).
Proof.
  split; [discriminate |]. split; [reflexivity |].
  destruct (extractAudioMetrics 30 squareWave) as [metrics | |] eqn:E.
  - exists metrics. split; [reflexivity |].
    exact (proj1 (proj2 (extractAudioMetrics_well_formed 30 squareWave metrics
                           ltac:(discriminate) ltac:(reflexivity) E))).
  - vm_compute in E. discriminate E.
  - vm_compute in E. discriminate E.
Defined.

(** ** The entry point *)

(** X19.  [assessResponse] is never rejected and never returns the object of
    its [catch] arm, so that [enhancedFallbackAssessment] is not reached: if
    it returns, it returns five integers from 0 to 100. *)
Theorem assessResponse_settles_with_scores
        (fuel : nat) (section userResponse : string) (audioBlob : option Blob)
        (expectedAnswer question : option string) :
  assessResponse fuel section userResponse audioBlob expectedAnswer question = Diverge
  \/ exists parameters,
      assessResponse fuel section userResponse audioBlob expectedAnswer question
      = Return (Numbers parameters)
      /\ valid parameters.
Proof. apply assessResponse_sound. Qed.

Lemma orElse_same (v : number) : orElse (Some v) v = v.
Proof. unfold orElse. destruct (truthy v); reflexivity. Qed.

Lemma combineIntelligentResults_text
      (userResponse : string) (expectedAnswer question section : option string) :
  combineIntelligentResults
    (Some {| TextAnalysis.grammar := analyzeGrammarFree userResponse;
             TextAnalysis.vocabulary := analyzeVocabularyFree userResponse;
             TextAnalysis.content := analyzeContentFree userResponse expectedAnswer question section;
             TextAnalysis.sentiment := analyzeSentimentFree userResponse |})
    None userResponse expectedAnswer
  = {| fluency := estimateFluencyFromText userResponse;
       pronunciation := estimatePronunciationFromText userResponse;
       grammar := Grammar.score (analyzeGrammarFree userResponse);
       vocabulary := Vocabulary.score (analyzeVocabularyFree userResponse);
       comprehension :=
         Math_round (Content.relevance
                       (analyzeContentFree userResponse expectedAnswer question section)) |}.
Proof.
  unfold combineIntelligentResults. cbv zeta.
  cbn [option_map TextAnalysis.grammar TextAnalysis.vocabulary TextAnalysis.content].
  unfold enhancedGrammarScore, enhancedVocabularyScore, enhancedComprehensionScore.
  rewrite !orElse_same, !Math_round_ofZ.
  reflexivity.
Qed.

(** X20.  Without audio [assessResponse] returns the two text estimates, the
    scores of the grammar and vocabulary analyses (a score of 0 too: the
    fallback after [||] computes the same value again) and the rounded
    relevance; audio that cannot be decoded gives what no audio gives. *)
Theorem assessResponse_without_usable_audio
        (fuel : nat) (section userResponse : string) (expectedAnswer question : option string) :
  assessResponse fuel section userResponse None expectedAnswer question
  = Return (Numbers
      {| fluency := estimateFluencyFromText userResponse;
         pronunciation := estimatePronunciationFromText userResponse;
         grammar := Grammar.score (analyzeGrammarFree userResponse);
         vocabulary := Vocabulary.score (analyzeVocabularyFree userResponse);
         comprehension :=
           Math_round (Content.relevance
                         (analyzeContentFree userResponse expectedAnswer question
                            (Some section))) |})
  /\ assessResponse fuel section userResponse (Some None) expectedAnswer question
     = assessResponse fuel section userResponse None expectedAnswer question.
Proof.
  split.
  - unfold assessResponse.
    cbn [intelligentTextAnalysis settle bind try_catch].
    rewrite combineIntelligentResults_text. reflexivity.
  - reflexivity.
Qed.

(** X21.  The result of [assessResponse] does not depend on the section, which
    only feeds the completeness that the combiner does not read. *)
Theorem assessResponse_ignores_section
        (fuel : nat) (section1 section2 userResponse : string) (audioBlob : option Blob)
        (expectedAnswer question : option string) :
  assessResponse fuel section1 userResponse audioBlob expectedAnswer question
  = assessResponse fuel section2 userResponse audioBlob expectedAnswer question.
Proof.
  unfold assessResponse. cbn [intelligentTextAnalysis settle bind].
  destruct (match audioBlob with
            | Some audioBlob0 => freeAudioAnalysis fuel audioBlob0
            | None => Return None
            end) as [audioResult | |]; cbn [settle bind try_catch]; reflexivity.
Qed.

Lemma assessResponse_with_metrics
      (fuel : nat) (section userResponse : string) (audioBuffer : AudioBuffer)
      (expectedAnswer question : option string) (metrics : AudioMetrics) :
  extractAudioMetrics fuel audioBuffer = Return metrics ->
  assessResponse fuel section userResponse (Some (Some audioBuffer)) expectedAnswer question
  = Return (Numbers
      (combineIntelligentResults
         (Some {| TextAnalysis.grammar := analyzeGrammarFree userResponse;
                  TextAnalysis.vocabulary := analyzeVocabularyFree userResponse;
                  TextAnalysis.content :=
                    analyzeContentFree userResponse expectedAnswer question (Some section);
                  TextAnalysis.sentiment := analyzeSentimentFree userResponse |})
         (Some metrics) userResponse expectedAnswer)).
Proof.
  intros E. unfold assessResponse, freeAudioAnalysis.
  cbn [intelligentTextAnalysis settle bind blobToAudioBuffer]. rewrite E. reflexivity.
Qed.

Lemma combineIntelligentResults_audio
      (textResult : option TextAnalysis.t) (metrics : AudioMetrics)
      (userResponse : string) (expectedAnswer : option string) :
  truthy (clarity metrics) = true ->
  truthy (speakingRate metrics) = true ->
  fluency (combineIntelligentResults textResult (Some metrics) userResponse expectedAnswer)
  = ofZ (calculateFluencyFromRate (speakingRate metrics) (pauseRatio metrics))
  /\ pronunciation (combineIntelligentResults textResult (Some metrics) userResponse expectedAnswer)
     = Math_round (clarity metrics).
Proof.
  intros Hc Hs. unfold combineIntelligentResults. cbv zeta.
  cbn [fluency pronunciation]. rewrite Hc, Hs, Math_round_ofZ. split; reflexivity.
Qed.

Lemma extractAudioMetrics_truthy (fuel : nat) (audioBuffer : AudioBuffer) (metrics : AudioMetrics) :
  (0 < sampleRate audioBuffer)%Q ->
  extractAudioMetrics fuel audioBuffer = Return metrics ->
  truthy (clarity metrics) = true /\ truthy (speakingRate metrics) = true.
Proof.
  intros Hrate H.
  destruct (extractAudioMetrics_returns fuel audioBuffer metrics H)
    as (wordBoundaries & -> & _ & ->).
  split.
  - apply (within_truthy 60 100); [reflexivity | apply estimateClarity_within].
  - unfold duration. apply speakingRate_truthy; [lia | apply count_nonneg | exact Hrate].
Qed.



(** X23.  For audio of 20 samples or more, at 10 samples a second or more,
    [assessResponse] returns five integers from 0 to 100 as soon as the fuel
    exceeds the number of samples. *)
Theorem assessResponse_returns_for_long_audio
        (fuel : nat) (section userResponse : string) (audioBuffer : AudioBuffer)
        (expectedAnswer question : option string) :
  (20 <= List.length (channelData audioBuffer))%nat ->
  (10 <= sampleRate audioBuffer)%Q ->
  (List.length (channelData audioBuffer) < fuel)%nat ->
  exists parameters,
    assessResponse fuel section userResponse (Some (Some audioBuffer)) expectedAnswer question
    = Return (Numbers parameters)
    /\ valid parameters.
Proof. apply assessResponse_with_long_audio. Qed.

Lemma assessResponse_returns_for_long_audio_witness :
  exists parameters,
    assessResponse 21 "G" "We met our target because we planned ahead."
      (Some (Some squareWave)) (Some "planning") None
    = Return (Numbers parameters)
    /\ valid parameters.
Proof.
  apply (assessResponse_returns_for_long_audio 21 "G"
           "We met our target because we planned ahead." squareWave (Some "planning") None).
  - cbn. lia.
  - unfold Qle. cbn. lia.
  - cbn. lia.
Defined.

(** ** A silent recording *)

Lemma Forall_firstn {A : Type} (P : A -> Prop) (n : nat) (l : list A) :
  Forall P l -> Forall P (firstn n l).
Proof.
  intros H. revert n. induction H as [|x l Hx _ IH]; intros [|n]; cbn [firstn];
    constructor; [exact Hx | apply IH].
Qed.

Lemma Forall_skipn {A : Type} (P : A -> Prop) (n : nat) (l : list A) :
  Forall P l -> Forall P (skipn n l).
Proof.
  intros H. revert n. induction H as [|x l Hx H IH]; intros [|n]; cbn [skipn];
    [constructor | constructor | constructor; assumption | apply IH].
Qed.

Lemma energy_silent (samples : list Q) :
  Forall (fun sample => (sample == 0)%Q) samples ->
  forall acc : Q,
    (fold_left (fun acc sample => acc + sample * sample)%Q samples acc == acc)%Q.
Proof.
  induction 1 as [|sample samples H _ IH]; intros acc; cbn [fold_left]; [reflexivity |].
  rewrite IH, H. ring.
Qed.

Lemma calculateRMS_squared_silent (samples : list Q) (threshold : Q) :
  Forall (fun sample => (sample == 0)%Q) samples ->
  (0 <= threshold)%Q ->
  (calculateRMS_squared samples >? threshold)%num = false.
Proof.
  intros H Ht. unfold calculateRMS_squared.
  pose proof (energy_silent samples H 0) as E.
  set (energy := fold_left (fun acc sample => acc + sample * sample)%Q samples 0%Q) in *.
  destruct (Z.eq_dec (count samples) 0) as [Hz | Hz].
  - rewrite Hz. cbn [divide ofZ].
    change (Qeq_bool (inject_Z 0) 0) with true. cbv iota.
    rewrite (proj2 (Qeq_bool_iff energy 0) E). reflexivity.
  - rewrite divide_Fin by exact Hz. apply not_true_iff_false. rewrite gt_Fin.
    rewrite E. unfold Qdiv. rewrite Qmult_0_l. lra.
Qed.

Lemma estimateWordCount_loop_silent (channelData : list Q) (windowSize : Z) :
  Forall (fun sample => (sample == 0)%Q) channelData ->
  0 < windowSize ->
  forall fuel i wordBoundaries,
    Z.max 0 (count channelData - windowSize - i) < Z.of_nat fuel ->
    estimateWordCount_loop fuel channelData windowSize i wordBoundaries = Return wordBoundaries.
Proof.
  intros Hs Hw. induction fuel as [| fuel IH]; intros i wordBoundaries Hfuel;
    cbn [estimateWordCount_loop].
  - lia.
  - destruct (Z.ltb_spec i (count channelData - windowSize)) as [Hi | Hi]; [| reflexivity].
    cbv zeta.
    rewrite (calculateRMS_squared_silent (slice channelData i (i + windowSize)) 0.0004)
      by (try (unfold slice; apply Forall_firstn, Forall_skipn; exact Hs); lra).
    cbn [andb]. apply IH. lia.
Qed.

Lemma performBasicFFTAnalysis_loop_silent (rest : list Q) :
  Forall (fun sample => (sample == 0)%Q) rest ->
  forall i length sampleRate highFreqEnergy totalEnergy,
    (totalEnergy == 0)%Q ->
    (snd (performBasicFFTAnalysis_loop rest i length sampleRate highFreqEnergy totalEnergy)
     == 0)%Q.
Proof.
  induction 1 as [|sample rest H _ IH]; intros i length sampleRate highFreqEnergy totalEnergy E;
    cbn [performBasicFFTAnalysis_loop]; [exact E |].
  cbv zeta. apply IH. rewrite E, H. ring.
Qed.

Lemma estimateClarity_silent (channelData : list Q) (sampleRate : Q) :
  Forall (fun sample => (sample == 0)%Q) channelData ->
  Math_round (estimateClarity channelData sampleRate) = 60.
Proof.
  intros Hs. unfold estimateClarity, performBasicFFTAnalysis. cbv zeta.
  pose proof (performBasicFFTAnalysis_loop_silent (slice channelData 0 2048)
                ltac:(unfold slice; apply Forall_firstn, Forall_skipn; exact Hs)
                0 (count (slice channelData 0 2048)) sampleRate 0 0 ltac:(reflexivity)) as E.
  destruct (performBasicFFTAnalysis_loop (slice channelData 0 2048) 0
              (count (slice channelData 0 2048)) sampleRate 0 0)
    as [highFreqEnergy totalEnergy].
  cbn [snd] in E.
  assert (Hgt : (Fin totalEnergy >? 0)%num = false).
  { apply not_true_iff_false. unfold ofZ. rewrite gt_Fin. rewrite E. unfold inject_Z. lra. }
  rewrite Hgt. reflexivity.
Qed.

Lemma silent_samples_are_pauses (channelData : list Q) :
  Forall (fun sample => (sample == 0)%Q) channelData ->
  filter (fun sample => negb (Qle_bool 0.01 (Qabs sample))) channelData = channelData.
Proof.
  intros H. apply forallb_filter_id. apply forallb_forall. intros sample Hin.
  apply negb_true_iff, not_true_iff_false. rewrite Qle_bool_iff.
  rewrite (Qabs_wd sample 0 (proj1 (Forall_forall _ _) H sample Hin)).
  cbn. lra.
Qed.

Lemma extractAudioMetrics_silent (fuel : nat) (audioBuffer : AudioBuffer) :
  silent audioBuffer ->
  (20 <= List.length (channelData audioBuffer))%nat ->
  (10 <= sampleRate audioBuffer)%Q ->
  (List.length (channelData audioBuffer) < fuel)%nat ->
  exists metrics,
    extractAudioMetrics fuel audioBuffer = Return metrics
    /\ speakingRate metrics = (ofZ 1 / duration audioBuffer * 60)%num
    /\ pauseRatio metrics
       = (ofZ (count (channelData audioBuffer)) / ofZ (count (channelData audioBuffer)))%num
    /\ clarity metrics = estimateClarity (channelData audioBuffer) (sampleRate audioBuffer).
Proof.
  intros Hs Hlen Hrate Hfuel.
  unfold extractAudioMetrics, estimateWordCount, calculateVolumeVariation. cbv zeta.
  assert (Hw1 : 0 < Qfloor (sampleRate audioBuffer * 0.1)).
  { assert (H : Qfloor 1 <= Qfloor (sampleRate audioBuffer * 0.1)) by (apply Qfloor_resp_le; lra).
    change (Qfloor 1) with 1 in H. lia. }
  destruct (twenty_windows (count (channelData audioBuffer))) as [Hw2 Hw3];
    [unfold count; lia |].
  rewrite (estimateWordCount_loop_silent (channelData audioBuffer) _ Hs Hw1 fuel 0 0)
    by (unfold count; lia).
  cbn [bind].
  destruct (calculateVolumeVariation_loop_terminates (channelData audioBuffer) _ Hw2 Hw3 fuel 0 [])
    as [w ->]; [unfold count; lia | unfold count; cbn; lia |].
  cbn [bind]. eexists. split; [reflexivity |].
  cbn [speakingRate pauseRatio clarity].
  rewrite (silent_samples_are_pauses _ Hs). repeat split.
Qed.

(** X24.  A silent recording of 20 samples or more, at 10 samples a second or
    more and longer than 0.6 s, is scored fluency 50 and pronunciation 60
    whatever the transcript. *)
Theorem silent_recording_scores
        (fuel : nat) (section userResponse : string) (audioBuffer : AudioBuffer)
        (expectedAnswer question : option string) :
  silent audioBuffer ->
  (20 <= List.length (channelData audioBuffer))%nat ->
  (10 <= sampleRate audioBuffer)%Q ->
  (3 * sampleRate audioBuffer < 5 * inject_Z (count (channelData audioBuffer)))%Q ->
  (List.length (channelData audioBuffer) < fuel)%nat ->
  exists parameters,
    assessResponse fuel section userResponse (Some (Some audioBuffer)) expectedAnswer question
    = Return (Numbers parameters)
    /\ fluency parameters = 50
    /\ pronunciation parameters = 60.
Proof.
  intros Hs Hlen Hrate Hlong Hfuel.
  destruct (extractAudioMetrics_silent fuel audioBuffer Hs Hlen Hrate Hfuel)
    as (metrics & E & Hrate' & Hpause & Hclarity).
  rewrite (assessResponse_with_metrics _ _ _ _ _ _ _ E).
  eexists. split; [reflexivity |].
  destruct (extractAudioMetrics_truthy fuel audioBuffer metrics ltac:(lra) E) as [Hc Ht].
  destruct (combineIntelligentResults_audio
              (Some {| TextAnalysis.grammar := analyzeGrammarFree userResponse;
                       TextAnalysis.vocabulary := analyzeVocabularyFree userResponse;
                       TextAnalysis.content :=
                         analyzeContentFree userResponse expectedAnswer question (Some section);
                       TextAnalysis.sentiment := analyzeSentimentFree userResponse |})
              metrics userResponse expectedAnswer Hc Ht) as [-> ->].
  split.
  - assert (Hn : 0 < count (channelData audioBuffer)) by (unfold count; lia).
    rewrite Hrate', Hpause. unfold duration.
    destruct (speakingRate_positive 1 (count (channelData audioBuffer)) (sampleRate audioBuffer)
                ltac:(lia) Hn ltac:(lra)) as [s [-> [Es Hpos]]].
    change (ofZ (count (channelData audioBuffer)))
      with (Fin (inject_Z (count (channelData audioBuffer)))) at 1.
    rewrite divide_Fin by lia.
    pose proof (inject_Z_pos _ Hn) as Hn'.
    assert (Hs100 : (s < 100)%Q).
    { rewrite Es. apply Qlt_shift_div_r; [exact Hn' |]. change (inject_Z 1) with 1%Q. lra. }
    assert (Ep : (inject_Z (count (channelData audioBuffer))
                  / inject_Z (count (channelData audioBuffer)) == 1)%Q) by (field; lra).
    set (p := (inject_Z (count (channelData audioBuffer))
               / inject_Z (count (channelData audioBuffer)))%Q) in *.
    f_equal. unfold calculateFluencyFromRate. cbv zeta.
    split_comparisons; cbn [andb]; to_Q; try reflexivity; lra.
  - rewrite Hclarity. apply estimateClarity_silent. exact Hs.
Qed.

Lemma silent_recording_scores_witness :
  silent silentSecond /\
  exists parameters,
    assessResponse 30 "A" "Hello there." (Some (Some silentSecond)) None None
    = Return (Numbers parameters)
    /\ fluency parameters = 50
    /\ pronunciation parameters = 60.
Proof.
  assert (Hs : silent silentSecond) by (repeat constructor).
  split; [exact Hs |].
  apply (silent_recording_scores 30 "A" "Hello there." silentSecond None None Hs).
  - cbn. lia.
  - unfold Qle. cbn. lia.
  - reflexivity.
  - cbn. lia.
Defined.

(** ** White space at the ends of a transcript *)

Lemma starClass_rest (p : ascii -> bool) (s : string) :
  forall prev,
  exists rest,
    starClass p prev s (fun _ rest => Some rest) = Some rest
    /\ (String.length rest <= String.length s)%nat.
Proof.
  induction s as [|c s IH]; intros prev; cbn [starClass].
  - exists EmptyString. split; [reflexivity | cbn; lia].
  - destruct (p c).
    + destruct (IH (Some c)) as [rest [-> Hlen]]. exists rest. split; [reflexivity | cbn; lia].
    + exists (String c s). split; [reflexivity | lia].
Qed.

(** At a white-space character [/\s+/] matches, and takes that character at least. *)
Lemma matchAt_whitespace (prev : option ascii) (c : ascii) (s : string) :
  if isWhiteSpace c
  then exists rest n,
         matchAt false re_whitespace prev (String c s) = Some rest
         /\ (String.length (String c s) - String.length rest)%nat = S n
  else matchAt false re_whitespace prev (String c s) = None.
Proof.
  unfold matchAt, re_whitespace. cbn [rmatch].
  destruct (isWhiteSpace c); [| reflexivity].
  destruct (starClass_rest isWhiteSpace s (Some c)) as [rest [-> Hlen]].
  exists rest, (String.length s - String.length rest)%nat. split; [reflexivity |].
  cbn [String.length]. lia.
Qed.

Lemma split_leading_whitespace (s : string) :
  startsWithWhiteSpace s = true -> In EmptyString (split false re_whitespace s).
Proof.
  destruct s as [|c s]; [discriminate |]. cbn [startsWithWhiteSpace]. intros Hc.
  unfold split. cbn [splitFrom].
  pose proof (matchAt_whitespace None c s) as H. rewrite Hc in H.
  destruct H as (rest & n & -> & ->). left. reflexivity.
Qed.

Lemma endsWithWhiteSpace_tail (c d : ascii) (s : string) :
  endsWithWhiteSpace (String c (String d s)) = endsWithWhiteSpace (String d s).
Proof. reflexivity. Qed.

Lemma splitFrom_trailing_whitespace (s : string) :
  forall skip piece prev,
    endsWithWhiteSpace s = true ->
    (skip <> 0%nat -> piece = EmptyString) ->
    In EmptyString (splitFrom false re_whitespace skip piece prev s).
Proof.
  induction s as [|c s IH]; intros skip piece prev Hend Hpiece; [discriminate |].
  cbn [splitFrom]. destruct skip as [|skip].
  - pose proof (matchAt_whitespace prev c s) as H.
    destruct (isWhiteSpace c) eqn:Hc.
    + destruct H as (rest & n & -> & ->).
      destruct s as [|d s]; [right; left; reflexivity |].
      right. apply IH; [exact Hend | reflexivity].
    + rewrite H. destruct s as [|d s]; [cbn in Hend; congruence |].
      apply IH; [exact Hend | congruence].
  - rewrite (Hpiece ltac:(discriminate)).
    destruct s as [|d s]; [left; reflexivity |].
    apply IH; [exact Hend | reflexivity].
Qed.

Lemma split_trailing_whitespace (s : string) :
  endsWithWhiteSpace s = true -> In EmptyString (split false re_whitespace s).
Proof.
  destruct s as [|c s]; [discriminate |]. intros H. unfold split.
  apply splitFrom_trailing_whitespace; [exact H | congruence].
Qed.

Lemma toLowerCase_startsWithWhiteSpace (s : string) :
  startsWithWhiteSpace s = true -> startsWithWhiteSpace (toLowerCase s) = true.
Proof.
  destruct s as [|c s]; [discriminate |]. cbn [startsWithWhiteSpace toLowerCase].
  intros H. rewrite (whitespace_lower c H). exact H.
Qed.

Lemma toLowerCase_endsWithWhiteSpace (s : string) :
  endsWithWhiteSpace s = true -> endsWithWhiteSpace (toLowerCase s) = true.
Proof.
  induction s as [|c s IH]; [discriminate |].
  destruct s as [|d s].
  - cbn [endsWithWhiteSpace toLowerCase]. intros H. rewrite (whitespace_lower c H). exact H.
  - intros H. rewrite endsWithWhiteSpace_tail in H.
    change (toLowerCase (String c (String d s)))
      with (String (toLowerChar c) (toLowerCase (String d s))).
    specialize (IH H). cbn [toLowerCase] in IH |- *. exact IH.
Qed.

Lemma transcriptWords_edge (text : string) :
  startsWithWhiteSpace text || endsWithWhiteSpace text = true ->
  In EmptyString (transcriptWords text).
Proof.
  intros H. unfold transcriptWords. apply orb_true_iff in H. destruct H as [H | H].
  - apply split_leading_whitespace, toLowerCase_startsWithWhiteSpace, H.
  - apply split_trailing_whitespace, toLowerCase_endsWithWhiteSpace, H.
Qed.

Lemma conceptMatches_empty_word (words : list string) (token : string) :
  In EmptyString words -> conceptMatches words token = true.
Proof.
  intros H. unfold conceptMatches. apply existsb_exists. exists EmptyString.
  split; [exact H |]. rewrite includes_empty, orb_true_r. reflexivity.
Qed.

Lemma relevance_spec_empty_word (text hint : string) :
  In EmptyString (transcriptWords text) -> (relevance_spec text hint == 100)%Q.
Proof.
  intros Hs. unfold relevance_spec, matchedTokens.
  rewrite filter_all by (intros token; apply conceptMatches_empty_word, Hs).
  pose proof (count_hintTokens_pos hint) as Hn.
  pose proof (inject_Z_pos _ Hn) as Hn'.
  assert (E : (inject_Z (count (hintTokens hint)) / inject_Z (count (hintTokens hint)) == 1)%Q)
    by (field; lra).
  rewrite E. apply Q.min_l. lra.
Qed.

(** X25.  A transcript that starts or ends with a white-space character has
    the empty string among its words, which every hint token contains: with a
    non-empty hint every token is matched and the comprehension is 100. *)
Theorem edge_white_space_matches_every_hint
        (fuel : nat) (section text hint : string) (question : option string) :
  startsWithWhiteSpace text || endsWithWhiteSpace text = true ->
  hint <> EmptyString ->
  In EmptyString (transcriptWords text)
  /\ (forall token, conceptMatches (transcriptWords text) token = true)
  /\ exists parameters,
      assessResponse fuel section text None (Some hint) question = Return (Numbers parameters)
      /\ comprehension parameters = 100.
Proof.
  intros Hedge Hhint. pose proof (transcriptWords_edge text Hedge) as Hin.
  split; [exact Hin |].
  split; [intros token; apply conceptMatches_empty_word, Hin |].
  unfold assessResponse. cbn [intelligentTextAnalysis settle bind try_catch].
  rewrite combineIntelligentResults_text.
  eexists. split; [reflexivity |]. cbn [comprehension].
  destruct (relevance_with_hint text hint question (Some section) Hhint) as [q [-> Hq]].
  apply Math_round_Qeq. rewrite Hq. apply relevance_spec_empty_word, Hin.
Qed.

Lemma edge_white_space_matches_every_hint_witness :
  startsWithWhiteSpace "no idea " || endsWithWhiteSpace "no idea " = true /\
  "describe your leadership experience" <> EmptyString /\
  exists parameters,
    assessResponse 0 "B" "no idea " None (Some "describe your leadership experience") None
    = Return (Numbers parameters)
    /\ comprehension parameters = 100.
Proof.
  split; [reflexivity |]. split; [discriminate |].
  exact (proj2 (proj2 (edge_white_space_matches_every_hint
                         0 "B" "no idea " "describe your leadership experience" None
                         ltac:(reflexivity) ltac:(discriminate)))).
Defined.

(** ** The unused scorers *)

(** X26.  The five scorers nothing calls stay in their ranges: grammar from 70
    to 100, vocabulary from 60 to 100, pronunciation from 75 to 90, fluency
    from 70 to 100 and comprehension from 65 to 100. *)
Theorem fallback_scorers_ranges (text : string) :
  70 <= fallbackGrammarScore text <= 100
  /\ 60 <= fallbackVocabularyScore text <= 100
  /\ 75 <= fallbackPronunciationScore text <= 90
  /\ 70 <= fallbackFluencyScore text <= 100
  /\ 65 <= fallbackComprehensionScore text <= 100.
Proof.
  unfold fallbackGrammarScore, fallbackVocabularyScore, fallbackPronunciationScore,
    fallbackFluencyScore, fallbackComprehensionScore.
  cbv zeta. repeat split; split_conditions; lia.
Qed.

(** ** The errors of the grammar analysis *)

Lemma checkPattern_fold_errors (text : string) (patterns : list ErrorPattern) :
  forall r : Grammar.t,
    Grammar.errors (fold_left (checkPattern text) patterns r)
    = (Grammar.errors r
       ++ map error (filter (fun e => test true (pattern e) text) patterns))%list.
Proof.
  induction patterns as [| e patterns IH]; intros r; cbn [fold_left filter map].
  - rewrite app_nil_r. reflexivity.
  - rewrite IH. unfold checkPattern.
    destruct (test true (pattern e) text); cbn [Grammar.errors Grammar.deduct Grammar.pushError map];
      [rewrite <- app_assoc |]; reflexivity.
Qed.

(** X27.  The errors of [analyzeGrammarFree] are, in this order, the message
    of the missing capital, the message of the missing final punctuation and
    the messages of the matched patterns of the catalogue; the deductions for
    the sentence length and the bonus for a conjunction add none. *)
Theorem analyzeGrammarFree_errors (text : string) :
  Grammar.errors (analyzeGrammarFree text)
  = ((if hasLeadingCapital text then [] else ["Missing capital letter at start"])
     ++ (if hasFinalPunctuation text then [] else ["Missing ending punctuation"])
     ++ map error (matchedPatterns text))%list.
Proof.
  unfold analyzeGrammarFree, hasLeadingCapital, hasFinalPunctuation, matchedPatterns.
  cbv zeta. cbn [Grammar.errors].
  match goal with
  | |- Grammar.errors (if ?b then Grammar.award 5 ?r else ?r) = _ =>
      transitivity (Grammar.errors r); [destruct b; reflexivity |]
  end.
  match goal with
  | |- Grammar.errors (if ?b1 then ?x else if ?b2 then ?y else ?r) = _ =>
      transitivity (Grammar.errors r); [destruct b1; [| destruct b2]; reflexivity |]
  end.
  rewrite checkPattern_fold_errors.
  destruct (test false re_leading_capital (trim text));
    destruct (test false re_final_punct (trim text)); reflexivity.
Qed.

(** ** The metrics of the vocabulary analysis *)

Lemma count_Set_of_le (l : list string) : count (Set_of l) <= count l.
Proof.
  unfold count. apply inj_le. apply NoDup_incl_length; [apply NoDup_Set_of |].
  intros x Hx. apply In_Set_of. exact Hx.
Qed.

Lemma sum_of_lengths_nonneg (words : list string) :
  forall acc, 0 <= acc -> 0 <= fold_left (fun sum word => sum + len word) words acc.
Proof.
  induction words as [|w words IH]; intros acc H; cbn [fold_left]; [exact H |].
  apply IH. unfold len. lia.
Qed.

Lemma ratio_within (a n : Z) : 0 <= a <= Z.max n 1 -> within 0 1 (ofZ a / ofZ (Z.max n 1))%num.
Proof.
  intros H. change (ofZ a) with (Fin (inject_Z a)). rewrite divide_Fin by lia.
  eexists. split; [reflexivity |].
  pose proof (inject_Z_pos (Z.max n 1) ltac:(lia)).
  assert (0 <= inject_Z a <= inject_Z (Z.max n 1))%Q.
  { split; [change 0%Q with (inject_Z 0) |]; rewrite <- Zle_Qle; lia. }
  split; [apply Qle_shift_div_l | apply Qle_shift_div_r]; lra.
Qed.

(** X28.  In the metrics of [analyzeVocabularyFree] the number of unique words
    and the number of advanced words are between 0 and the number of words,
    the lexical diversity is a finite number from 0 to 1 and the average word
    length is finite and not negative. *)
Theorem vocabulary_metrics_invariants (text : string) :
  0 <= Vocabulary.uniqueWordCount (Vocabulary.metrics_of (analyzeVocabularyFree text))
    <= Vocabulary.totalWords (Vocabulary.metrics_of (analyzeVocabularyFree text))
  /\ 0 <= Vocabulary.advancedWords (Vocabulary.metrics_of (analyzeVocabularyFree text))
       <= Vocabulary.totalWords (Vocabulary.metrics_of (analyzeVocabularyFree text))
  /\ within 0 1 (Vocabulary.lexicalDiversity (Vocabulary.metrics_of (analyzeVocabularyFree text)))
  /\ exists q : Q,
      Vocabulary.avgWordLength (Vocabulary.metrics_of (analyzeVocabularyFree text)) = Fin q
      /\ (0 <= q)%Q.
Proof.
  unfold analyzeVocabularyFree. cbv zeta.
  cbn [Vocabulary.metrics_of Vocabulary.uniqueWordCount Vocabulary.totalWords
         Vocabulary.advancedWords Vocabulary.lexicalDiversity Vocabulary.avgWordLength].
  unfold lexicalDiversity, avgWordLength.
  set (words := orEmpty (String_match false re_lower_word (toLowerCase text))).
  pose proof (count_Set_of_le words). pose proof (count_nonneg (Set_of words)).
  pose proof (count_filter_le isAdvancedWord words).
  pose proof (count_nonneg (filter isAdvancedWord words)).
  repeat split; try lia.
  - apply ratio_within. lia.
  - pose proof (sum_of_lengths_nonneg words 0 ltac:(lia)) as Hsum.
    set (total := fold_left (fun sum word => sum + len word) words 0) in *.
    change (ofZ total) with (Fin (inject_Z total)). rewrite divide_Fin by lia.
    eexists. split; [reflexivity |].
    pose proof (inject_Z_pos (Z.max (count words) 1) ltac:(lia)).
    apply Qle_shift_div_l; [assumption |]. rewrite Qmult_0_l.
    change 0%Q with (inject_Z 0). rewrite <- Zle_Qle. exact Hsum.
Qed.
